(** * SuttaCentral offline API server: index builder, facet resolver,
      legacy backfill and build pipeline

    A shallow embedding of [app.js], [scripts/build_index.js],
    [scripts/build_pipeline.js] and the legacy backfill script
    ([scripts/fetch_legacy.js]), followed by the properties of the
    specification that were checked against them.

    Conventions of the embedding.
    - JavaScript strings are Rocq [string]s.
    - A plain JavaScript object used as a dictionary is a list of its own
      properties in [Object.keys] order ([Js.obj]); reading a property goes
      through the prototype chain ([Js.get]), as [o[k]] does.
    - Code that can throw returns an [option] or an outcome type; code with
      effects returns the trace of the effects it performed.
    - Paths are handled as POSIX paths ([path.join], [path.relative],
      [path.basename], [path.dirname] of Node's [path] module).
    - The documents the programs parse have the shape the programs give
      them when they write them: an index entry has a [root] that is a
      string or [null] and a [translations] object of strings, a legacy
      entry is an object, a menu node has a [node_type], a [uid] and
      [children].  Identifiers and author names are arbitrary strings.
    - A synchronous stretch of code, such as one [fs.writeFileSync], is
      one step: a run can stop between two steps, not inside one. *)

From Stdlib Require Import String Ascii List Bool Arith PeanoNat NArith Lia.
Import ListNotations.

Local Open Scope string_scope.
Local Open Scope list_scope.

Set Implicit Arguments.

(** ** String primitives of JavaScript used by the sources *)

Module Str.

Notation "s +++ t" := (String.append s t) (at level 60, right associativity).

(** [s.startsWith(p)] *)
Definition startsWith (p s : string) : bool := String.prefix p s.

(** [s.includes(needle)] *)
Fixpoint includes (needle s : string) : bool :=
  startsWith needle s ||
  match s with
  | EmptyString => false
  | String _ r => includes needle r
  end.

(** [s.endsWith(suffix)] *)
Fixpoint endsWith (suffix s : string) : bool :=
  String.eqb s suffix ||
  match s with
  | EmptyString => false
  | String _ r => endsWith suffix r
  end.

(** [s.slice(n)] *)
Fixpoint drop (n : nat) (s : string) : string :=
  match n, s with
  | O, _ => s
  | S _, EmptyString => EmptyString
  | S m, String _ r => drop m r
  end.

(** [s.replace(old, new)] with a string pattern: only the first occurrence
    is replaced.  The replacement strings of the sources contain no [$]. *)
Fixpoint replace (old new s : string) : string :=
  if startsWith old s then new +++ drop (String.length old) s
  else match s with
       | EmptyString => EmptyString
       | String c r => String c (replace old new r)
       end.

(** [s.split(sep)[0]] for a non-empty separator: the part of [s] before
    the first occurrence of [sep], the whole of [s] when there is none. *)
Fixpoint before (sep s : string) : string :=
  if startsWith sep s then EmptyString
  else match s with
       | EmptyString => EmptyString
       | String c r => String c (before sep r)
       end.

(** [s.split(c)] for a one-character separator. *)
Fixpoint split_aux (c : ascii) (cur : string) (s : string) : list string :=
  match s with
  | EmptyString => [cur]
  | String d r =>
      if Ascii.eqb d c then cur :: split_aux c EmptyString r
      else split_aux c (cur +++ String d EmptyString) r
  end.

Definition split (c : ascii) (s : string) : list string :=
  split_aux c EmptyString s.

(** [l.join(sep)] *)
Definition join (sep : string) (l : list string) : string :=
  String.concat sep l.

(** [s.includes(c)] for one character. *)
Fixpoint has_char (c : ascii) (s : string) : bool :=
  match s with
  | EmptyString => false
  | String d r => Ascii.eqb d c || has_char c r
  end.

End Str.
Import Str.

(** ** Plain JavaScript objects used as dictionaries *)

Module Js.

(** Own enumerable string-keyed properties, in [Object.keys] order, with
    pairwise distinct keys. *)
Definition obj (A : Type) : Type := list (string * A).

Definition keys {A} (o : obj A) : list string := map fst o.

(** Own property lookup. *)
Fixpoint own {A} (o : obj A) (k : string) : option A :=
  match o with
  | [] => None
  | (k', v) :: r => if String.eqb k k' then Some v else own r k
  end.

(** The property names every plain object inherits from
    [Object.prototype]. *)
Definition proto_names : list string :=
  [ "constructor"; "__proto__"; "hasOwnProperty"; "isPrototypeOf";
    "propertyIsEnumerable"; "toLocaleString"; "toString"; "valueOf";
    "__defineGetter__"; "__defineSetter__"; "__lookupGetter__";
    "__lookupSetter__" ].

Definition is_proto_name (k : string) : bool :=
  existsb (String.eqb k) proto_names.

(** The result of [o[k]] on a plain object: an own property, a member
    inherited from [Object.prototype] (a function, or the prototype object
    itself for [__proto__]), or [undefined]. *)
Inductive lookup (A : Type) : Type :=
| Own (a : A)
| Inherited (k : string)
| Undefined.
Arguments Inherited {A} k.
Arguments Undefined {A}.

Definition get {A} (o : obj A) (k : string) : lookup A :=
  match own o k with
  | Some a => Own a
  | None => if is_proto_name k then Inherited k else Undefined
  end.

(** Truthiness of [o[k]], given the truthiness of the stored values.
    Inherited members are functions or objects, hence truthy. *)
Definition truthy {A} (tv : A -> bool) (r : lookup A) : bool :=
  match r with
  | Own a => tv a
  | Inherited _ => true
  | Undefined => false
  end.

(** Objects are always truthy; a string is truthy unless it is empty. *)
Definition truthy_obj {A} (_ : A) : bool := true.
Definition truthy_str (s : string) : bool := negb (String.eqb s "").

(** An array index is a canonical numeric string below [2^32 - 1]; such
    keys are enumerated first, in ascending numeric order, before all other
    keys, which come in insertion order. *)
Definition digit (c : ascii) : option N :=
  let n := N_of_ascii c in
  if (48 <=? n)%N && (n <=? 57)%N then Some (n - 48)%N else None.

Fixpoint digits (acc : N) (s : string) : option N :=
  match s with
  | EmptyString => Some acc
  | String c r =>
      match digit c with
      | Some d => digits (acc * 10 + d)%N r
      | None => None
      end
  end.

Definition array_index (k : string) : option N :=
  match k with
  | EmptyString => None
  | String c r =>
      if Ascii.eqb c "0" && negb (String.eqb r "") then None
      else match digits 0 k with
           | Some n => if (n <? 4294967295)%N then Some n else None
           | None => None
           end
  end.

(** Position of a new array-index key [n]: before the first own key that
    is not an array index or is a larger one. *)
Fixpoint insert_index {A} (n : N) (k : string) (v : A) (o : obj A) : obj A :=
  match o with
  | [] => [(k, v)]
  | (k', v') :: r =>
      match array_index k' with
      | Some m => if (m <? n)%N then (k', v') :: insert_index n k v r
                  else (k, v) :: o
      | None => (k, v) :: o
      end
  end.

Fixpoint replace_own {A} (k : string) (v : A) (o : obj A) : obj A :=
  match o with
  | [] => []
  | (k', v') :: r =>
      if String.eqb k k' then (k', v) :: r else (k', v') :: replace_own k v r
  end.

(** [o[k] = v] for a key other than [__proto__]: an existing own property
    keeps its place, a new one is created. *)
Definition set {A} (o : obj A) (k : string) (v : A) : obj A :=
  match own o k with
  | Some _ => replace_own k v o
  | None =>
      match array_index k with
      | Some n => insert_index n k v o
      | None => o ++ [(k, v)]
      end
  end.

(** [o[k] = v] where [v] is a string.  Assigning a primitive to
    [__proto__] runs the setter of [Object.prototype], which ignores it:
    no property is created. *)
Definition set_prim {A} (o : obj A) (k : string) (v : A) : obj A :=
  if String.eqb k "__proto__" then o else set o k v.

End Js.

(** ** POSIX paths (Node's [path] module) *)

Module Path.

(** The segments of a path string. *)
Definition segments (p : string) : list string := Str.split "/" p.

Definition nonempty (s : string) : bool := negb (String.eqb s "").

(** Normalisation of the segments of an absolute path: empty and [.]
    segments vanish, [..] removes the segment before it (and is dropped at
    the root).  [stack] holds the normalised part, innermost first. *)
Fixpoint norm (stack : list string) (segs : list string) : list string :=
  match segs with
  | [] => rev stack
  | s :: r =>
      if String.eqb s "" || String.eqb s "." then norm stack r
      else if String.eqb s ".." then norm (tl stack) r
      else norm (s :: stack) r
  end.

(** [path.join(base, p1, ..., pn)] for an absolute, normalised [base],
    given and returned as a list of segments. *)
Definition join (base : list string) (parts : list string) : list string :=
  norm (rev base) (flat_map segments parts).

(** [path.basename(p)]: the last non-empty segment. *)
Definition basename (p : string) : string :=
  last (filter nonempty (segments p)) "".

(** [path.dirname(p)] of a relative path: everything before the last
    non-empty segment, [.] when nothing is left.  (Node keeps doubled
    separators inside the result; [path.join], the only consumer in the
    sources, removes them.) *)
Definition dirname (p : string) : string :=
  match removelast (filter nonempty (segments p)) with
  | [] => "."
  | d => Str.join "/" d
  end.

(** [path.relative(from, to)] for absolute, normalised paths. *)
Fixpoint relative_segments (from to : list string) : list string :=
  match from, to with
  | f :: fr, t :: tr =>
      if String.eqb f t then relative_segments fr tr
      else map (fun _ => "..") from ++ to
  | _, _ => map (fun _ => "..") from ++ to
  end.

Definition relative (from to : list string) : string :=
  Str.join "/" (relative_segments from to).

(** A name as [fs.readdirSync] returns it: not empty, not [.] or [..],
    without a separator. *)
Definition name_ok (s : string) : bool :=
  nonempty s && negb (String.eqb s ".") && negb (String.eqb s "..")
  && negb (Str.has_char "/" s).

End Path.

(** ** [scripts/build_index.js] *)

Module BuildIndex.

(** A directory tree as [fs.readdirSync] and [fs.statSync] present it;
    the children of a directory come in the order [readdirSync] lists
    them. *)
#[local] Unset Elimination Schemes.
Inductive node : Type :=
| File (name : string)
| Dir (name : string) (children : list node).
#[local] Set Elimination Schemes.

(** [walkSync(dir)]: the files below [dir], in walk order.  Each file is
    given by the segments of its path below [dir]; its full path is
    [dir] followed by them. *)
Fixpoint walk_node (n : node) : list (list string) :=
  match n with
  | File f => [[f]]
  | Dir d cs => map (cons d) (flat_map walk_node cs)
  end.

Definition walkSync (children : list node) : list (list string) :=
  flat_map walk_node children.

(** The two facet trees the builder reads; [None] when the directory
    ([ROOT_DIR], [TRANSLATION_DIR]) does not exist. *)
Record corpus : Type := {
  root_dir : option (list node);
  translation_dir : option (list node)
}.

(** An index entry: [root] is [null] ([None]) or a relative path. *)
Record entry : Type := {
  root : option string;
  translations : Js.obj string
}.

Definition index : Type := Js.obj entry.

Definition ROOT_SUFFIX : string := "_root-pli-ms.json".
Definition TRANSLATION_MARK : string := "_translation-en-".

(** [path.basename(fullPath)] and [path.relative(dir, fullPath)] of a
    walked file. *)
Definition file_name (segs : list string) : string := last segs "".
Definition relative_path (segs : list string) : string := Str.join "/" segs.

(** [!index[uid]] *)
Definition missing (idx : index) (uid : string) : bool :=
  negb (Js.truthy Js.truthy_obj (Js.get idx uid)).

Definition root_uid (segs : list string) : string :=
  Str.replace ROOT_SUFFIX "" (file_name segs).

(** The test [fullPath.endsWith("_root-pli-ms.json")] is made on the
    file name: the suffix has no separator, so it can only match inside
    the last segment. *)
Definition is_root_file (segs : list string) : bool :=
  Str.endsWith ROOT_SUFFIX (file_name segs).

(** Body of [rootFiles.forEach]. *)
Definition index_root (idx : index) (segs : list string) : index :=
  if is_root_file segs then
    let uid := root_uid segs in
    if missing idx uid then
      Js.set idx uid {| root := Some (relative_path segs); translations := [] |}
    else idx
  else idx.

Definition is_translation_file (segs : list string) : bool :=
  Str.includes TRANSLATION_MARK (file_name segs).

Definition translation_uid (segs : list string) : string :=
  Str.before TRANSLATION_MARK (file_name segs).

(** Body of [transFiles.forEach]; [None] is the [TypeError] raised by
    [index[uid].translations[author] = ...] when [index[uid]] is an
    inherited member, whose [translations] is [undefined]. *)
Definition index_translation (author : string) (idx : index)
    (segs : list string) : option index :=
  if is_translation_file segs then
    let uid := translation_uid segs in
    let idx1 :=
      if missing idx uid
      then Js.set idx uid {| root := None; translations := [] |}
      else idx in
    match Js.get idx1 uid with
    | Js.Own e =>
        Some (Js.set idx1 uid
                {| root := root e;
                   translations :=
                     Js.set_prim (translations e) author (relative_path segs) |})
    | Js.Inherited _ | Js.Undefined => None
    end
  else Some idx.

(** A [forEach] whose body may throw. *)
Fixpoint forEach {A S} (body : S -> A -> option S) (l : list A) (s : S)
  : option S :=
  match l with
  | [] => Some s
  | a :: r =>
      match body s a with
      | Some s' => forEach body r s'
      | None => None
      end
  end.

(** Body of [authors.forEach]: only directories are walked. *)
Definition index_author (idx : index) (n : node) : option index :=
  match n with
  | File _ => Some idx
  | Dir author cs => forEach (index_translation author) (walkSync cs) idx
  end.

Definition index_roots (c : corpus) : index :=
  match root_dir c with
  | Some cs => fold_left index_root (walkSync cs) []
  | None => []
  end.

(** [buildIndex()]: the index written to [sutta_index.json], or [None]
    when the run dies of an exception before writing it. *)
Definition buildIndex (c : corpus) : option index :=
  match translation_dir c with
  | Some authors => forEach index_author authors (index_roots c)
  | None => Some (index_roots c)
  end.

End BuildIndex.


(** ** [app.js]: the facet resolver *)

Module App.

Import BuildIndex.

(** What [fs.existsSync] and [JSON.parse(fs.readFileSync(..))] find at a
    path. *)
Inductive file_state (J : Type) : Type :=
| Missing
| Unparsable
| Parsed (j : J).
Arguments Missing {J}.
Arguments Unparsable {J}.

Inductive facet : Type :=
| FRoot | FTranslation | FHtml | FComment | FVariant | FReference.

(** An entry of [_author.json] and of [_publication.json]; a field that is
    not there reads as [undefined] ([None]). *)
Record author_meta : Type := { name : option string }.
Record publication : Type := {
  pub_author_uid : option string;
  pub_text_uid : option string
}.

(** A JavaScript value that is a string, [null] or [undefined]. *)
Inductive js_string : Type :=
| JsStr (s : string)
| JsNull
| JsUndefined.

Section Resolver.

(** Parsed JSON documents, their truthiness and the empty object [{}]. *)
Variable json : Type.
Variable json_truthy : json -> bool.
Variable empty_object : json.

(** [__dirname] of [app.js], absolute and normalised. *)
Variable server_dir : list string.

(** The files on disk. *)
Variable disk : list string -> file_state json.

Variable suttaIndex : index.
Variable authorMeta : Js.obj author_meta.
Variable publicationMeta : Js.obj publication.

Definition BILARA_BASE : list string :=
  Path.join server_dir ["data/bilara-data-published"].

(** [readJson(filePath)]: [null] ([None]) when the file is missing or
    does not parse. *)
Definition readJson (p : list string) : option json :=
  match disk p with
  | Parsed j => Some j
  | Missing | Unparsable => None
  end.

(** [readJson(p) || {}] *)
Definition read_or_empty (p : list string) : json :=
  match readJson p with
  | Some j => if json_truthy j then j else empty_object
  | None => empty_object
  end.

(** The [name] of an inherited member: the functions of
    [Object.prototype] are named after their property, the constructor
    is [Object], and the prototype object has no [name]. *)
Definition inherited_name (k : string) : js_string :=
  if String.eqb k "constructor" then JsStr "Object"
  else if String.eqb k "__proto__" then JsUndefined
  else JsStr k.

(** [getAuthorName(uid)]; a [null] argument is converted to the key
    ["null"]. *)
Definition getAuthorName (uid : option string) : js_string :=
  let key := match uid with Some a => a | None => "null" end in
  match Js.get authorMeta key with
  | Js.Own m => match name m with Some n => JsStr n | None => JsUndefined end
  | Js.Inherited k => inherited_name k
  | Js.Undefined => match uid with Some a => JsStr a | None => JsNull end
  end.

(** [translations[a]] is truthy. *)
Definition has_translation (t : Js.obj string) (a : string) : bool :=
  Js.truthy Js.truthy_str (Js.get t a).

(** Step 2 of the handler: [selectedAuthor] and
    [translationRelativePath], both [null] when no author is
    available. *)
Definition select_author (t : Js.obj string) (requestedAuthor : option string)
  : option (string * Js.lookup string) :=
  let availableAuthors := Js.keys t in
  match availableAuthors with
  | [] => None
  | first :: _ =>
      let selectedAuthor :=
        match requestedAuthor with
        | Some r =>
            if Js.truthy_str r && has_translation t r then r
            else if has_translation t "sujato" then "sujato"
            else if has_translation t "brahmali" then "brahmali"
            else first
        | None =>
            if has_translation t "sujato" then "sujato"
            else if has_translation t "brahmali" then "brahmali"
            else first
        end in
      Some (selectedAuthor, Js.get t selectedAuthor)
  end.

Definition is_locator_char (c : ascii) : bool :=
  let n := nat_of_ascii c in
  ((48 <=? n)%nat && (n <=? 57)%nat) || (n =? 46)%nat || (n =? 45)%nat.

Definition is_line_terminator (c : ascii) : bool :=
  let n := nat_of_ascii c in (n =? 10)%nat || (n =? 13)%nat.

Fixpoint has_line_terminator (s : string) : bool :=
  match s with
  | EmptyString => false
  | String c r => is_line_terminator c || has_line_terminator r
  end.

(** [uid.replace(/[0-9\.-].*$/, "")]: the match starts at the first
    digit, dot or hyphen that is followed by no line terminator up to
    the end of the string. *)
Fixpoint text_prefix (uid : string) : string :=
  match uid with
  | EmptyString => EmptyString
  | String c r =>
      if is_locator_char c && negb (has_line_terminator r) then EmptyString
      else String c (text_prefix r)
  end.

Definition opt_string_eqb (a : option string) (b : string) : bool :=
  match a with Some s => String.eqb s b | None => false end.

(** Step 8: the first publication, in key order, of the selected author
    and of the collection of [uid]; a match under the empty key is
    dropped by [if (pubKey)]. *)
Definition find_publication (uid selectedAuthor : string) : option publication :=
  match find (fun kv => opt_string_eqb (pub_author_uid (snd kv)) selectedAuthor
                        && opt_string_eqb (pub_text_uid (snd kv)) (text_prefix uid))
             publicationMeta with
  | Some (k, p) => if Js.truthy_str k then Some p else None
  | None => None
  end.

Record bundle : Type := {
  uid : string;
  author_uid : option string;
  author_name : js_string;
  available_authors : list string;
  root_text : json;
  translation_text : json;
  html_text : json;
  comment_text : json;
  variant_text : json;
  reference_text : json;
  publication_data : option publication
}.

(** The response of [GET /api/suttas/:uid]: 404, 200 with the bundle, or
    the 500 Express answers when the handler throws. *)
Inductive response : Type :=
| NotFound
| Ok (b : bundle)
| InternalError.

Definition translation_path (author rel : string) : list string :=
  Path.join BILARA_BASE ["translation/en"; author; rel].

Definition comment_path (author rel : string) : list string :=
  Path.join BILARA_BASE
    ["comment/en"; author; Path.dirname rel;
     Str.replace "translation-" "comment-" (Path.basename rel)].

Definition root_path (rel : string) : list string :=
  Path.join BILARA_BASE ["root/pli/ms"; rel].

Definition html_path (rel : string) : list string :=
  Path.join BILARA_BASE
    ["html/pli/ms"; Path.dirname rel;
     Str.replace "_root-pli-ms.json" "_html.json" (Path.basename rel)].

Definition variant_path (rel : string) : list string :=
  Path.join BILARA_BASE
    ["variant/pli/ms"; Path.dirname rel;
     Str.replace "root-" "variant-" (Path.basename rel)].

Definition reference_path (rel : string) : list string :=
  Path.join BILARA_BASE
    ["reference/pli/ms"; Path.dirname rel;
     Str.replace "_root-pli-ms.json" "_reference.json" (Path.basename rel)].

(** [suttaEntry.root] when it is truthy. *)
Definition truthy_root (r : option string) : option string :=
  match r with
  | Some p => if Js.truthy_str p then Some p else None
  | None => None
  end.

(** The body of the handler once [suttaEntry] is known to be truthy.
    [e_root] and [e_translations] are [suttaEntry.root] and
    [suttaEntry.translations || {}].  The result lists the files handed
    to [readJson], in order, with the facet they are read for. *)
Definition assemble (u : string) (requestedAuthor : option string)
    (e_root : option string) (e_translations : Js.obj string)
  : list (facet * list string) * response :=
  let r := truthy_root e_root in
  let reads_root :=
    match r with Some p => [(FRoot, root_path p)] | None => [] end in
  let rootData :=
    match r with Some p => read_or_empty (root_path p) | None => empty_object end in
  let sel := select_author e_translations requestedAuthor in
  let selectedAuthor := option_map fst sel in
  (* steps 3 and 5 run when selectedAuthor && translationRelativePath *)
  let loaded : option (option (string * string)) :=
    match sel with
    | Some (a, Js.Own p) =>
        if Js.truthy_str a && Js.truthy_str p then Some (Some (a, p))
        else Some None
    | Some (a, Js.Inherited _) =>
        if Js.truthy_str a then None (* path.join throws a TypeError *)
        else Some None
    | Some (_, Js.Undefined) | None => Some None
    end in
  match loaded with
  | None => (reads_root, InternalError)
  | Some tr =>
      let reads :=
        reads_root
        ++ match tr with
           | Some (a, p) => [(FTranslation, translation_path a p)]
           | None => []
           end
        ++ match r with Some p => [(FHtml, html_path p)] | None => [] end
        ++ match tr with
           | Some (a, p) => [(FComment, comment_path a p)]
           | None => []
           end
        ++ match r with
           | Some p => [(FVariant, variant_path p); (FReference, reference_path p)]
           | None => []
           end in
      let of_root (f : string -> list string) :=
        match r with Some p => read_or_empty (f p) | None => empty_object end in
      let of_translation (f : string -> string -> list string) :=
        match tr with Some (a, p) => read_or_empty (f a p) | None => empty_object end in
      (reads,
       Ok {| uid := u;
             author_uid := selectedAuthor;
             author_name := getAuthorName selectedAuthor;
             available_authors := Js.keys e_translations;
             root_text := rootData;
             translation_text := of_translation translation_path;
             html_text := of_root html_path;
             comment_text := of_translation comment_path;
             variant_text := of_root variant_path;
             reference_text := of_root reference_path;
             publication_data :=
               match selectedAuthor with
               | Some a => if Js.truthy_str a then find_publication u a else None
               | None => None
               end |})
  end.

(** [GET /api/suttas/:uid?author=...].  An inherited member of the index
    object passes the test [!suttaEntry]; its [root] and [translations]
    are [undefined]. *)
Definition resolve (u : string) (requestedAuthor : option string)
  : list (facet * list string) * response :=
  match Js.get suttaIndex u with
  | Js.Undefined => ([], NotFound)
  | Js.Own e => assemble u requestedAuthor (root e) (translations e)
  | Js.Inherited _ => assemble u requestedAuthor None []
  end.

End Resolver.

End App.

(** ** [app.js]: the build trigger and its log ring *)

Module Admin.

(** The fields of the forked [ChildProcess] the server looks at. *)
Record child_process : Type := {
  killed : bool;
  exitCode : option nat
}.

(** The globals [buildLogs] and [buildProcess]. *)
Record state : Type := {
  buildLogs : list string;
  buildProcess : option child_process
}.

Definition initial : state := {| buildLogs := []; buildProcess := None |}.

(** [appendLog(msg)], [timestamp] being [new Date().toISOString()]. *)
Definition appendLog (timestamp msg : string) (logs : list string) : list string :=
  let logs' := logs ++ ["[" +++ timestamp +++ "] " +++ msg] in
  if (1000 <? length logs')%nat then tl logs' else logs'.

(** [triggerOfflineBuild()]; [script_exists] is
    [fs.existsSync(scriptPath)]. *)
Definition triggerOfflineBuild (script_exists : bool) (timestamp : string)
    (st : state) : state :=
  if script_exists then
    {| buildLogs := appendLog timestamp "Starting new build process..." [];
       buildProcess := Some {| killed := false; exitCode := None |} |}
  else st.

Inductive trigger_response : Type :=
| Accepted         (* 202 *)
| AlreadyRunning   (* 409 *)
| StartFailed.     (* 500 *)

(** [buildProcess && !buildProcess.killed && buildProcess.exitCode === null] *)
Definition active (st : state) : bool :=
  match buildProcess st with
  | Some p => negb (killed p) && match exitCode p with None => true | Some _ => false end
  | None => false
  end.

(** [POST /api/admin/build-offline] *)
Definition post_build_offline (script_exists : bool) (timestamp : string)
    (st : state) : trigger_response * state :=
  if active st then (AlreadyRunning, st)
  else
    let st' := triggerOfflineBuild script_exists timestamp st in
    match buildProcess st' with
    | None => (StartFailed, st')
    | Some _ => (Accepted, st')
    end.

(** The [data] listeners of the child's output: one log line per
    non-blank line, prefixed with [ERROR: ] for the error stream. *)
Definition on_line (is_stderr : bool) (timestamp line : string) (st : state) : state :=
  {| buildLogs :=
       appendLog timestamp (if is_stderr then "ERROR: " +++ line else line)
         (buildLogs st);
     buildProcess := buildProcess st |}.

(** The [exit] listener; [code_text] is the exit code as the template
    string prints it. *)
Definition on_exit (timestamp : string) (code : option nat) (code_text : string)
    (st : state) : state :=
  let l1 := appendLog timestamp
              ("🏁 Bootstrap build process exited with code " +++ code_text)
              (buildLogs st) in
  let l2 := match code with
            | Some 0 => appendLog timestamp
                          "✅ Initial build complete. Data is now available." l1
            | _ => l1
            end in
  {| buildLogs := l2; buildProcess := None |}.

(** [GET /api/admin/build-status] *)
Definition build_status (st : state) : bool * list string :=
  (match buildProcess st with Some _ => true | None => false end, buildLogs st).

(** What can happen to the server state. *)
Inductive step : state -> state -> Prop :=
| step_post : forall e t st,
    step st (snd (post_build_offline e t st))
| step_line : forall b t l st,
    buildProcess st <> None -> step st (on_line b t l st)
| step_exit : forall t c ct st,
    buildProcess st <> None -> step st (on_exit t c ct st).

Inductive reachable : state -> Prop :=
| reach_initial : reachable initial
| reach_step : forall st st', reachable st -> step st st' -> reachable st'.

End Admin.

(** ** The legacy backfill script ([scripts/fetch_legacy.js]) *)

Module FetchLegacy.

Import BuildIndex.

Record legacy_entry : Type := {
  author_uid : string;
  path : string
}.

Definition legacy_map : Type := Js.obj legacy_entry.

(** A node of a menu document. *)
#[local] Unset Elimination Schemes.
Inductive menu_node : Type :=
| MenuNode (node_type : string) (uid : string) (children : list menu_node).
#[local] Set Elimination Schemes.

(** [set.add(x)]: a [Set] keeps its elements in insertion order. *)
Definition set_add (s : list string) (x : string) : list string :=
  if existsb (String.eqb x) s then s else s ++ [x].

Fixpoint extractLeaves (leafNodes : list string) (n : menu_node) : list string :=
  match n with
  | MenuNode ty u cs =>
      fold_left extractLeaves cs
        (if String.eqb ty "leaf" then set_add leafNodes u else leafNodes)
  end.

(** A translation entry of a suttaplex answer. *)
Record translation : Type := {
  lang : string;
  t_author_uid : string
}.

(** The surroundings of one run. *)
Record world : Type := {
  (** [sutta_index.json], [None] when it does not exist *)
  index_file : option index;
  (** the directory listing of [MENUS_DIR] with, for each file, the nodes
      of its document (an array, or a single node), [None] when reading
      or parsing it throws *)
  menus : list (string * option (list menu_node));
  (** [fetchJson] of the suttaplex of an identifier, after
      [Array.isArray(d) ? d[0] : d]: the [translations] of the answer
      ([[]] when it has none), [None] when the answer is falsy or the
      fetch failed *)
  suttaplex : string -> option (list translation);
  (** [fetchJson] of a sutta by an author: [translation.text] of the
      answer, [None] when the fetch failed or a link of
      [suttaApiData.translation.text] is falsy *)
  sutta : string -> string -> option string
}.

Inductive event : Type :=
| FetchSuttaplex (uid : string)
| FetchSutta (uid author : string)
| WriteHtml (uid author : string) (file : list string) (content : string)
| WriteMap (m : legacy_map).

Section Script.

(** [__dirname] of the script. *)
Variable script_dir : list string.

Definition DATA_DIR : list string := Path.join script_dir ["../data"].
Definition LEGACY_DIR : list string :=
  Path.join DATA_DIR ["bilara-data-published/legacy"].

(** [s.replace(/\\/g, "/")] *)
Fixpoint slashes (s : string) : string :=
  match s with
  | EmptyString => EmptyString
  | String c r => String (if Ascii.eqb c "\" then "/"%char else c) (slashes r)
  end.

Definition target_file (u author : string) : list string :=
  Path.join (Path.join LEGACY_DIR ["en"; author]) [u +++ ".html"].

Definition legacy_path (u author : string) : string :=
  slashes (Path.relative (Path.join DATA_DIR ["bilara-data-published"])
             (target_file u author)).

(** The leaves of all menu documents, in [Set] order. *)
Definition allLeaves (w : world) : list string :=
  fold_left
    (fun leaves f =>
       match snd f with
       | Some nodes => fold_left extractLeaves nodes leaves
       | None => leaves
       end)
    (filter (fun f => Str.endsWith ".json" (fst f)) (menus w))
    [].

Definition missingLeaves (suttaIndex : index) (leaves : list string) : list string :=
  filter (missing suttaIndex) leaves.

(** The variables of the loop, and the effects performed so far. *)
Record loop_state : Type := {
  legacyMap : legacy_map;
  count : nat;
  trace : list event
}.

(** One iteration of [for (const uid of missingLeaves)]. *)
Definition process (w : world) (st : loop_state) (u : string) : loop_state :=
  if Js.truthy Js.truthy_obj (Js.get (legacyMap st) u) then st
  else
    let tr1 := trace st ++ [FetchSuttaplex u] in
    match suttaplex w u with
    | None => {| legacyMap := legacyMap st; count := count st; trace := tr1 |}
    | Some ts =>
        match filter (fun t => String.eqb (lang t) "en") ts with
        | [] => {| legacyMap := legacyMap st; count := count st; trace := tr1 |}
        | targetTrans :: _ =>
            let authorUid := t_author_uid targetTrans in
            let tr2 := tr1 ++ [FetchSutta u authorUid] in
            match sutta w u authorUid with
            | Some htmlContent =>
                if Js.truthy_str htmlContent then
                  let m := Js.set (legacyMap st) u
                             {| author_uid := authorUid;
                                path := legacy_path u authorUid |} in
                  let n := S (count st) in
                  {| legacyMap := m;
                     count := n;
                     trace :=
                       tr2 ++ [WriteHtml u authorUid (target_file u authorUid) htmlContent]
                           ++ (if (n mod 10 =? 0)%nat then [WriteMap m] else []) |}
                else {| legacyMap := legacyMap st; count := count st; trace := tr2 |}
            | None => {| legacyMap := legacyMap st; count := count st; trace := tr2 |}
            end
        end
    end.

Definition loop (w : world) (l : list string) (st : loop_state) : loop_state :=
  fold_left (process w) l st.

(** The state in which the loop starts; [legacy_file] is
    [legacy_sutta_map.json], [None] when it does not exist. *)
Definition start (legacy_file : option legacy_map) : loop_state :=
  {| legacyMap := match legacy_file with Some m => m | None => [] end;
     count := 0;
     trace := [] |}.

(** [run()]: the effects of a whole run, with the number of newly
    fetched documents.  Without an index the script returns at once. *)
Definition run (w : world) (legacy_file : option legacy_map) : list event * nat :=
  match index_file w with
  | None => ([], 0)
  | Some suttaIndex =>
      let st := loop w (missingLeaves suttaIndex (allLeaves w)) (start legacy_file) in
      (trace st ++ [WriteMap (legacyMap st)], count st)
  end.

(** The content of [legacy_sutta_map.json] after some effects. *)
Definition persisted (legacy_file : option legacy_map) (tr : list event)
  : option legacy_map :=
  fold_left
    (fun f e => match e with WriteMap m => Some m | _ => f end)
    tr legacy_file.

(** The identifiers added to the map by some effects, in order. *)
Definition added (tr : list event) : list string :=
  flat_map (fun e => match e with WriteHtml u _ _ _ => [u] | _ => [] end) tr.

(** The identifiers some effects fetched something for. *)
Definition fetched (tr : list event) : list string :=
  flat_map (fun e => match e with
                     | FetchSuttaplex u => [u]
                     | FetchSutta u _ => [u]
                     | _ => []
                     end) tr.

(** Successive runs, each in its own surroundings, each starting from
    the map file the one before it left. *)
Fixpoint runs (ws : list world) (legacy_file : option legacy_map)
  : list (list event) :=
  match ws with
  | [] => []
  | w :: r =>
      let tr := fst (run w legacy_file) in
      tr :: runs r (persisted legacy_file tr)
  end.

End Script.

End FetchLegacy.

(** ** [scripts/build_pipeline.js] *)

Module Pipeline.

(** The directories the pipeline works in. *)
Inductive dir : Type :=
| ServerDir        (* SERVER_DIR *)
| BilaraDataDir    (* BILARA_DATA_DIR *)
| DataParentDir    (* path.dirname(BILARA_DATA_DIR) *)
| PublicDir.       (* PUBLIC_DIR *)

(** [execSync]: the output of the command, or an exception. *)
Inductive cmd_result : Type :=
| CmdOk (output : string)
| CmdFailed.

(** [versionInfo] *)
Record version_info : Type := {
  commit : string;
  date : string;
  updated_at : string
}.

(** The surroundings of one run.  Every command is run at most once, so
    its result is a function of the command. *)
Record env : Type := {
  public_dir_exists : bool;
  git_dir_exists : bool;         (* BILARA_DATA_DIR/.git *)
  parent_dir_exists : bool;
  mkdir_fails : dir -> bool;
  exec : string -> cmd_result;
  index_exists : bool;           (* data/generated/sutta_index.json *)
  now_commit : string;           (* new Date().toISOString(), step 2 *)
  now_version : string;          (* new Date().toISOString(), versionInfo *)
  bundle : option string;        (* generateBundle(): the zip path, or a rejection *)
  version_write_fails : bool
}.

Inductive event : Type :=
| Mkdir (d : dir)
| Exec (command : string) (cwd : dir)
| Bundle (result : option string)
| WriteVersion (v : version_info).

(** How a piece of the script ends: normally, with an exception, or in
    [process.exit(code)]. *)
Inductive outcome (A : Type) : Type :=
| Return (a : A)
| Throw
| Exit (code : nat).
Arguments Throw {A}.
Arguments Exit {A} code.

(** A computation: the effects performed and how it ended. *)
Definition M (A : Type) : Type := list event * outcome A.

Definition ret {A} (a : A) : M A := ([], Return a).
Definition throw {A} : M A := ([], Throw).
Definition exit {A} (code : nat) : M A := ([], Exit code).
Definition emit (e : event) : M unit := ([e], Return tt).

Definition bind {A B} (m : M A) (k : A -> M B) : M B :=
  match m with
  | (tr, Return a) => let (tr', o) := k a in (tr ++ tr', o)
  | (tr, Throw) => (tr, Throw)
  | (tr, Exit c) => (tr, Exit c)
  end.

(** [try { m } catch (err) { handler }]: [process.exit] is not caught. *)
Definition try_catch {A} (m : M A) (handler : M A) : M A :=
  match m with
  | (tr, Throw) => let (tr', o) := handler in (tr ++ tr', o)
  | _ => m
  end.

Notation "x <- m ;; k" := (bind m (fun x => k))
  (at level 61, m at next level, right associativity).
Notation "m ;; k" := (bind m (fun _ => k))
  (at level 61, right associativity).

Section Run.

Variable e : env.

(** [runCommand(command, cwd)]: the trimmed output, or the exception
    rethrown. *)
Definition runCommand (command : string) (cwd : dir) : M string :=
  emit (Exec command cwd) ;;
  match exec e command with
  | CmdOk output => ret output
  | CmdFailed => throw
  end.

(** [fs.mkdirSync(d, { recursive: true })] *)
Definition mkdir (d : dir) : M unit :=
  if mkdir_fails e d then throw else emit (Mkdir d).

Definition CLONE : string :=
  "git clone --branch published --depth 1 https://github.com/suttacentral/bilara-data.git bilara-data-published".
Definition PULL : string := "git pull origin published".

(** Step 1 *)
Definition sync : M unit :=
  if negb (git_dir_exists e) then
    (if parent_dir_exists e then ret tt else mkdir DataParentDir) ;;
    runCommand CLONE DataParentDir ;;
    ret tt
  else
    try_catch
      (pullOutput <- runCommand PULL BilaraDataDir ;;
       if Str.includes "Already up to date." pullOutput then
         if index_exists e then exit 0 else ret tt
       else ret tt)
      (ret tt).

(** Step 2: [commitHash] and [commitDateRaw] keep their defaults from
    the point where a command fails. *)
Definition commit_info : M version_info :=
  hd <-
    try_catch
      (commitHash <- runCommand "git rev-parse HEAD" BilaraDataDir ;;
       try_catch
         (commitDateRaw <- runCommand "git show -s --format=%cI HEAD" BilaraDataDir ;;
          ret (commitHash, commitDateRaw))
         (ret (commitHash, now_commit e)))
      (ret ("unknown", now_commit e)) ;;
  ret {| commit := fst hd; date := snd hd; updated_at := now_version e |}.

(** Steps 3 to 6 *)
Definition stages : M unit :=
  runCommand "node scripts/master_fetch.js" ServerDir ;;
  runCommand "node scripts/cleanup_bilara.js" ServerDir ;;
  runCommand "node scripts/build_index.js" ServerDir ;;
  runCommand "node scripts/fetch_legacy.js" ServerDir ;;
  ret tt.

(** [await generateBundle()] *)
Definition generateBundle : M string :=
  emit (Bundle (bundle e)) ;;
  match bundle e with
  | Some zip => ret zip
  | None => throw
  end.

(** [fs.writeFileSync(VERSION_FILE, ...)] *)
Definition write_version (v : version_info) : M unit :=
  if version_write_fails e then throw else emit (WriteVersion v).

(** Steps 7 and 8 *)
Definition bundle_and_stamp (v : version_info) : M unit :=
  try_catch
    (generateBundle ;; write_version v)
    (exit 1).

Definition buildPipeline : M unit :=
  (if public_dir_exists e then ret tt else mkdir PublicDir) ;;
  sync ;;
  versionInfo <- commit_info ;;
  stages ;;
  bundle_and_stamp versionInfo.

(** [buildPipeline().catch(... process.exit(1))]: the effects of the run
    and the exit code of the process. *)
Definition main : list event * nat :=
  match buildPipeline with
  | (tr, Return _) => (tr, 0)
  | (tr, Throw) => (tr, 1)
  | (tr, Exit c) => (tr, c)
  end.

End Run.

End Pipeline.

(** ** The build state of the server, with the bootstrap timer
    ([app.js], startup, [triggerOfflineBuild] and the admin routes) *)

Module Server.

Import Admin.

(** The value of the global [buildProcess].  The bootstrap timer assigns it
    the result of [triggerOfflineBuild()], which is [undefined] when the
    build script is missing. *)
Inductive process : Type :=
| Null
| Undefined
| Child (p : child_process).

(** The globals, the number of forked children that have not exited yet,
    and whether the bootstrap timer is still to fire. *)
Record state : Type := {
  buildLogs : list string;
  buildProcess : process;
  children : nat;
  timer : bool
}.

(** The state once the module is loaded: the timer is set when the index
    file does not exist. *)
Definition start (index_exists : bool) : state :=
  {| buildLogs := []; buildProcess := Null; children := 0;
     timer := negb index_exists |}.

(** [triggerOfflineBuild()]: the state it leaves and the value it
    returns. *)
Definition triggerOfflineBuild (script_exists : bool) (timestamp : string)
    (st : state) : state * process :=
  if script_exists then
    let p := Child {| killed := false; exitCode := None |} in
    ({| buildLogs := appendLog timestamp "Starting new build process..." [];
        buildProcess := p;
        children := S (children st);
        timer := timer st |}, p)
  else (st, Undefined).

(** [buildProcess && !buildProcess.killed && buildProcess.exitCode === null] *)
Definition active (st : state) : bool :=
  match buildProcess st with
  | Child p => negb (killed p) && match exitCode p with None => true | Some _ => false end
  | Null | Undefined => false
  end.

(** [POST /api/admin/build-offline] *)
Definition post_build_offline (script_exists : bool) (timestamp : string)
    (st : state) : trigger_response * state :=
  if active st then (AlreadyRunning, st)
  else
    let st' := fst (triggerOfflineBuild script_exists timestamp st) in
    match buildProcess st' with
    | Null | Undefined => (StartFailed, st')
    | Child _ => (Accepted, st')
    end.

(** The callback of the bootstrap timer:
    [buildProcess = triggerOfflineBuild()]. *)
Definition bootstrap (script_exists : bool) (timestamp : string) (st : state)
  : state :=
  let (st', p) := triggerOfflineBuild script_exists timestamp st in
  {| buildLogs := buildLogs st'; buildProcess := p; children := children st';
     timer := false |}.

(** The [data] listeners, for one non-blank line of a chunk. *)
Definition on_line (is_stderr : bool) (timestamp line : string) (st : state) : state :=
  {| buildLogs :=
       appendLog timestamp (if is_stderr then "ERROR: " +++ line else line)
         (buildLogs st);
     buildProcess := buildProcess st;
     children := children st;
     timer := timer st |}.

(** The [exit] listener of a child. *)
Definition on_exit (timestamp : string) (code : option nat) (code_text : string)
    (st : state) : state :=
  let l1 := appendLog timestamp
              ("🏁 Bootstrap build process exited with code " +++ code_text)
              (buildLogs st) in
  let l2 := match code with
            | Some 0 => appendLog timestamp
                          "✅ Initial build complete. Data is now available." l1
            | _ => l1
            end in
  {| buildLogs := l2; buildProcess := Null; children := pred (children st);
     timer := timer st |}.

(** [GET /api/admin/build-status]: [isRunning] is
    [buildProcess !== null]. *)
Definition build_status (st : state) : bool * list string :=
  (match buildProcess st with Null => false | Undefined | Child _ => true end,
   buildLogs st).

(** What can happen to the server: the timer fires, a trigger is posted, a
    line of output arrives, a child exits. *)
Inductive step : state -> state -> Prop :=
| step_bootstrap : forall e t st,
    timer st = true -> step st (bootstrap e t st)
| step_post : forall e t st,
    step st (snd (post_build_offline e t st))
| step_line : forall b t l st,
    step st (on_line b t l st)
| step_exit : forall t c ct st,
    (0 < children st)%nat -> step st (on_exit t c ct st).

Inductive reachable (index_exists : bool) : state -> Prop :=
| reach_start : reachable index_exists (start index_exists)
| reach_step : forall st st',
    reachable index_exists st -> step st st' -> reachable index_exists st'.

End Server.

(** ** [scripts/generate_data_bundle.js] *)

Module Bundle.

Import BuildIndex.

(** The names [addDirectoryToZip] skips, files and directories alike, at
    every depth. *)
Definition SKIPPED : list string := [".git"; "node_modules"; "generated"; "menus"].

Definition skipped (file : string) : bool := existsb (String.eqb file) SKIPPED.

(** [addDirectoryToZip(zip, dirPath, rootPath)]: the files handed to
    [zip.file], in order, each by the segments of its path below
    [rootPath]. *)
Fixpoint add_node (n : node) : list (list string) :=
  match n with
  | File f => if skipped f then [] else [[f]]
  | Dir d cs => if skipped d then [] else map (cons d) (flat_map add_node cs)
  end.

Definition addDirectoryToZip (children : list node) : list (list string) :=
  flat_map add_node children.

(** [s.replace(/\\/g, "/")] *)
Fixpoint slashes (s : string) : string :=
  match s with
  | EmptyString => EmptyString
  | String c r => String (if Ascii.eqb c "\" then "/"%char else c) (slashes r)
  end.

(** The name of a zip entry:
    [path.relative(rootPath, filePath).replace(/\\/g, "/")]. *)
Definition entry_name (segs : list string) : string :=
  slashes (relative_path segs).

(** [generateBundle()] up to the compression: the names of the entries of
    the archive, or [None] for the exception thrown when [DATA_DIR] does not
    exist ([data_dir] is [None]). *)
Definition generateBundle (data_dir : option (list node)) : option (list string) :=
  match data_dir with
  | None => None
  | Some children => Some (map entry_name (addDirectoryToZip children))
  end.

End Bundle.

(** ** The menu and suttaplex routes of [app.js] *)

Module Routes.

Import BuildIndex App.

(** The response of a menu route: 200 with the document, 404, or 500. *)
Inductive menu_response (J : Type) : Type :=
| MenuOk (j : J)
| MenuNotFound
| MenuError.
Arguments MenuNotFound {J}.
Arguments MenuError {J}.

Section Menus.

Variable json : Type.
Variable json_truthy : json -> bool.
Variable server_dir : list string.
Variable disk : list string -> file_state json.

Definition MENUS_BASE : list string := Path.join server_dir ["data/menus"].

Definition root_menu_path : list string := Path.join MENUS_BASE ["root.json"].

(** [GET /api/menu] *)
Definition get_menu : menu_response json :=
  match readJson disk root_menu_path with
  | Some rootMenu => if json_truthy rootMenu then MenuOk rootMenu else MenuError
  | None => MenuError
  end.

Definition menu_path (uid : string) : list string :=
  Path.join MENUS_BASE [uid +++ ".json"].

(** [GET /api/menu/:uid]; [uid] is the decoded route parameter. *)
Definition get_menu_uid (uid : string) : menu_response json :=
  match disk (menu_path uid) with
  | Missing => MenuNotFound
  | Unparsable | Parsed _ =>
      match readJson disk (menu_path uid) with
      | Some menuData => if json_truthy menuData then MenuOk menuData else MenuError
      | None => MenuError
      end
  end.

End Menus.

(** An element of the [translations] array of a suttaplex; [lang_name] is
    present on the root element only. *)
Record translation_item : Type := {
  lang : string;
  lang_name : option string;
  is_root : bool;
  item_author_uid : string;
  item_author_name : js_string;
  id : string;
  segmented : bool
}.

Definition is_lower (c : ascii) : bool :=
  let n := nat_of_ascii c in (97 <=? n)%nat && (n <=? 122)%nat.

(** The longest run of [a-z] at the head of a string, and what follows
    it. *)
Fixpoint lower_run (s : string) : string * string :=
  match s with
  | EmptyString => (EmptyString, EmptyString)
  | String c r =>
      if is_lower c then let (run, rest) := lower_run r in (String c run, rest)
      else (EmptyString, s)
  end.

(** [([a-z]+)-] at the head of a string: the quantifier is greedy, and
    giving back a letter cannot help, as a letter is no hyphen. *)
Definition lang_here (s : string) : option string :=
  let (run, rest) := lower_run s in
  if negb (String.eqb run "") && Str.startsWith "-" rest then Some run else None.

(** [filename.match(/translation-([a-z]+)-/)]: the first group of the
    leftmost match, [None] when there is no match. *)
Fixpoint match_lang (s : string) : option string :=
  match (if Str.startsWith "translation-" s
         then lang_here (Str.drop 12 s) else None) with
  | Some l => Some l
  | None =>
      match s with
      | EmptyString => None
      | String _ r => match_lang r
      end
  end.

(** The response of [GET /api/suttaplex/:uid]: 404, 200 with the uid and
    the translations (the blurb is a constant), or the 500 Express answers
    when the handler throws. *)
Inductive suttaplex_response : Type :=
| SuttaplexNotFound
| SuttaplexOk (uid : string) (translations : list translation_item)
| SuttaplexError.

Section Suttaplex.

Variable suttaIndex : index.
Variable authorMeta : Js.obj author_meta.

Definition root_item (uid : string) : translation_item :=
  {| lang := "pli";
     lang_name := Some "Pali";
     is_root := true;
     item_author_uid := "ms";
     item_author_name := getAuthorName authorMeta (Some "ms");
     id := uid +++ "_root-pli-ms";
     segmented := true |}.

(** The body of [Object.keys(suttaEntry.translations).forEach]; [None]
    is the [TypeError] of [path.basename] on a value that is no string. *)
Definition translation_item_of (t : Js.obj string) (authorUid : string)
  : option translation_item :=
  match Js.get t authorUid with
  | Js.Own relativePath =>
      let filename := Path.basename relativePath in
      Some {| lang := match match_lang filename with Some l => l | None => "en" end;
              lang_name := None;
              is_root := false;
              item_author_uid := authorUid;
              item_author_name := getAuthorName authorMeta (Some authorUid);
              id := Str.replace ".json" "" filename;
              segmented := true |}
  | Js.Inherited _ | Js.Undefined => None
  end.

Fixpoint translation_items (t : Js.obj string) (authors : list string)
  : option (list translation_item) :=
  match authors with
  | [] => Some []
  | a :: r =>
      match translation_item_of t a with
      | Some i =>
          match translation_items t r with
          | Some l => Some (i :: l)
          | None => None
          end
      | None => None
      end
  end.

(** [GET /api/suttaplex/:uid].  The [root] and [translations] of an
    inherited member are [undefined]. *)
Definition get_suttaplex (uid : string) : suttaplex_response :=
  match Js.get suttaIndex uid with
  | Js.Undefined => SuttaplexNotFound
  | Js.Inherited _ => SuttaplexOk uid []
  | Js.Own suttaEntry =>
      let roots :=
        match truthy_root (root suttaEntry) with
        | Some _ => [root_item uid]
        | None => []
        end in
      match translation_items (translations suttaEntry)
              (Js.keys (translations suttaEntry)) with
      | Some l => SuttaplexOk uid (roots ++ l)
      | None => SuttaplexError
      end
  end.

End Suttaplex.

End Routes.

(** * Notions used in the statements *)

(** ** The index builder *)

Section IndexNotions.

Import BuildIndex.

(** The entry a root file creates. *)
Definition root_entry (segs : list string) : entry :=
  {| root := Some (relative_path segs); translations := [] |}.

(** The first file of a walk that is a root file of [uid]. *)
Definition first_root (files : list (list string)) (uid : string)
  : option (list string) :=
  find (fun segs => is_root_file segs && String.eqb uid (root_uid segs)) files.

(** The files met by the walk over the translation tree, each with the
    author directory it was found under, in walk order. *)
Definition author_files (n : node) : list (string * list string) :=
  match n with
  | File _ => []
  | Dir author cs => map (pair author) (walkSync cs)
  end.

Definition translation_files (c : corpus) : list (string * list string) :=
  match translation_dir c with
  | Some authors => flat_map author_files authors
  | None => []
  end.

Definition root_files (c : corpus) : list (list string) :=
  match root_dir c with
  | Some cs => walkSync cs
  | None => []
  end.

Definition index_candidate (idx : index) (af : string * list string)
  : option index :=
  index_translation (fst af) idx (snd af).

(** The translation files of an identifier. *)
Definition is_translation_of (uid : string) (af : string * list string) : bool :=
  is_translation_file (snd af) && String.eqb uid (translation_uid (snd af)).

Definition add_translation (t : Js.obj string) (af : string * list string)
  : Js.obj string :=
  Js.set_prim t (fst af) (relative_path (snd af)).

(** The entry of an identifier once the files [mine] have been added to
    it; the entry is created, without a root, if there was none. *)
Definition with_translations (e0 : option entry) (mine : list (string * list string))
  : option entry :=
  match mine with
  | [] => e0
  | _ =>
      let e := match e0 with
               | Some e => e
               | None => {| root := None; translations := [] |}
               end in
      Some {| root := root e;
              translations := fold_left add_translation mine (translations e) |}
  end.

(** A tree all of whose names are names [readdirSync] can return. *)
Fixpoint node_ok (n : node) : bool :=
  match n with
  | File f => Path.name_ok f
  | Dir d cs => Path.name_ok d && forallb node_ok cs
  end.

Definition corpus_ok (c : corpus) : bool :=
  match translation_dir c with
  | Some authors => forallb node_ok authors
  | None => true
  end.

Definition clean_path (segs : list string) : Prop :=
  segs <> [] /\ Forall (fun s => Path.name_ok s = true) segs.

End IndexNotions.

(** The claim of the specification on duplicate root files, as it is
    written: of the files of the walk that map to one identifier, the last
    one gives the entry its root path. *)
Definition last_root_file_wins : Prop :=
  forall c cs idx pre f post,
    BuildIndex.root_dir c = Some cs ->
    BuildIndex.walkSync cs = pre ++ f :: post ->
    BuildIndex.is_root_file f = true ->
    (forall g, In g post -> BuildIndex.is_root_file g = true ->
               BuildIndex.root_uid g <> BuildIndex.root_uid f) ->
    BuildIndex.buildIndex c = Some idx ->
    exists e, Js.own idx (BuildIndex.root_uid f) = Some e /\
              BuildIndex.root e = Some (BuildIndex.relative_path f).

(** Two root files of [dn1], in two collections. *)
Definition duplicate_roots : BuildIndex.corpus :=
  {| BuildIndex.root_dir :=
       Some [BuildIndex.Dir "sutta" [BuildIndex.File "dn1_root-pli-ms.json"];
             BuildIndex.Dir "vinaya" [BuildIndex.File "dn1_root-pli-ms.json"]];
     BuildIndex.translation_dir := Some [] |}.

(** The corpus and the index of the end-to-end scenario of the
    specification. *)
Definition dn1_corpus : BuildIndex.corpus :=
  {| BuildIndex.root_dir :=
       Some [BuildIndex.Dir "sutta"
               [BuildIndex.Dir "dn" [BuildIndex.File "dn1_root-pli-ms.json"]]];
     BuildIndex.translation_dir :=
       Some [BuildIndex.Dir "sujato"
               [BuildIndex.Dir "sutta"
                  [BuildIndex.Dir "dn"
                     [BuildIndex.File "dn1_translation-en-sujato.json"]]]] |}.

Definition dn1_entry : BuildIndex.entry :=
  {| BuildIndex.root := Some "sutta/dn/dn1_root-pli-ms.json";
     BuildIndex.translations :=
       [("sujato", "sutta/dn/dn1_translation-en-sujato.json")] |}.

Definition dn1_index : BuildIndex.index := [("dn1", dn1_entry)].

(** A corpus with a translation that has no root. *)
Definition rootless_corpus : BuildIndex.corpus :=
  {| BuildIndex.root_dir := Some [];
     BuildIndex.translation_dir :=
       Some [BuildIndex.Dir "sujato"
               [BuildIndex.Dir "kn"
                  [BuildIndex.File "thag1.1_translation-en-sujato.json"]]] |}.

(** A corpus with a root file whose identifier is [constructor]. *)
Definition constructor_corpus : BuildIndex.corpus :=
  {| BuildIndex.root_dir :=
       Some [BuildIndex.Dir "sutta" [BuildIndex.File "constructor_root-pli-ms.json"]];
     BuildIndex.translation_dir := Some [] |}.

(** A corpus with an author directory called [__proto__]. *)
Definition proto_author_corpus : BuildIndex.corpus :=
  {| BuildIndex.root_dir := Some [];
     BuildIndex.translation_dir :=
       Some [BuildIndex.Dir "__proto__"
               [BuildIndex.File "dn1_translation-en-__proto__.json"]] |}.

(** A corpus with a translation file whose identifier is [constructor]. *)
Definition constructor_translation_corpus : BuildIndex.corpus :=
  {| BuildIndex.root_dir := Some [];
     BuildIndex.translation_dir :=
       Some [BuildIndex.Dir "sujato"
               [BuildIndex.File "constructor_translation-en-sujato.json"]] |}.

(** ** The resolver *)

(** Segments that survive normalisation. *)
Definition kept (s : string) : bool :=
  negb (String.eqb s "" || String.eqb s ".").

(** The author policy in the words of the specification: the requested
    author if it is among the authors of the entry, else [sujato], else
    [brahmali], else the first author; nobody when there is no author. *)
Definition author_policy (authors : list string) (requested : option string)
  : option string :=
  let among a := existsb (String.eqb a) authors in
  match authors with
  | [] => None
  | first :: _ =>
      let fallback :=
        if among "sujato" then "sujato"
        else if among "brahmali" then "brahmali"
        else first in
      Some match requested with
           | Some r => if among r then r else fallback
           | None => fallback
           end
  end.

(** ** The pipeline *)

Section PipelineNotions.

Import Pipeline.

(** Effects that belong to the stages before bundling. *)
Definition early (ev : event) : Prop :=
  match ev with
  | Mkdir _ | Exec _ _ => True
  | Bundle _ | WriteVersion _ => False
  end.

(** A computation all of whose effects are early. *)
Definition quiet {A} (m : M A) : Prop := Forall early (fst m).

End PipelineNotions.

Definition up_to_date_env : Pipeline.env :=
  {| Pipeline.public_dir_exists := true;
     Pipeline.git_dir_exists := true;
     Pipeline.parent_dir_exists := true;
     Pipeline.mkdir_fails := fun _ => false;
     Pipeline.exec := fun c =>
       if String.eqb c Pipeline.PULL
       then Pipeline.CmdOk "From github.com:suttacentral/bilara-data
Already up to date."
       else Pipeline.CmdOk "";
     Pipeline.index_exists := true;
     Pipeline.now_commit := "2026-01-01T00:00:00.000Z";
     Pipeline.now_version := "2026-01-01T00:00:01.000Z";
     Pipeline.bundle := Some "pwa/public/data.zip";
     Pipeline.version_write_fails := false |}.

(** ** The legacy backfill *)

Section BackfillNotions.

Import FetchLegacy.

(** What holds between two iterations of the loop. *)
Record flush_inv (legacy_file : option legacy_map) (st : loop_state) : Prop := {
  inv_count : length (added (trace st)) = count st;
  inv_nodup : NoDup (added (trace st));
  inv_mono : forall k x,
    Js.own (legacyMap (start legacy_file)) k = Some x ->
    Js.own (legacyMap st) k = Some x;
  inv_new : forall u,
    In u (added (trace st)) -> Js.own (legacyMap (start legacy_file)) u = None;
  inv_in_map : forall u,
    In u (added (trace st)) -> Js.own (legacyMap st) u <> None;
  inv_sync :
    0 < count st -> count st mod 10 = 0 ->
    persisted legacy_file (trace st) = Some (legacyMap st);
  inv_disk :
    10 <= count st ->
    exists m, persisted legacy_file (trace st) = Some m /\
              forall u, In u (firstn (10 * (count st / 10)) (added (trace st))) ->
                        Js.own m u <> None
}.

End BackfillNotions.

(** A run that finds twelve leaves missing from the index and gets a text
    for each of them. *)
Definition twelve_leaves : FetchLegacy.world :=
  {| FetchLegacy.index_file := Some [];
     FetchLegacy.menus :=
       [("kn.json",
         Some [FetchLegacy.MenuNode "branch" "kn"
                 (map (fun u => FetchLegacy.MenuNode "leaf" u [])
                    ["kn1"; "kn2"; "kn3"; "kn4"; "kn5"; "kn6";
                     "kn7"; "kn8"; "kn9"; "kn10"; "kn11"; "kn12"])])];
     FetchLegacy.suttaplex := fun _ =>
       Some [ {| FetchLegacy.lang := "de"; FetchLegacy.t_author_uid := "sabbamitta" |};
              {| FetchLegacy.lang := "en"; FetchLegacy.t_author_uid := "bodhi" |} ];
     FetchLegacy.sutta := fun _ _ => Some "<article>...</article>" |}.

(** ** The data bundle *)


(** ** The index builder, continued *)

(** Two translation files of [dn1] under one author. *)
Definition duplicate_translations : BuildIndex.corpus :=
  {| BuildIndex.root_dir := None;
     BuildIndex.translation_dir :=
       Some [BuildIndex.Dir "sujato"
               [BuildIndex.Dir "sutta" [BuildIndex.File "dn1_translation-en-sujato.json"];
                BuildIndex.Dir "draft" [BuildIndex.File "dn1_translation-en-sujato.json"]]] |}.

(** ** The pipeline, continued *)

Section PipelineOutcome.

Import Pipeline.

Variable e : env.

Definition ok (r : cmd_result) : bool :=
  match r with CmdOk _ => true | CmdFailed => false end.

(** The public directory is there or can be created. *)
Definition prepared : bool :=
  public_dir_exists e || negb (mkdir_fails e PublicDir).

(** The pull reports nothing new and the index exists. *)
Definition up_to_date : bool :=
  git_dir_exists e
  && match exec e PULL with
     | CmdOk pullOutput => Str.includes "Already up to date." pullOutput
     | CmdFailed => false
     end
  && index_exists e.

(** There is a checkout, or the clone succeeds. *)
Definition synced : bool :=
  git_dir_exists e
  || ((parent_dir_exists e || negb (mkdir_fails e DataParentDir))
      && ok (exec e CLONE)).

Definition STAGES : list string :=
  ["node scripts/master_fetch.js"; "node scripts/cleanup_bilara.js";
   "node scripts/build_index.js"; "node scripts/fetch_legacy.js"].

Definition staged : bool := forallb (fun c => ok (exec e c)) STAGES.

Definition stamped : bool :=
  match bundle e with
  | Some _ => negb (version_write_fails e)
  | None => false
  end.

Definition succeeds : bool :=
  prepared && (up_to_date || (synced && staged && stamped)).

(** The version information of a run that gets as far as writing it. *)
Definition expected_version : version_info :=
  {| commit := match exec e "git rev-parse HEAD" with
               | CmdOk commitHash => commitHash
               | CmdFailed => "unknown"
               end;
     date := match exec e "git rev-parse HEAD",
                   exec e "git show -s --format=%cI HEAD" with
             | CmdOk _, CmdOk commitDateRaw => commitDateRaw
             | _, _ => now_commit e
             end;
     updated_at := now_version e |}.

End PipelineOutcome.

(** A first run: no checkout yet, every command succeeds. *)
Definition fresh_clone_env : Pipeline.env :=
  {| Pipeline.public_dir_exists := false;
     Pipeline.git_dir_exists := false;
     Pipeline.parent_dir_exists := true;
     Pipeline.mkdir_fails := fun _ => false;
     Pipeline.exec := fun c =>
       if String.eqb c "git rev-parse HEAD"
       then Pipeline.CmdOk "0a1b2c3"
       else if String.eqb c "git show -s --format=%cI HEAD"
       then Pipeline.CmdOk "2025-12-31T10:00:00+00:00"
       else Pipeline.CmdOk "";
     Pipeline.index_exists := false;
     Pipeline.now_commit := "2026-01-01T00:00:00.000Z";
     Pipeline.now_version := "2026-01-01T00:00:01.000Z";
     Pipeline.bundle := Some "pwa/public/data.zip";
     Pipeline.version_write_fails := false |}.

(** ** The resolver, continued *)



(** ** The legacy backfill, continued *)

(** What the remote service answers for a document the backfill stores:
    the suttaplex of [u] lists an English translation, the first of them
    is by [a], and the service has a non-empty text of [u] by [a]. *)
Definition legacy_source (w : FetchLegacy.world) (u a content : string) : Prop :=
  exists ts t rest,
    FetchLegacy.suttaplex w u = Some ts /\
    filter (fun t => String.eqb (FetchLegacy.lang t) "en") ts = t :: rest /\
    FetchLegacy.t_author_uid t = a /\
    FetchLegacy.sutta w u a = Some content /\
    Js.truthy_str content = true.

(** The leaves of a menu node, at any depth. *)
Fixpoint leaf_uids (n : FetchLegacy.menu_node) : list string :=
  match n with
  | FetchLegacy.MenuNode ty u cs =>
      (if String.eqb ty "leaf" then [u] else []) ++ flat_map leaf_uids cs
  end.

(** A world with two menu documents, one of which does not parse, and a
    leaf below a leaf. *)
Definition nested_leaves : FetchLegacy.world :=
  {| FetchLegacy.index_file := Some [];
     FetchLegacy.menus :=
       [("kn.json",
         Some [FetchLegacy.MenuNode "branch" "kn"
                 [FetchLegacy.MenuNode "leaf" "kp"
                    [FetchLegacy.MenuNode "leaf" "kp1" []];
                  FetchLegacy.MenuNode "leaf" "kp" []]]);
        ("broken.json", None);
        ("notes.txt", Some [FetchLegacy.MenuNode "leaf" "zz" []])];
     FetchLegacy.suttaplex := fun _ =>
       Some [ {| FetchLegacy.lang := "en"; FetchLegacy.t_author_uid := "bodhi" |} ];
     FetchLegacy.sutta := fun _ _ => Some "<article>...</article>" |}.

(** * Properties *)

(** ** Objects *)

Section ObjFacts.

Context {A : Type}.
Implicit Types (o : Js.obj A) (k : string) (v : A).

Lemma own_app : forall o o' k,
  Js.own (o ++ o') k =
  match Js.own o k with Some x => Some x | None => Js.own o' k end.
Proof.
  induction o as [|[k' v'] r IH]; intros o' k; simpl; [reflexivity|].
  destruct (String.eqb k k'); [reflexivity | apply IH].
Qed.

Lemma own_replace_own : forall o k v k',
  Js.own (Js.replace_own k v o) k' =
  if String.eqb k' k
  then match Js.own o k with Some _ => Some v | None => None end
  else Js.own o k'.
Proof.
  induction o as [|[k0 v0] r IH]; intros k v k'; simpl.
  - destruct (String.eqb k' k); reflexivity.
  - destruct (String.eqb k k0) eqn:E0; simpl.
    + apply String.eqb_eq in E0; subst k0.
      destruct (String.eqb k' k); reflexivity.
    + rewrite IH.
      destruct (String.eqb k' k) eqn:E1; [|reflexivity].
      apply String.eqb_eq in E1; subst k'. rewrite E0. reflexivity.
Qed.

Lemma own_insert_index : forall n o k v k',
  Js.array_index k = Some n ->
  Js.own (Js.insert_index n k v o) k' =
  if String.eqb k' k then Some v else Js.own o k'.
Proof.
  intros n; induction o as [|[k0 v0] r IH]; intros k v k' Hk; simpl.
  - reflexivity.
  - destruct (Js.array_index k0) as [m|] eqn:Em.
    + destruct (m <? n)%N eqn:Hlt; simpl.
      * rewrite IH by assumption.
        destruct (String.eqb k' k0) eqn:E0; [|reflexivity].
        destruct (String.eqb k' k) eqn:E1; [|reflexivity].
        apply String.eqb_eq in E0; apply String.eqb_eq in E1; subst.
        rewrite Hk in Em. injection Em as ->.
        rewrite N.ltb_irrefl in Hlt. discriminate.
      * simpl. destruct (String.eqb k' k); reflexivity.
    + simpl. destruct (String.eqb k' k); reflexivity.
Qed.

(** Reading after writing. *)
Lemma own_set : forall o k v k',
  Js.own (Js.set o k v) k' = if String.eqb k' k then Some v else Js.own o k'.
Proof.
  intros o k v k'. unfold Js.set.
  destruct (Js.own o k) as [x|] eqn:Ho.
  - rewrite own_replace_own, Ho. reflexivity.
  - destruct (Js.array_index k) as [n|] eqn:Ek.
    + apply own_insert_index; assumption.
    + rewrite own_app. simpl.
      destruct (String.eqb k' k) eqn:E.
      * apply String.eqb_eq in E; subst. rewrite Ho. reflexivity.
      * destruct (Js.own o k'); reflexivity.
Qed.

Lemma own_set_same : forall o k v, Js.own (Js.set o k v) k = Some v.
Proof. intros. rewrite own_set, String.eqb_refl. reflexivity. Qed.

Lemma own_set_other : forall o k v k',
  k' <> k -> Js.own (Js.set o k v) k' = Js.own o k'.
Proof.
  intros o k v k' H. rewrite own_set.
  apply String.eqb_neq in H. rewrite H. reflexivity.
Qed.

Lemma own_set_prim : forall o k v k',
  Js.own (Js.set_prim o k v) k' =
  if String.eqb k "__proto__" then Js.own o k'
  else if String.eqb k' k then Some v else Js.own o k'.
Proof.
  intros. unfold Js.set_prim.
  destruct (String.eqb k "__proto__"); [reflexivity | apply own_set].
Qed.

(** An own property is found among the keys, and conversely. *)
Lemma own_keys : forall o k, In k (Js.keys o) <-> Js.own o k <> None.
Proof.
  induction o as [|[k0 v0] r IH]; intros k; simpl.
  - split; [intros [] | intros H; apply H; reflexivity].
  - destruct (String.eqb k k0) eqn:E.
    + apply String.eqb_eq in E. subst. split; [discriminate | auto].
    + apply String.eqb_neq in E. rewrite <- IH. split.
      * intros [H|H]; [congruence | assumption].
      * auto.
Qed.

(** How [o[k]] reads. *)
Lemma get_own : forall o k a, Js.own o k = Some a -> Js.get o k = Js.Own a.
Proof. intros o k a H. unfold Js.get. rewrite H. reflexivity. Qed.

Lemma get_absent : forall o k,
  Js.own o k = None -> Js.is_proto_name k = false -> Js.get o k = Js.Undefined.
Proof. intros o k H1 H2. unfold Js.get. rewrite H1, H2. reflexivity. Qed.

Lemma get_inherited : forall o k,
  Js.own o k = None -> Js.is_proto_name k = true -> Js.get o k = Js.Inherited k.
Proof. intros o k H1 H2. unfold Js.get. rewrite H1, H2. reflexivity. Qed.

End ObjFacts.
(** ** The index builder *)

Section BuildIndexFacts.

Import BuildIndex.

Lemma missing_spec : forall (idx : index) uid,
  missing idx uid =
  match Js.own idx uid with
  | Some _ => false
  | None => negb (Js.is_proto_name uid)
  end.
Proof.
  intros idx uid. unfold missing, Js.get.
  destruct (Js.own idx uid); [reflexivity|].
  destruct (Js.is_proto_name uid); reflexivity.
Qed.

(** A [forEach] keeps what each of its rounds keeps. *)
Lemma forEach_invariant {A S} (body : S -> A -> option S) (P : S -> Prop) :
  (forall s a s', P s -> body s a = Some s' -> P s') ->
  forall l s s', P s -> forEach body l s = Some s' -> P s'.
Proof.
  intros Hstep. induction l as [|a r IH]; intros s s' Hs H; simpl in H.
  - injection H as <-. exact Hs.
  - destruct (body s a) as [s1|] eqn:E; [|discriminate].
    eapply IH; [eapply Hstep; eassumption | exact H].
Qed.

(** *** The walk over the root tree *)

Lemma index_root_own : forall idx segs uid,
  Js.own (index_root idx segs) uid =
  match Js.own idx uid with
  | Some e => Some e
  | None =>
      if is_root_file segs && String.eqb uid (root_uid segs)
         && negb (Js.is_proto_name uid)
      then Some (root_entry segs) else None
  end.
Proof.
  intros idx segs uid. unfold index_root.
  destruct (is_root_file segs); simpl.
  2:{ destruct (Js.own idx uid); reflexivity. }
  rewrite missing_spec.
  destruct (String.eqb uid (root_uid segs)) eqn:E; simpl.
  - apply String.eqb_eq in E. subst uid.
    destruct (Js.own idx (root_uid segs)) as [e|] eqn:Ho.
    + rewrite Ho. reflexivity.
    + destruct (Js.is_proto_name (root_uid segs)); simpl.
      * rewrite Ho. reflexivity.
      * rewrite own_set_same. reflexivity.
  - destruct (match Js.own idx (root_uid segs) with
              | Some _ => false
              | None => negb (Js.is_proto_name (root_uid segs))
              end).
    + rewrite own_set, E. destruct (Js.own idx uid); reflexivity.
    + destruct (Js.own idx uid); reflexivity.
Qed.

(** After the walk over the roots, an identifier has the entry it had
    before, or else the entry of the first root file found for it. *)
Lemma index_roots_own : forall files idx uid,
  Js.own (fold_left index_root files idx) uid =
  match Js.own idx uid with
  | Some e => Some e
  | None =>
      if Js.is_proto_name uid then None
      else option_map root_entry (first_root files uid)
  end.
Proof.
  induction files as [|f r IH]; intros idx uid; simpl.
  - destruct (Js.own idx uid); [reflexivity|].
    destruct (Js.is_proto_name uid); reflexivity.
  - rewrite IH, index_root_own.
    destruct (Js.own idx uid) as [e|]; [reflexivity|].
    destruct (is_root_file f && String.eqb uid (root_uid f)); simpl.
    + destruct (Js.is_proto_name uid); reflexivity.
    + reflexivity.
Qed.

Lemma first_root_split : forall pre f post uid,
  is_root_file f = true ->
  root_uid f = uid ->
  (forall g, In g pre -> is_root_file g = true -> root_uid g <> uid) ->
  first_root (pre ++ f :: post) uid = Some f.
Proof.
  induction pre as [|g pre IH]; intros f post uid Hf Hu Hpre; simpl.
  - rewrite Hf, Hu, String.eqb_refl. reflexivity.
  - destruct (is_root_file g) eqn:Hg; simpl.
    + destruct (String.eqb uid (root_uid g)) eqn:E.
      * apply String.eqb_eq in E. exfalso.
        apply (Hpre g); [left; reflexivity | assumption | congruence].
      * apply IH; auto. intros h Hh. apply Hpre. right. exact Hh.
    + apply IH; auto. intros h Hh. apply Hpre. right. exact Hh.
Qed.

(** *** The walk over the translation tree *)

(** What one translation file does to the entry of an identifier. *)
Lemma index_translation_own : forall author idx segs idx' uid,
  index_translation author idx segs = Some idx' ->
  Js.own idx' uid =
  if is_translation_file segs && String.eqb uid (translation_uid segs) then
    let e := match Js.own idx uid with
             | Some e => e
             | None => {| root := None; translations := [] |}
             end in
    Some {| root := root e;
            translations :=
              Js.set_prim (translations e) author (relative_path segs) |}
  else Js.own idx uid.
Proof.
  intros author idx segs idx' uid H. unfold index_translation in H.
  destruct (is_translation_file segs); simpl.
  2:{ injection H as <-. reflexivity. }
  rewrite missing_spec in H.
  set (u := translation_uid segs) in *.
  destruct (Js.own idx u) as [e|] eqn:Ho.
  - rewrite (get_own _ _ Ho) in H. injection H as <-.
    rewrite own_set.
    destruct (String.eqb uid u) eqn:E; [|reflexivity].
    apply String.eqb_eq in E. subst uid. rewrite Ho. reflexivity.
  - destruct (Js.is_proto_name u) eqn:Hp; simpl in H.
    + rewrite (get_inherited _ _ Ho Hp) in H. discriminate.
    + rewrite (get_own _ _ (own_set_same _ _ _)) in H. injection H as <-.
      rewrite !own_set.
      destruct (String.eqb uid u) eqn:E; [|reflexivity].
      apply String.eqb_eq in E. subst uid. rewrite Ho. reflexivity.
Qed.

(** The walk over the translations keeps the entries there are, and their
    roots. *)
Lemma index_translation_keeps_root : forall author uid r idx segs idx',
  (exists e, Js.own idx uid = Some e /\ root e = r) ->
  index_translation author idx segs = Some idx' ->
  exists e, Js.own idx' uid = Some e /\ root e = r.
Proof.
  intros author uid r idx segs idx' [e [Ho Hr]] H.
  rewrite (index_translation_own _ _ _ uid H), Ho.
  destruct (is_translation_file segs && String.eqb uid (translation_uid segs)).
  - eexists; split; [reflexivity | exact Hr].
  - eexists; split; [reflexivity | exact Hr].
Qed.

Lemma index_author_keeps_root : forall uid r idx n idx',
  (exists e, Js.own idx uid = Some e /\ root e = r) ->
  index_author idx n = Some idx' ->
  exists e, Js.own idx' uid = Some e /\ root e = r.
Proof.
  intros uid r idx [f|author cs] idx' Hi H; simpl in H.
  - injection H as <-. exact Hi.
  - revert Hi H.
    apply (forEach_invariant (index_translation author)
             (fun s => exists e, Js.own s uid = Some e /\ root e = r)).
    intros s a s'. apply index_translation_keeps_root.
Qed.

Lemma buildIndex_keeps_root : forall c idx uid e,
  buildIndex c = Some idx ->
  Js.own (index_roots c) uid = Some e ->
  exists e', Js.own idx uid = Some e' /\ root e' = root e.
Proof.
  intros c idx uid e H Ho. unfold buildIndex in H.
  destruct (translation_dir c) as [authors|].
  - revert H.
    apply (forEach_invariant index_author
             (fun s => exists e', Js.own s uid = Some e' /\ root e' = root e)).
    + intros s a s'. apply index_author_keeps_root.
    + exists e. auto.
  - injection H as <-. exists e. auto.
Qed.

Lemma forEach_app {A S} (body : S -> A -> option S) : forall l1 l2 s,
  forEach body (l1 ++ l2) s =
  match forEach body l1 s with
  | Some s' => forEach body l2 s'
  | None => None
  end.
Proof.
  induction l1 as [|a r IH]; intros l2 s; simpl; [reflexivity|].
  destruct (body s a); [apply IH | reflexivity].
Qed.

Lemma forEach_map {A B S} (body : S -> B -> option S) (f : A -> B) :
  forall l s, forEach body (map f l) s = forEach (fun s a => body s (f a)) l s.
Proof.
  induction l as [|a r IH]; intros s; simpl; [reflexivity|].
  destruct (body s (f a)); [apply IH | reflexivity].
Qed.

(** The two nested loops over the translation tree are one loop over
    [translation_files]. *)
Lemma forEach_authors : forall authors idx,
  forEach index_author authors idx =
  forEach index_candidate (flat_map author_files authors) idx.
Proof.
  induction authors as [|n r IH]; intros idx; simpl; [reflexivity|].
  rewrite forEach_app.
  destruct n as [f|author cs]; simpl.
  - apply IH.
  - rewrite forEach_map.
    change (fun s a => index_candidate s (author, a))
      with (index_translation author).
    destruct (forEach (index_translation author) (walkSync cs) idx);
      [apply IH | reflexivity].
Qed.

Lemma buildIndex_forEach : forall c,
  buildIndex c = forEach index_candidate (translation_files c) (index_roots c).
Proof.
  intros c. unfold buildIndex, translation_files.
  destruct (translation_dir c); [apply forEach_authors | reflexivity].
Qed.

Lemma index_candidates_own : forall cands idx idx' uid,
  forEach index_candidate cands idx = Some idx' ->
  Js.own idx' uid =
  with_translations (Js.own idx uid) (filter (is_translation_of uid) cands).
Proof.
  induction cands as [|[a segs] r IH]; intros idx idx' uid H; simpl in H.
  - injection H as <-. reflexivity.
  - unfold index_candidate in H at 1. simpl in H.
    destruct (index_translation a idx segs) as [idx1|] eqn:E1; [|discriminate].
    rewrite (IH _ _ uid H), (index_translation_own _ _ _ uid E1).
    simpl. unfold is_translation_of at 2. simpl.
    destruct (is_translation_file segs && String.eqb uid (translation_uid segs));
      [|reflexivity].
    destruct (filter (is_translation_of uid) r) as [|c m]; reflexivity.
Qed.

(** The entry of an identifier in the index that is written. *)
Lemma buildIndex_own : forall c idx uid,
  buildIndex c = Some idx ->
  Js.own idx uid =
  with_translations
    (if Js.is_proto_name uid then None
     else option_map root_entry (first_root (root_files c) uid))
    (filter (is_translation_of uid) (translation_files c)).
Proof.
  intros c idx uid H. rewrite buildIndex_forEach in H.
  rewrite (index_candidates_own _ _ uid H).
  unfold index_roots, root_files.
  destruct (root_dir c) as [cs|].
  - rewrite index_roots_own. reflexivity.
  - simpl. destruct (Js.is_proto_name uid); reflexivity.
Qed.

(** Where the translations of an entry come from. *)
Lemma add_translations_own : forall mine t a p,
  Js.own (fold_left add_translation mine t) a = Some p ->
  Js.own t a = Some p \/
  exists segs, In (a, segs) mine /\ p = relative_path segs.
Proof.
  induction mine as [|[b segs] r IH]; intros t a p H; simpl in H.
  - left. exact H.
  - destruct (IH _ _ _ H) as [H1|[segs' [Hin Hp]]].
    + unfold add_translation in H1. simpl in H1. rewrite own_set_prim in H1.
      destruct (String.eqb b "__proto__"); [left; exact H1|].
      destruct (String.eqb a b) eqn:E.
      * apply String.eqb_eq in E. subst b. injection H1 as <-.
        right. exists segs. split; [left; reflexivity | reflexivity].
      * left. exact H1.
    + right. exists segs'. split; [right; exact Hin | exact Hp].
Qed.

Lemma with_translations_source : forall e0 mine a p e,
  with_translations e0 mine = Some e ->
  Js.own (translations e) a = Some p ->
  (exists e', e0 = Some e' /\ Js.own (translations e') a = Some p) \/
  exists segs, In (a, segs) mine /\ p = relative_path segs.
Proof.
  intros e0 mine a p e H Ht.
  destruct mine as [|m0 mr] eqn:Em.
  - simpl in H. subst e0. left. exists e. auto.
  - rewrite <- Em in *. unfold with_translations in H.
    rewrite Em in H at 1. injection H as <-.
    unfold translations at 1 in Ht.
    apply add_translations_own in Ht. destruct Ht as [Ht|Ht]; [|right; exact Ht].
    destruct e0 as [e'|].
    + left. exists e'. auto.
    + discriminate.
Qed.

End BuildIndexFacts.

(** C9, as stated, fails: with two root files of [dn1] the index keeps the
    path of the one walked first, [sutta/dn1_root-pli-ms.json], and not the
    path of the later one. *)
Lemma last_root_file_does_not_win : ~ last_root_file_wins.
Proof.
  intros H.
  destruct (H duplicate_roots _ _
              [["sutta"; "dn1_root-pli-ms.json"]]
              ["vinaya"; "dn1_root-pli-ms.json"] []
              eq_refl eq_refl eq_refl
              (fun g (F : In g []) _ => match F with end) eq_refl)
    as [e [Ho Hr]].
  vm_compute in Ho. injection Ho as <-. vm_compute in Hr. discriminate.
Qed.

(** C9, amended: when several files of the walk over the root tree map to
    one identifier, the file met first gives the entry its root path; the
    later ones are skipped by the guard [if (!index[uid])]. *)
Theorem first_root_file_wins :
  forall c cs idx pre f post,
    BuildIndex.root_dir c = Some cs ->
    BuildIndex.walkSync cs = pre ++ f :: post ->
    BuildIndex.is_root_file f = true ->
    (forall g, In g pre -> BuildIndex.is_root_file g = true ->
               BuildIndex.root_uid g <> BuildIndex.root_uid f) ->
    Js.is_proto_name (BuildIndex.root_uid f) = false ->
    BuildIndex.buildIndex c = Some idx ->
    exists e, Js.own idx (BuildIndex.root_uid f) = Some e /\
              BuildIndex.root e = Some (BuildIndex.relative_path f).
Proof.
  intros c cs idx pre f post Hc Hw Hf Hpre Hp Hb.
  assert (Ho : Js.own (BuildIndex.index_roots c) (BuildIndex.root_uid f)
               = Some (root_entry f)).
  { unfold BuildIndex.index_roots. rewrite Hc, index_roots_own, Hw. simpl.
    rewrite Hp, (first_root_split pre f post Hf eq_refl Hpre). reflexivity. }
  destruct (buildIndex_keeps_root _ _ Hb Ho) as [e' [Ho' Hr']].
  exists e'. split; [exact Ho' | exact Hr'].
Qed.

Lemma first_root_file_wins_witness :
  exists e, Js.own [("dn1", {| BuildIndex.root := Some "sutta/dn1_root-pli-ms.json";
                              BuildIndex.translations := [] |})]
                   "dn1" = Some e /\
            BuildIndex.root e = Some "sutta/dn1_root-pli-ms.json".
Proof.
  apply (first_root_file_wins duplicate_roots
           [] ["sutta"; "dn1_root-pli-ms.json"]
           [["vinaya"; "dn1_root-pli-ms.json"]]
           eq_refl eq_refl eq_refl
           (fun g (F : In g []) _ => match F with end) eq_refl eq_refl).
Defined.
(** ** The build trigger *)

Section AdminFacts.

Import Admin.

(** Every child the server holds is one it forked and has not yet seen
    exit: the [exit] listener clears [buildProcess], and nothing calls
    [kill]. *)
Lemma reachable_child : forall st,
  reachable st ->
  forall p, buildProcess st = Some p -> killed p = false /\ exitCode p = None.
Proof.
  induction 1 as [|st st' Hr IH Hs]; intros p Hp.
  - discriminate.
  - inversion Hs as [e t st0 | b t l st0 Hb | t c ct st0 Hb]; subst.
    + unfold post_build_offline, triggerOfflineBuild in Hp.
      destruct (active st) eqn:Ha; simpl in Hp; [apply IH; assumption|].
      destruct e; simpl in Hp.
      * injection Hp as <-. split; reflexivity.
      * destruct (buildProcess st) eqn:Hb; simpl in Hp;
          apply IH; congruence.
    + simpl in Hp. apply IH. assumption.
    + simpl in Hp. discriminate.
Qed.

(** In a reachable state the guard of the trigger and the [isRunning] of
    the status route agree. *)
Lemma reachable_running_active : forall st,
  reachable st -> fst (build_status st) = active st.
Proof.
  intros st Hr. unfold build_status, active. simpl.
  destruct (buildProcess st) as [p|] eqn:Hp; [|reflexivity].
  destruct (reachable_child Hr Hp) as [-> ->]. reflexivity.
Qed.

End AdminFacts.



(** ** The pipeline *)

Section PipelineFacts.

Import Pipeline.

Lemma quiet_ret : forall A (a : A), quiet (ret a).
Proof. intros. constructor. Qed.

Lemma quiet_throw : forall A, quiet (@throw A).
Proof. intros. constructor. Qed.

Lemma quiet_exit : forall A c, quiet (@exit A c).
Proof. intros. constructor. Qed.

Lemma quiet_bind : forall A B (m : M A) (k : A -> M B),
  quiet m -> (forall a, quiet (k a)) -> quiet (bind m k).
Proof.
  intros A B [tr [a| |c]] k Hm Hk; unfold quiet in *; simpl in *; try assumption.
  specialize (Hk a). destruct (k a) as [tr' o]. simpl in *.
  apply Forall_app. split; assumption.
Qed.

Lemma quiet_try_catch : forall A (m h : M A),
  quiet m -> quiet h -> quiet (try_catch m h).
Proof.
  intros A [tr [a| |c]] [tr' o] Hm Hh; unfold quiet in *; simpl in *; try assumption.
  apply Forall_app. split; assumption.
Qed.

Lemma quiet_if : forall A (b : bool) (m1 m2 : M A),
  quiet m1 -> quiet m2 -> quiet (if b then m1 else m2).
Proof. intros A [] m1 m2 H1 H2; assumption. Qed.

Lemma quiet_runCommand : forall e c d, quiet (runCommand e c d).
Proof.
  intros e c d. unfold runCommand. apply quiet_bind.
  - repeat constructor.
  - intros _. destruct (exec e c); constructor.
Qed.

Lemma quiet_mkdir : forall e d, quiet (mkdir e d).
Proof.
  intros e d. unfold mkdir. destruct (mkdir_fails e d); repeat constructor.
Qed.

Create HintDb quiet.
Hint Resolve quiet_ret quiet_throw quiet_exit quiet_bind quiet_try_catch
  quiet_if quiet_runCommand quiet_mkdir : quiet.

Lemma quiet_sync : forall e, quiet (sync e).
Proof. intros e. unfold sync. auto 10 with quiet. Qed.

Lemma quiet_commit_info : forall e, quiet (commit_info e).
Proof. intros e. unfold commit_info. auto 10 with quiet. Qed.

Lemma quiet_stages : forall e, quiet (stages e).
Proof. intros e. unfold stages. auto 10 with quiet. Qed.

(** The shape of the last two steps. *)
Lemma bundle_and_stamp_cases : forall e v,
  bundle_and_stamp e v =
  match bundle e with
  | None => ([Bundle None], Exit 1)
  | Some zip =>
      if version_write_fails e then ([Bundle (Some zip)], Exit 1)
      else ([Bundle (Some zip); WriteVersion v], Return tt)
  end.
Proof.
  intros e v. unfold bundle_and_stamp, generateBundle, write_version.
  destruct (bundle e) as [zip|]; simpl.
  - destruct (version_write_fails e); reflexivity.
  - reflexivity.
Qed.

Local Ltac stopped := repeat (apply Forall_app; split); assumption.

(** A run either stops before bundling, or performs its early effects
    and then the last two steps. *)
Lemma buildPipeline_cases : forall e,
  (quiet (buildPipeline e) /\ forall a, snd (buildPipeline e) <> Return a)
  \/ exists pre v,
       Forall early pre /\
       buildPipeline e =
       (pre ++ fst (bundle_and_stamp e v), snd (bundle_and_stamp e v)).
Proof.
  intros e. unfold buildPipeline.
  assert (H1 : quiet (if public_dir_exists e then ret tt else mkdir e PublicDir))
    by auto with quiet.
  assert (H2 := quiet_sync e).
  assert (H3 := quiet_commit_info e).
  assert (H4 := quiet_stages e).
  unfold quiet in *.
  destruct (if public_dir_exists e then ret tt else mkdir e PublicDir)
    as [t1 [[]| |c1]]; simpl in *;
    try (left; split; [assumption | intros a; discriminate]).
  destruct (sync e) as [t2 [[]| |c2]]; simpl in *;
    try (left; split; [stopped | intros a; discriminate]).
  destruct (commit_info e) as [t3 [v| |c3]]; simpl in *;
    try (left; split; [stopped | intros a; discriminate]).
  destruct (stages e) as [t4 [[]| |c4]]; simpl in *;
    try (left; split; [stopped | intros a; discriminate]).
  right. exists (t1 ++ t2 ++ t3 ++ t4), v.
  destruct (bundle_and_stamp e v) as [t5 o5]. simpl.
  split; [stopped | rewrite <- !app_assoc; reflexivity].
Qed.

End PipelineFacts.
(** C4: when the pull reports [Already up to date.] and the index file
    exists, the run ends at once with exit code 0; the only effects are the
    creation of the public directory, if it was missing, and the pull
    itself: no menu fetch, pruning, index build, backfill, bundling or
    version stamp. *)
Theorem up_to_date_short_circuit :
  forall e pullOutput,
    (Pipeline.public_dir_exists e = true
     \/ Pipeline.mkdir_fails e Pipeline.PublicDir = false) ->
    Pipeline.git_dir_exists e = true ->
    Pipeline.exec e Pipeline.PULL = Pipeline.CmdOk pullOutput ->
    Str.includes "Already up to date." pullOutput = true ->
    Pipeline.index_exists e = true ->
    Pipeline.main e =
    ((if Pipeline.public_dir_exists e then [] else [Pipeline.Mkdir Pipeline.PublicDir])
       ++ [Pipeline.Exec Pipeline.PULL Pipeline.BilaraDataDir],
     0).
Proof.
  intros e out Hpub Hgit Hpull Hinc Hidx.
  unfold Pipeline.main, Pipeline.buildPipeline, Pipeline.sync,
    Pipeline.runCommand, Pipeline.mkdir.
  rewrite Hgit, Hpull. simpl. rewrite Hinc, Hidx. simpl.
  destruct (Pipeline.public_dir_exists e); simpl; [reflexivity|].
  destruct Hpub as [Hpub|Hpub]; [discriminate|].
  rewrite Hpub. reflexivity.
Qed.

Lemma up_to_date_short_circuit_witness :
  Pipeline.main up_to_date_env =
  ([Pipeline.Exec Pipeline.PULL Pipeline.BilaraDataDir], 0).
Proof.
  apply (up_to_date_short_circuit up_to_date_env
           (pullOutput := "From github.com:suttacentral/bilara-data
Already up to date.")
           (or_introl eq_refl) eq_refl eq_refl eq_refl eq_refl).
Defined.

(** C7: in every run, a version stamp is written only as the effect
    directly after a successful bundling, at the very end of a run that
    exits with code 0; and when bundling fails the run exits with code 1
    and writes no version stamp. *)
Theorem version_stamp_only_after_bundle :
  forall e,
    (forall v, In (Pipeline.WriteVersion v) (fst (Pipeline.main e)) ->
       exists pre zip,
         Forall early pre /\
         Pipeline.bundle e = Some zip /\
         Pipeline.main e =
         (pre ++ [Pipeline.Bundle (Some zip); Pipeline.WriteVersion v], 0))
    /\
    (In (Pipeline.Bundle None) (fst (Pipeline.main e)) ->
       snd (Pipeline.main e) = 1 /\
       forall v, ~ In (Pipeline.WriteVersion v) (fst (Pipeline.main e))).
Proof.
  intros e.
  assert (Hearly : forall tr ev, Forall early tr -> In ev tr -> early ev).
  { intros tr ev Hf Hin. rewrite Forall_forall in Hf. apply Hf. exact Hin. }
  unfold Pipeline.main.
  destruct (buildPipeline_cases e) as [[Hq Hn] | [pre [v0 [Hpre Heq]]]].
  - unfold quiet in Hq.
    destruct (Pipeline.buildPipeline e) as [tr [[]| |c]]; simpl in *.
    + exfalso. apply (Hn tt). reflexivity.
    + split.
      * intros v Hin. destruct (Hearly _ _ Hq Hin).
      * intros Hin. destruct (Hearly _ _ Hq Hin).
    + split.
      * intros v Hin. destruct (Hearly _ _ Hq Hin).
      * intros Hin. destruct (Hearly _ _ Hq Hin).
  - rewrite Heq, bundle_and_stamp_cases.
    destruct (Pipeline.bundle e) as [zip|] eqn:Hb; simpl.
    + destruct (Pipeline.version_write_fails e); simpl.
      * split.
        -- intros v Hin. apply in_app_or in Hin. destruct Hin as [Hin|Hin].
           ++ destruct (Hearly _ _ Hpre Hin).
           ++ destruct Hin as [Hin|[]]; discriminate.
        -- intros Hin. apply in_app_or in Hin. destruct Hin as [Hin|Hin].
           ++ destruct (Hearly _ _ Hpre Hin).
           ++ destruct Hin as [Hin|[]]; discriminate.
      * split.
        -- intros v Hin. apply in_app_or in Hin. destruct Hin as [Hin|Hin].
           ++ destruct (Hearly _ _ Hpre Hin).
           ++ destruct Hin as [Hin|[Hin|[]]]; [discriminate|].
              injection Hin as <-. exists pre, zip. auto.
        -- intros Hin. apply in_app_or in Hin. destruct Hin as [Hin|Hin].
           ++ destruct (Hearly _ _ Hpre Hin).
           ++ destruct Hin as [Hin|[Hin|[]]]; discriminate.
    + split.
      * intros v Hin. apply in_app_or in Hin. destruct Hin as [Hin|Hin].
        -- destruct (Hearly _ _ Hpre Hin).
        -- destruct Hin as [Hin|[]]; discriminate.
      * intros _. split; [reflexivity|].
        intros v Hin. apply in_app_or in Hin. destruct Hin as [Hin|Hin].
        -- destruct (Hearly _ _ Hpre Hin).
        -- destruct Hin as [Hin|[]]; discriminate.
Qed.

Lemma version_stamp_only_after_bundle_witness :
  let e := {| Pipeline.public_dir_exists := true;
              Pipeline.git_dir_exists := true;
              Pipeline.parent_dir_exists := true;
              Pipeline.mkdir_fails := fun _ => false;
              Pipeline.exec := fun _ => Pipeline.CmdOk "ok";
              Pipeline.index_exists := true;
              Pipeline.now_commit := "t1";
              Pipeline.now_version := "t2";
              Pipeline.bundle := None;
              Pipeline.version_write_fails := false |} in
  snd (Pipeline.main e) = 1 /\
  forall v, ~ In (Pipeline.WriteVersion v) (fst (Pipeline.main e)).
Proof.
  intro e. apply (proj2 (version_stamp_only_after_bundle e)).
  vm_compute. do 7 right. left. reflexivity.
Defined.
(** ** The legacy backfill *)

Section FetchLegacyFacts.

Import FetchLegacy.

Variable script_dir : list string.

Lemma added_app : forall tr tr', added (tr ++ tr') = added tr ++ added tr'.
Proof. intros. unfold added. apply flat_map_app. Qed.

Lemma fetched_app : forall tr tr', fetched (tr ++ tr') = fetched tr ++ fetched tr'.
Proof. intros. unfold fetched. apply flat_map_app. Qed.

Lemma persisted_app : forall f tr tr',
  persisted f (tr ++ tr') = persisted (persisted f tr) tr'.
Proof. intros. unfold persisted. apply fold_left_app. Qed.

(** The two ways an iteration can go: nothing is added (the identifier is
    skipped, or a fetch brings nothing), or one entry is added. *)
Lemma process_cases : forall w st u,
  let st' := process script_dir w st u in
  (legacyMap st' = legacyMap st /\ count st' = count st /\
   exists evs,
     trace st' = trace st ++ evs /\ added evs = [] /\
     (forall f, persisted f evs = f) /\
     (forall x, In x (fetched evs) ->
        x = u /\ Js.truthy Js.truthy_obj (Js.get (legacyMap st) u) = false))
  \/
  (Js.truthy Js.truthy_obj (Js.get (legacyMap st) u) = false /\
   exists a content,
     legacyMap st' =
       Js.set (legacyMap st) u
         {| author_uid := a; path := legacy_path script_dir u a |} /\
     count st' = S (count st) /\
     trace st' =
       trace st
       ++ [FetchSuttaplex u; FetchSutta u a;
           WriteHtml u a (target_file script_dir u a) content]
       ++ (if (S (count st) mod 10 =? 0)%nat then [WriteMap (legacyMap st')] else [])).
Proof.
  intros w st u. unfold process.
  destruct (Js.truthy Js.truthy_obj (Js.get (legacyMap st) u)) eqn:Ht.
  { left. simpl. repeat split. exists []. rewrite app_nil_r.
    repeat split; simpl; intros; try reflexivity; contradiction. }
  assert (Hone : forall x, In x [u] ->
            x = u /\ false = false) by (intros x [<-|[]]; auto).
  assert (Htwo : forall x, In x [u; u] ->
            x = u /\ false = false) by (intros x [<-|[<-|[]]]; auto).
  destruct (suttaplex w u) as [ts|].
  2:{ left. simpl. repeat split. exists [FetchSuttaplex u].
      repeat split; simpl; auto; apply Hone; assumption. }
  destruct (filter (fun t => String.eqb (lang t) "en") ts) as [|t0 ?].
  { left. simpl. repeat split. exists [FetchSuttaplex u].
    repeat split; simpl; auto; apply Hone; assumption. }
  destruct (sutta w u (t_author_uid t0)) as [content|].
  2:{ left. simpl. repeat split.
      exists [FetchSuttaplex u; FetchSutta u (t_author_uid t0)].
      rewrite <- app_assoc.
      repeat split; simpl; auto; apply Htwo; assumption. }
  destruct (Js.truthy_str content).
  - right. split; [reflexivity|].
    exists (t_author_uid t0), content. simpl.
    repeat split. rewrite <- !app_assoc. reflexivity.
  - left. simpl. repeat split.
    exists [FetchSuttaplex u; FetchSutta u (t_author_uid t0)].
    rewrite <- app_assoc.
    repeat split; simpl; auto; apply Htwo; assumption.
Qed.

(** An identifier the map has an entry for is falsy to no lookup. *)
Lemma truthy_own : forall (m : legacy_map) u x,
  Js.own m u = Some x -> Js.truthy Js.truthy_obj (Js.get m u) = true.
Proof. intros m u x H. rewrite (get_own _ _ H). reflexivity. Qed.

Lemma falsy_not_own : forall (m : legacy_map) u,
  Js.truthy Js.truthy_obj (Js.get m u) = false -> Js.own m u = None.
Proof.
  intros m u H. destruct (Js.own m u) as [x|] eqn:Ho; [|reflexivity].
  rewrite (truthy_own _ _ Ho) in H. discriminate.
Qed.

(** The map only grows. *)
Lemma process_keeps : forall w st u k x,
  Js.own (legacyMap st) k = Some x ->
  Js.own (legacyMap (process script_dir w st u)) k = Some x.
Proof.
  intros w st u k x Hk.
  destruct (process_cases w st u) as [[Hm _] | [Hf [a [c [Hm _]]]]].
  - rewrite Hm. exact Hk.
  - rewrite Hm, own_set_other; [exact Hk|].
    intros ->. rewrite (falsy_not_own _ _ Hf) in Hk. discriminate.
Qed.

Lemma loop_keeps : forall w l st k x,
  Js.own (legacyMap st) k = Some x ->
  Js.own (legacyMap (loop script_dir w l st)) k = Some x.
Proof.
  intros w. induction l as [|u r IH]; intros st k x Hk; simpl.
  - exact Hk.
  - apply IH. apply process_keeps. exact Hk.
Qed.

(** No fetch for an identifier that has an entry. *)
Lemma process_no_fetch : forall w st u k x,
  Js.own (legacyMap st) k = Some x ->
  ~ In k (fetched (trace st)) ->
  ~ In k (fetched (trace (process script_dir w st u))).
Proof.
  intros w st u k x Hk Hn Hin.
  destruct (process_cases w st u)
    as [[_ [_ [evs [Ht [_ [_ Hf]]]]]] | [Hf [a [c [_ [_ Ht]]]]]].
  - rewrite Ht, fetched_app in Hin. apply in_app_or in Hin.
    destruct Hin as [Hin|Hin]; [exact (Hn Hin)|].
    destruct (Hf _ Hin) as [-> Hfalse].
    rewrite (truthy_own _ _ Hk) in Hfalse. discriminate.
  - rewrite Ht, fetched_app in Hin. apply in_app_or in Hin.
    destruct Hin as [Hin|Hin]; [exact (Hn Hin)|].
    assert (k = u).
    { rewrite fetched_app in Hin. apply in_app_or in Hin.
      destruct Hin as [Hin|Hin].
      - simpl in Hin. destruct Hin as [H|[H|[]]]; auto.
      - destruct (S (count st) mod 10 =? 0)%nat; simpl in Hin; contradiction. }
    subst k. rewrite (truthy_own _ _ Hk) in Hf. discriminate.
Qed.

Lemma loop_no_fetch : forall w l st k x,
  Js.own (legacyMap st) k = Some x ->
  ~ In k (fetched (trace st)) ->
  ~ In k (fetched (trace (loop script_dir w l st))).
Proof.
  intros w. induction l as [|u r IH]; intros st k x Hk Hn; simpl.
  - exact Hn.
  - apply (IH _ k x).
    + apply process_keeps. exact Hk.
    + apply (@process_no_fetch w st u k x Hk Hn).
Qed.

Lemma persisted_last : forall f tr m, persisted f (tr ++ [WriteMap m]) = Some m.
Proof. intros. rewrite persisted_app. reflexivity. Qed.

(** One run: nothing is fetched for an identifier that has an entry, and
    the entry is in the map file the run leaves. *)
Lemma run_skips_and_keeps : forall w m k x,
  Js.own m k = Some x ->
  ~ In k (fetched (fst (run script_dir w (Some m)))) /\
  exists m', persisted (Some m) (fst (run script_dir w (Some m))) = Some m'
             /\ Js.own m' k = Some x.
Proof.
  intros w m k x Hk. unfold run.
  destruct (index_file w) as [idx|]; simpl.
  - split.
    + rewrite fetched_app. intros Hin. apply in_app_or in Hin.
      destruct Hin as [Hin|[]].
      revert Hin. apply (@loop_no_fetch w _ (start (Some m)) k x Hk).
      simpl. auto.
    + rewrite persisted_last. eexists. split; [reflexivity|].
      apply loop_keeps. exact Hk.
  - split; [auto|]. exists m. auto.
Qed.

End FetchLegacyFacts.

(** C5: an identifier that has an entry in the legacy map when a run of
    the backfill starts is fetched by neither that run nor any run after
    it: none of the runs asks for its suttaplex or its text. *)
Theorem legacy_entries_never_refetched :
  forall script_dir ws m uid x,
    Js.own m uid = Some x ->
    Forall (fun tr => ~ In uid (FetchLegacy.fetched tr))
           (FetchLegacy.runs script_dir ws (Some m)).
Proof.
  intros script_dir ws. induction ws as [|w r IH]; intros m uid x Hk; simpl.
  - constructor.
  - destruct (@run_skips_and_keeps script_dir w m uid x Hk) as [Hn [m' [Hp Hk']]].
    constructor; [exact Hn|].
    rewrite Hp. apply (IH m' uid x Hk').
Qed.

Section FlushFacts.

Import FetchLegacy.

Variable script_dir : list string.
Variable legacy_file : option legacy_map.

Local Arguments Nat.modulo : simpl never.
Local Arguments Nat.div : simpl never.

Lemma flush_inv_start : flush_inv legacy_file (start legacy_file).
Proof.
  constructor; simpl; try (intros; contradiction); try (intros; lia); auto.
  constructor.
Qed.

Lemma in_firstn : forall (A : Type) n (l : list A) x, In x (firstn n l) -> In x l.
Proof.
  intros A n. induction n as [|n IH]; intros [|a l] x H; simpl in *;
    try contradiction.
  destruct H as [H|H]; [left | right; apply IH]; assumption.
Qed.

Lemma flush_inv_process : forall w st u,
  flush_inv legacy_file st -> flush_inv legacy_file (process script_dir w st u).
Proof.
  intros w st u I.
  destruct (process_cases script_dir w st u)
    as [[Hm [Hc [evs [Ht [Ha [Hp _]]]]]] | [Hf [a [c [Hm [Hc Ht]]]]]].
  - (* nothing added *)
    assert (Hadd : added (trace (process script_dir w st u)) = added (trace st))
      by (rewrite Ht, added_app, Ha, app_nil_r; reflexivity).
    assert (Hper : persisted legacy_file (trace (process script_dir w st u))
                   = persisted legacy_file (trace st))
      by (rewrite Ht, persisted_app, Hp; reflexivity).
    destruct I. constructor; rewrite ?Hadd, ?Hper, ?Hm, ?Hc; assumption.
  - (* one entry added *)
    set (st' := process script_dir w st u) in *.
    assert (Hnone : Js.own (legacyMap st) u = None) by (apply falsy_not_own; exact Hf).
    assert (Hadd : added (trace st') = added (trace st) ++ [u]).
    { rewrite Ht, !added_app.
      destruct (S (count st) mod 10 =? 0)%nat; reflexivity. }
    destruct I as [Icount Inodup Imono Inew Iin Isync Idisk].
    assert (Hin' : forall x, In x (added (trace st) ++ [u]) ->
                             Js.own (legacyMap st') x <> None).
    { intros x Hx. rewrite Hm, own_set.
      destruct (String.eqb x u) eqn:E; [discriminate|].
      apply in_app_or in Hx. destruct Hx as [Hx|[Hx|[]]].
      - apply Iin. exact Hx.
      - subst x. rewrite String.eqb_refl in E. discriminate. }
    constructor; rewrite ?Hadd, ?Hc.
    + rewrite length_app. simpl. lia.
    + apply NoDup_app_remove_l with (l := []). simpl.
      apply NoDup_rev in Inodup.
      rewrite <- (rev_involutive (added (trace st) ++ [u])).
      apply NoDup_rev. rewrite rev_app_distr. simpl.
      constructor; [|exact Inodup].
      rewrite <- in_rev. intros Hx. apply (Iin u Hx). exact Hnone.
    + intros k x Hk. rewrite Hm, own_set_other; [apply Imono; exact Hk|].
      intros ->. rewrite (Imono _ _ Hk) in Hnone. discriminate.
    + intros x Hx. apply in_app_or in Hx. destruct Hx as [Hx|[Hx|[]]].
      * apply Inew. exact Hx.
      * subst x. destruct (Js.own (legacyMap (start legacy_file)) u) as [y|] eqn:E;
          [|reflexivity].
        rewrite (Imono _ _ E) in Hnone. discriminate.
    + exact Hin'.
    + intros _ Hmod. rewrite Ht, !app_assoc.
      apply Nat.eqb_eq in Hmod. rewrite Hmod. apply persisted_last.
    + intros Hten.
      destruct (S (count st) mod 10 =? 0)%nat eqn:Hmod.
      * exists (legacyMap st'). split.
        -- rewrite Ht, !app_assoc. apply persisted_last.
        -- intros x Hx. apply Hin'. eapply in_firstn. exact Hx.
      * apply Nat.eqb_neq in Hmod.
        assert (Hten' : 10 <= count st).
        { destruct (Nat.eq_dec (S (count st)) 10) as [E|E]; [|lia].
          rewrite E in Hmod. exfalso. apply Hmod. reflexivity. }
        assert (Hdiv : S (count st) / 10 = count st / 10).
        { pose proof (Nat.div_mod_eq (S (count st)) 10).
          pose proof (Nat.div_mod_eq (count st) 10).
          pose proof (Nat.mod_upper_bound (S (count st)) 10).
          pose proof (Nat.mod_upper_bound (count st) 10).
          nia. }
        destruct (Idisk Hten') as [m [Hp Hall]].
        exists m. split.
        -- rewrite Ht, app_nil_r, persisted_app. simpl. exact Hp.
        -- intros x Hx. apply Hall. rewrite Hdiv in Hx.
           rewrite firstn_app in Hx.
           replace (10 * (count st / 10) - length (added (trace st))) with 0 in Hx.
           ++ simpl in Hx. rewrite app_nil_r in Hx. exact Hx.
           ++ pose proof (Nat.div_mod_eq (count st) 10). lia.
Qed.

Lemma flush_inv_loop : forall w l st,
  flush_inv legacy_file st -> flush_inv legacy_file (loop script_dir w l st).
Proof.
  intros w. induction l as [|u r IH]; intros st I; simpl.
  - exact I.
  - apply IH. apply flush_inv_process. exact I.
Qed.

(** The effects of a longer stretch of the loop start with those of a
    shorter one. *)
Lemma loop_trace_extends : forall w l st,
  exists evs, trace (loop script_dir w l st) = trace st ++ evs.
Proof.
  intros w. induction l as [|u r IH]; intros st; simpl.
  - exists []. rewrite app_nil_r. reflexivity.
  - destruct (IH (process script_dir w st u)) as [evs Hevs].
    assert (exists e1, trace (process script_dir w st u) = trace st ++ e1) as [e1 He1].
    { destruct (process_cases script_dir w st u)
        as [[_ [_ [e1 [Ht _]]]] | [_ [a [c [_ [_ Ht]]]]]]; eexists; exact Ht. }
    exists (e1 ++ evs). rewrite Hevs, He1, app_assoc. reflexivity.
Qed.


End FlushFacts.

Lemma legacy_entries_never_refetched_witness :
  Forall (fun tr => ~ In "kn3" (FetchLegacy.fetched tr))
    (FetchLegacy.runs ["srv"; "scripts"] [twelve_leaves; twelve_leaves]
       (Some [("kn3", {| FetchLegacy.author_uid := "bodhi";
                         FetchLegacy.path := "legacy/en/bodhi/kn3.html" |})])).
Proof.
  apply (@legacy_entries_never_refetched ["srv"; "scripts"]
           [twelve_leaves; twelve_leaves]
           [("kn3", {| FetchLegacy.author_uid := "bodhi";
                       FetchLegacy.path := "legacy/en/bodhi/kn3.html" |})]
           "kn3"
           {| FetchLegacy.author_uid := "bodhi";
              FetchLegacy.path := "legacy/en/bodhi/kn3.html" |}
           eq_refl).
Defined.


(** ** Strings and paths *)

Section StrFacts.

Lemma append_nil_r : forall s, s +++ "" = s.
Proof. induction s as [|c s IH]; simpl; [reflexivity | rewrite IH; reflexivity]. Qed.

Lemma append_assoc : forall s t u, (s +++ t) +++ u = s +++ (t +++ u).
Proof. induction s as [|c s IH]; intros; simpl; [reflexivity | rewrite IH; reflexivity]. Qed.

Lemma length_append : forall s t,
  String.length (s +++ t) = String.length s + String.length t.
Proof. induction s as [|c s IH]; intros; simpl; [reflexivity | rewrite IH; reflexivity]. Qed.

Lemma has_char_append : forall c s t,
  Str.has_char c (s +++ t) = Str.has_char c s || Str.has_char c t.
Proof.
  intros c. induction s as [|d s IH]; intros t; simpl; [reflexivity|].
  rewrite IH. apply orb_assoc.
Qed.

Lemma has_char_drop : forall c n s,
  Str.has_char c s = false -> Str.has_char c (Str.drop n s) = false.
Proof.
  intros c. induction n as [|n IH]; intros [|d s] H; simpl in *; auto.
  apply orb_false_iff in H. apply IH. apply H.
Qed.

(** A replacement leaves the string alone or puts the new text
    somewhere in it. *)
Lemma replace_cases : forall old new s,
  Str.replace old new s = s \/
  exists pre post, Str.replace old new s = pre +++ new +++ post.
Proof.
  intros old new. induction s as [|c s IH].
  - cbn [Str.replace]. destruct (Str.startsWith old "").
    + right. exists "", (Str.drop (String.length old) ""). reflexivity.
    + left. reflexivity.
  - cbn [Str.replace]. destruct (Str.startsWith old (String c s)).
    + right. exists "", (Str.drop (String.length old) (String c s)). reflexivity.
    + destruct IH as [IH|[pre [post IH]]].
      * left. rewrite IH. reflexivity.
      * right. exists (String c pre), post. rewrite IH. reflexivity.
Qed.

Lemma has_char_replace : forall c old new s,
  Str.has_char c s = false -> Str.has_char c new = false ->
  Str.has_char c (Str.replace old new s) = false.
Proof.
  intros c old new. induction s as [|d s IH]; intros Hs Hn.
  - cbn [Str.replace]. destruct (Str.startsWith old "").
    + rewrite has_char_append, Hn. apply has_char_drop. reflexivity.
    + reflexivity.
  - cbn [Str.replace]. destruct (Str.startsWith old (String d s)).
    + rewrite has_char_append, Hn. apply has_char_drop. exact Hs.
    + simpl in *. apply orb_false_iff in Hs. destruct Hs as [Hd Hs].
      rewrite Hd. apply IH; assumption.
Qed.

Lemma split_aux_plain : forall c s cur,
  Str.has_char c s = false -> Str.split_aux c cur s = [cur +++ s].
Proof.
  intros c. induction s as [|d s IH]; intros cur H; simpl in *.
  - rewrite append_nil_r. reflexivity.
  - apply orb_false_iff in H. destruct H as [Hd Hs]. rewrite Hd.
    rewrite (IH _ Hs), append_assoc. reflexivity.
Qed.

Lemma split_aux_sep : forall c s cur rest,
  Str.has_char c s = false ->
  Str.split_aux c cur (s +++ String c rest)
  = (cur +++ s) :: Str.split_aux c "" rest.
Proof.
  intros c. induction s as [|d s IH]; intros cur rest H; simpl in *.
  - rewrite Ascii.eqb_refl, append_nil_r. reflexivity.
  - apply orb_false_iff in H. destruct H as [Hd Hs]. rewrite Hd.
    rewrite (IH _ _ Hs), append_assoc. reflexivity.
Qed.

(** Splitting undoes joining, for segments without a separator. *)
Lemma split_join : forall segs,
  segs <> [] ->
  Forall (fun s => Str.has_char "/" s = false) segs ->
  Str.split "/" (Str.join "/" segs) = segs.
Proof.
  unfold Str.split, Str.join.
  induction segs as [|s r IH]; intros Hne Hall; [congruence|].
  inversion Hall as [|? ? Hs Hr]; subst.
  destruct r as [|s' r'].
  - simpl. apply split_aux_plain. exact Hs.
  - change (String.concat "/" (s :: s' :: r'))
      with (s +++ String "/" (String.concat "/" (s' :: r'))).
    rewrite split_aux_sep by exact Hs. simpl (EmptyString +++ s).
    f_equal. apply IH; [discriminate | exact Hr].
Qed.

End StrFacts.

Section PathFacts.

Lemma norm_no_dotdot : forall segs stack,
  Forall (fun s => s <> "..") segs ->
  Path.norm stack segs = rev stack ++ filter kept segs.
Proof.
  induction segs as [|s r IH]; intros stack H; simpl.
  - rewrite app_nil_r. reflexivity.
  - inversion H as [|? ? Hs Hr]; subst. unfold kept at 1.
    destruct (String.eqb s "" || String.eqb s "."); simpl.
    + apply IH. exact Hr.
    + apply String.eqb_neq in Hs. rewrite Hs.
      rewrite (IH _ Hr). simpl. rewrite <- app_assoc. reflexivity.
Qed.

Lemma join_no_dotdot : forall base parts,
  Forall (fun s => s <> "..") (flat_map Path.segments parts) ->
  Path.join base parts = base ++ filter kept (flat_map Path.segments parts).
Proof.
  intros base parts H. unfold Path.join.
  rewrite (norm_no_dotdot _ H), rev_involutive. reflexivity.
Qed.

Lemma name_ok_spec : forall s,
  Path.name_ok s = true ->
  s <> "" /\ s <> "." /\ s <> ".." /\ Str.has_char "/" s = false.
Proof.
  intros s H. unfold Path.name_ok, Path.nonempty in H.
  repeat (apply andb_true_iff in H; destruct H as [H ?]).
  repeat split;
    try (apply String.eqb_neq; apply negb_true_iff; assumption).
  apply negb_true_iff. assumption.
Qed.

Lemma segments_name : forall s,
  Str.has_char "/" s = false -> Path.segments s = [s].
Proof. intros s H. unfold Path.segments, Str.split. apply split_aux_plain. exact H. Qed.

Lemma BILARA_BASE_eq : forall server_dir,
  App.BILARA_BASE server_dir = server_dir ++ ["data"; "bilara-data-published"].
Proof.
  intros. unfold App.BILARA_BASE.
  assert (Hs : flat_map Path.segments ["data/bilara-data-published"]
               = ["data"; "bilara-data-published"]) by (vm_compute; reflexivity).
  rewrite join_no_dotdot; rewrite Hs.
  - reflexivity.
  - repeat constructor; discriminate.
Qed.

End PathFacts.
(** ** Where the resolver reads translations and comments *)

Section EnglishOnly.

Import BuildIndex App.

(** Induction over trees. *)
Section NodeInduction.
Variable P : node -> Prop.
Hypothesis HF : forall f, P (File f).
Hypothesis HD : forall d cs, Forall P cs -> P (Dir d cs).

Fixpoint node_induction (n : node) : P n :=
  match n with
  | File f => HF f
  | Dir d cs =>
      HD d
        ((fix all (l : list node) : Forall P l :=
            match l with
            | [] => Forall_nil P
            | x :: r => Forall_cons x (node_induction x) (all r)
            end) cs)
  end.
End NodeInduction.

Lemma walk_node_ok : forall n,
  node_ok n = true -> Forall clean_path (walk_node n).
Proof.
  induction n as [f | d cs IH] using node_induction; intros H; simpl in *.
  - repeat constructor; [discriminate | exact H].
  - apply andb_true_iff in H. destruct H as [Hd Hcs].
    apply Forall_map. apply Forall_flat_map.
    rewrite forallb_forall in Hcs. rewrite Forall_forall in IH |- *.
    intros x Hx. specialize (IH x Hx (Hcs x Hx)).
    rewrite Forall_forall in IH |- *. intros segs Hs.
    destruct (IH segs Hs) as [Hne Hall].
    split; [discriminate | constructor; assumption].
Qed.

Lemma translation_files_ok : forall c a segs,
  corpus_ok c = true ->
  In (a, segs) (translation_files c) ->
  Path.name_ok a = true /\ clean_path segs.
Proof.
  intros c a segs Hok Hin. unfold corpus_ok, translation_files in *.
  destruct (translation_dir c) as [authors|]; [|contradiction].
  apply in_flat_map in Hin. destruct Hin as [n [Hn Hin]].
  rewrite forallb_forall in Hok. specialize (Hok n Hn).
  destruct n as [f|d cs]; simpl in *; [contradiction|].
  apply in_map_iff in Hin. destruct Hin as [segs' [Heq Hin]].
  injection Heq as <- <-.
  apply andb_true_iff in Hok. destruct Hok as [Hd Hcs].
  split; [exact Hd|].
  unfold walkSync in Hin. apply in_flat_map in Hin.
  destruct Hin as [x [Hx Hin]].
  rewrite forallb_forall in Hcs.
  pose proof (walk_node_ok x (Hcs x Hx)) as Hw.
  rewrite Forall_forall in Hw. apply Hw. exact Hin.
Qed.

Lemma clean_no_slash : forall segs,
  Forall (fun s => Path.name_ok s = true) segs ->
  Forall (fun s => Str.has_char "/" s = false) segs.
Proof.
  intros segs H. eapply Forall_impl; [|exact H].
  intros s Hs. apply (name_ok_spec s Hs).
Qed.

Lemma clean_no_dotdot : forall segs,
  Forall (fun s => Path.name_ok s = true) segs ->
  Forall (fun s => s <> "..") segs.
Proof.
  intros segs H. eapply Forall_impl; [|exact H].
  intros s Hs. apply (name_ok_spec s Hs).
Qed.

Lemma clean_kept : forall segs,
  Forall (fun s => Path.name_ok s = true) segs -> filter kept segs = segs.
Proof.
  induction 1 as [|s r Hs Hr IH]; simpl; [reflexivity|].
  destruct (name_ok_spec s Hs) as [H1 [H2 _]].
  assert (Hk : kept s = true).
  { apply String.eqb_neq in H1, H2. unfold kept. rewrite H1, H2. reflexivity. }
  rewrite Hk, IH. reflexivity.
Qed.

Lemma clean_nonempty : forall segs,
  Forall (fun s => Path.name_ok s = true) segs ->
  filter Path.nonempty segs = segs.
Proof.
  induction 1 as [|s r Hs Hr IH]; simpl; [reflexivity|].
  destruct (name_ok_spec s Hs) as [H1 _].
  apply String.eqb_neq in H1. unfold Path.nonempty at 1. rewrite H1. simpl.
  rewrite IH. reflexivity.
Qed.

Lemma segments_relative_path : forall segs,
  clean_path segs -> Path.segments (relative_path segs) = segs.
Proof.
  intros segs [Hne Hall]. unfold Path.segments, relative_path.
  apply split_join; [exact Hne | apply clean_no_slash; exact Hall].
Qed.

Variable server_dir : list string.

(** The translation of a walked file is read from the [en] tree, under
    the directory of its author, at the place the file was found. *)
Lemma translation_path_eq : forall a segs,
  Path.name_ok a = true -> clean_path segs ->
  translation_path server_dir a (relative_path segs)
  = BILARA_BASE server_dir ++ ["translation"; "en"; a] ++ segs.
Proof.
  intros a segs Ha Hs. unfold translation_path.
  assert (Hall := proj2 Hs).
  assert (Hseg : flat_map Path.segments ["translation/en"; a; relative_path segs]
                 = ["translation"; "en"; a] ++ segs).
  { cbn [flat_map]. rewrite (segments_relative_path Hs), app_nil_r.
    rewrite (segments_name a) by apply (name_ok_spec a Ha). reflexivity. }
  assert (Hc : Forall (fun s => Path.name_ok s = true) (["translation"; "en"; a] ++ segs)).
  { repeat constructor; assumption. }
  rewrite join_no_dotdot; rewrite Hseg.
  - rewrite (clean_kept Hc). reflexivity.
  - apply clean_no_dotdot. exact Hc.
Qed.

Lemma long_name : forall s,
  3 <= String.length s -> s <> ".." /\ kept s = true.
Proof.
  intros [|a [|b [|c s]]] H; simpl in H; try lia.
  split; [discriminate|].
  unfold kept. destruct a as [[] [] [] [] [] [] [] []]; reflexivity.
Qed.

(** The name of the comment file of a translation file. *)
Lemma comment_name_ok : forall s,
  Path.name_ok s = true ->
  let s' := Str.replace "translation-" "comment-" s in
  Str.has_char "/" s' = false /\ s' <> ".." /\ kept s' = true.
Proof.
  intros s Hs s'. destruct (name_ok_spec s Hs) as [H1 [H2 [H3 H4]]].
  split; [apply has_char_replace; [exact H4 | reflexivity]|].
  destruct (replace_cases "translation-" "comment-" s) as [E|[pre [post E]]];
    unfold s'; rewrite E.
  - split; [exact H3|]. unfold kept.
    apply String.eqb_neq in H1, H2. rewrite H1, H2. reflexivity.
  - apply long_name. rewrite !length_append. simpl. lia.
Qed.

(** The comment of a walked translation file is read from the [en] tree
    of the comments, under the directory of the same author. *)
Lemma comment_path_eq : forall a segs,
  Path.name_ok a = true -> clean_path segs ->
  comment_path server_dir a (relative_path segs)
  = BILARA_BASE server_dir ++ ["comment"; "en"; a] ++ removelast segs
    ++ [Str.replace "translation-" "comment-" (last segs "")].
Proof.
  intros a segs Ha Hs. unfold comment_path.
  destruct Hs as [Hne Hall]. assert (Hs : clean_path segs) by (split; assumption).
  pose proof (app_removelast_last "" Hne) as Hsplit.
  assert (Hparts : Forall (fun s => Path.name_ok s = true) (removelast segs)
                   /\ Path.name_ok (last segs "") = true).
  { rewrite Hsplit in Hall. apply Forall_app in Hall. destruct Hall as [H1 H2].
    split; [exact H1 | inversion H2; assumption]. }
  destruct Hparts as [Hd Hl].
  destruct (comment_name_ok _ Hl) as [Hc1 [Hc2 Hc3]].
  assert (Hbase : Path.basename (relative_path segs) = last segs "").
  { unfold Path.basename. rewrite (segments_relative_path Hs), (clean_nonempty Hall).
    reflexivity. }
  assert (Hdir : Path.segments (Path.dirname (relative_path segs)) = removelast segs
                 \/ (Path.segments (Path.dirname (relative_path segs)) = ["."]
                     /\ removelast segs = [])).
  { unfold Path.dirname. rewrite (segments_relative_path Hs), (clean_nonempty Hall).
    destruct (removelast segs) as [|d0 dr] eqn:Ed.
    - right. split; reflexivity.
    - left. rewrite <- Ed in *. unfold Path.segments.
      destruct (removelast segs) as [|x y] eqn:Ex; [discriminate|].
      apply split_join; [discriminate | apply clean_no_slash; exact Hd]. }
  rewrite join_no_dotdot.
  - cbn [flat_map]. rewrite Hbase, (segments_name _ Hc1), app_nil_r.
    rewrite (segments_name a) by apply (name_ok_spec a Ha).
    change (Path.segments "comment/en") with ["comment"; "en"].
    rewrite !filter_app.
    destruct (name_ok_spec a Ha) as [Ha1 [Ha2 _]].
    assert (Hka : filter kept [a] = [a]).
    { apply (clean_kept (segs := [a])). repeat constructor. exact Ha. }
    rewrite Hka. simpl (filter kept [_]). rewrite Hc3.
    destruct Hdir as [Hdir|[Hdir Hnil]]; rewrite Hdir.
    + rewrite (clean_kept Hd). reflexivity.
    + rewrite Hnil. reflexivity.
  - cbn [flat_map]. rewrite Hbase, (segments_name _ Hc1), app_nil_r.
    rewrite (segments_name a) by apply (name_ok_spec a Ha).
    change (Path.segments "comment/en") with ["comment"; "en"].
    repeat (apply Forall_app; split).
    + repeat constructor; discriminate.
    + constructor; [apply (name_ok_spec a Ha) | constructor].
    + destruct Hdir as [Hdir|[Hdir Hnil]]; rewrite Hdir.
      * apply clean_no_dotdot. exact Hd.
      * repeat constructor. discriminate.
    + constructor; [exact Hc2 | constructor].
Qed.

End EnglishOnly.
(** ** The resolver *)

Section ResolverFacts.

Import BuildIndex App.

Variable json : Type.
Variable json_truthy : json -> bool.
Variable empty_object : json.
Variable server_dir : list string.
Variable disk : list string -> file_state json.
Variable suttaIndex : index.
Variable authorMeta : Js.obj author_meta.
Variable publicationMeta : Js.obj publication.

Lemma get_Own : forall A (o : Js.obj A) k a,
  Js.get o k = Js.Own a -> Js.own o k = Some a.
Proof.
  intros A o k a H. unfold Js.get in H.
  destruct (Js.own o k); [congruence|].
  destruct (Js.is_proto_name k); discriminate.
Qed.

Lemma select_author_own : forall t req a p,
  select_author t req = Some (a, Js.Own p) -> Js.own t a = Some p.
Proof.
  intros t req a p H. unfold select_author in H.
  destruct (Js.keys t) as [|first rest]; [discriminate|].
  injection H as <- H. apply get_Own. exact H.
Qed.

(** The translation and the comment are read for an author and a path the
    entry lists. *)
Lemma assemble_reads : forall u req r t f p,
  In (f, p)
     (fst (assemble json_truthy empty_object server_dir disk authorMeta
             publicationMeta u req r t)) ->
  (f = FTranslation ->
     exists a rel, Js.own t a = Some rel /\ p = translation_path server_dir a rel)
  /\
  (f = FComment ->
     exists a rel, Js.own t a = Some rel /\ p = comment_path server_dir a rel).
Proof.
  intros u req r t f p. unfold assemble.
  destruct (select_author t req) as [[a [rel|k|]]|] eqn:Hsel;
    destruct (truthy_root r) as [rp|]; simpl;
    try destruct (Js.truthy_str a); simpl;
    try destruct (Js.truthy_str rel); simpl;
    intros Hin;
    repeat match goal with
           | H : _ \/ _ |- _ => destruct H
           | H : False |- _ => destruct H
           | H : (_, _) = (_, _) |- _ => injection H as <- <-
           end;
    split; intros E; try discriminate;
    exists a, rel; (split; [exact (select_author_own _ _ Hsel) | reflexivity]).
Qed.

Lemma resolve_reads : forall u req f p,
  In (f, p)
     (fst (resolve json_truthy empty_object server_dir disk suttaIndex
             authorMeta publicationMeta u req)) ->
  (f = FTranslation \/ f = FComment) ->
  exists e a rel,
    Js.own suttaIndex u = Some e /\ Js.own (translations e) a = Some rel /\
    ((f = FTranslation /\ p = translation_path server_dir a rel) \/
     (f = FComment /\ p = comment_path server_dir a rel)).
Proof.
  intros u req f p Hin Hf. unfold resolve in Hin.
  destruct (Js.get suttaIndex u) as [e|k|] eqn:Hg.
  - apply get_Own in Hg.
    destruct (assemble_reads _ _ _ _ _ _ Hin) as [H1 H2].
    destruct Hf as [Hf|Hf].
    + destruct (H1 Hf) as [a [rel [Ho Hp]]]. exists e, a, rel. auto.
    + destruct (H2 Hf) as [a [rel [Ho Hp]]]. exists e, a, rel. auto.
  - destruct (assemble_reads _ _ _ _ _ _ Hin) as [H1 H2].
    destruct Hf as [Hf|Hf];
      [destruct (H1 Hf) as [a [rel [Ho _]]] | destruct (H2 Hf) as [a [rel [Ho _]]]];
      discriminate.
  - contradiction.
Qed.

End ResolverFacts.

(** Every translation of the written index is a file found below an author
    directory of [translation/en] whose name contains the mark. *)
Lemma indexed_translation_source : forall c idx uid e a p,
  BuildIndex.buildIndex c = Some idx ->
  Js.own idx uid = Some e ->
  Js.own (BuildIndex.translations e) a = Some p ->
  exists segs,
    In (a, segs) (translation_files c) /\
    Str.includes "_translation-en-" (BuildIndex.file_name segs) = true /\
    BuildIndex.translation_uid segs = uid /\
    p = BuildIndex.relative_path segs.
Proof.
  intros c idx uid e a p Hb Ho Ht.
  rewrite (buildIndex_own _ uid Hb) in Ho.
  assert (Hsrc : exists segs,
            In (a, segs) (filter (is_translation_of uid) (translation_files c))
            /\ p = BuildIndex.relative_path segs).
  { destruct (with_translations_source _ _ _ Ho Ht) as [[e' [He' Ht']]|H];
      [|exact H].
    destruct (Js.is_proto_name uid); [discriminate|].
    destruct (first_root (root_files c) uid); [|discriminate].
    injection He' as <-. discriminate. }
  destruct Hsrc as [segs [Hin Hp]].
  apply filter_In in Hin. destruct Hin as [Hin Hof].
  unfold is_translation_of in Hof. simpl in Hof.
  apply andb_true_iff in Hof. destruct Hof as [Hfile Huid].
  apply String.eqb_eq in Huid.
  exists segs. repeat split; auto.
Qed.

(** C10: in the index the builder writes, every translation of every entry
    is the relative path of a file found below the directory of its author
    in [translation/en] whose name contains [_translation-en-]; and when
    the server answers from that index, whatever the identifier and the
    author asked for, every file it reads for the translation facet lies
    below [translation/en/<author>] and every file it reads for the
    comment facet lies below [comment/en/<author>] of the data directory. *)
Theorem only_english_translations :
  forall c idx,
    BuildIndex.buildIndex c = Some idx ->
    (forall uid e a p,
       Js.own idx uid = Some e ->
       Js.own (BuildIndex.translations e) a = Some p ->
       exists segs,
         In (a, segs) (translation_files c) /\
         Str.includes "_translation-en-" (BuildIndex.file_name segs) = true /\
         BuildIndex.translation_uid segs = uid /\
         p = BuildIndex.relative_path segs)
    /\
    (corpus_ok c = true ->
     forall (json : Type) json_truthy (empty_object : json) server_dir disk
            authorMeta publicationMeta u requestedAuthor f p,
       In (f, p)
          (fst (App.resolve json_truthy empty_object server_dir disk idx
                  authorMeta publicationMeta u requestedAuthor)) ->
       (f = App.FTranslation ->
          exists a rest,
            p = server_dir ++ ["data"; "bilara-data-published"]
                ++ ["translation"; "en"; a] ++ rest)
       /\
       (f = App.FComment ->
          exists a rest,
            p = server_dir ++ ["data"; "bilara-data-published"]
                ++ ["comment"; "en"; a] ++ rest)).
Proof.
  intros c idx Hb. split.
  - intros uid e a p. apply indexed_translation_source. exact Hb.
  - intros Hok json json_truthy empty_object server_dir disk am pm u req f p Hin.
    assert (Hsrc : f = App.FTranslation \/ f = App.FComment ->
              exists a segs,
                Path.name_ok a = true /\ clean_path segs /\
                ((f = App.FTranslation /\
                  p = App.translation_path server_dir a (BuildIndex.relative_path segs))
                 \/ (f = App.FComment /\
                     p = App.comment_path server_dir a (BuildIndex.relative_path segs)))).
    { intros Hf.
      destruct (@resolve_reads _ _ _ _ _ _ _ _ _ _ _ _ Hin Hf)
        as [e [a [rel [Ho [Ht Hp]]]]].
      destruct (indexed_translation_source _ _ _ Hb Ho Ht) as [segs [Hsegs [_ [_ ->]]]].
      destruct (translation_files_ok _ _ _ Hok Hsegs) as [Ha Hc].
      exists a, segs. auto. }
    split; intros Hf.
    + destruct Hsrc as [a [segs [Ha [Hc [[_ ->]|[E _]]]]]]; [left; exact Hf| |congruence].
      exists a, segs.
      rewrite (@translation_path_eq server_dir a segs Ha Hc), BILARA_BASE_eq, <- app_assoc.
      reflexivity.
    + destruct Hsrc as [a [segs [Ha [Hc [[E _]|[_ ->]]]]]]; [right; exact Hf|congruence|].
      eexists a, _.
      rewrite (@comment_path_eq server_dir a segs Ha Hc), BILARA_BASE_eq, <- app_assoc.
      reflexivity.
Qed.

Lemma dn1_index_built : BuildIndex.buildIndex dn1_corpus = Some dn1_index.
Proof. reflexivity. Qed.

Lemma only_english_translations_witness :
  (exists segs,
     In ("sujato", segs) (translation_files dn1_corpus) /\
     Str.includes "_translation-en-" (BuildIndex.file_name segs) = true /\
     BuildIndex.translation_uid segs = "dn1" /\
     "sutta/dn/dn1_translation-en-sujato.json" = BuildIndex.relative_path segs)
  /\
  (exists a rest,
     ["srv"; "data"; "bilara-data-published"; "comment"; "en"; "sujato";
      "sutta"; "dn"; "dn1_comment-en-sujato.json"]
     = ["srv"] ++ ["data"; "bilara-data-published"] ++ ["comment"; "en"; a] ++ rest).
Proof.
  split.
  - apply (proj1 (@only_english_translations dn1_corpus dn1_index eq_refl)
             "dn1" dn1_entry "sujato" "sutta/dn/dn1_translation-en-sujato.json"
             eq_refl eq_refl).
  - apply (proj2 (@only_english_translations dn1_corpus dn1_index eq_refl)
             eq_refl unit (fun _ => true) tt ["srv"] (fun _ => App.Missing) [] []
             "dn1" (Some "bodhi") App.FComment).
    + vm_compute. do 3 right. left. reflexivity.
    + reflexivity.
Defined.

Section PolicyFacts.

Import BuildIndex App.

Lemma among_keys : forall A (o : Js.obj A) a,
  existsb (String.eqb a) (Js.keys o) =
  match Js.own o a with Some _ => true | None => false end.
Proof.
  induction o as [|[k v] r IH]; intros a; simpl; [reflexivity|].
  destruct (String.eqb a k); [reflexivity | apply IH].
Qed.

Lemma has_translation_spec : forall t a,
  has_translation t a =
  match Js.own t a with
  | Some p => Js.truthy_str p
  | None => Js.is_proto_name a
  end.
Proof.
  intros t a. unfold has_translation, Js.get.
  destruct (Js.own t a); [reflexivity|].
  destruct (Js.is_proto_name a); reflexivity.
Qed.

(** X1: for a translations map whose paths are not empty and that has no
    author with an empty name, and for a request that does not name an
    inherited member, the handler selects the author the policy of the
    specification selects. *)
Lemma select_author_policy : forall t req,
  (forall a p, Js.own t a = Some p -> p <> "") ->
  Js.own t "" = None ->
  (forall r, req = Some r -> Js.is_proto_name r = false \/ Js.own t r <> None) ->
  option_map fst (select_author t req) = author_policy (Js.keys t) req.
Proof.
  intros t req Hpaths Hempty Hreq.
  assert (Hemp : existsb (String.eqb "") (Js.keys t) = false)
    by (rewrite among_keys, Hempty; reflexivity).
  assert (Hhas : forall a,
            Js.is_proto_name a = false \/ Js.own t a <> None ->
            has_translation t a = existsb (String.eqb a) (Js.keys t)).
  { intros a Ha. rewrite has_translation_spec, among_keys.
    destruct (Js.own t a) as [p|] eqn:Ho.
    - unfold Js.truthy_str. specialize (Hpaths a p Ho).
      apply String.eqb_neq in Hpaths. rewrite Hpaths. reflexivity.
    - destruct Ha as [Ha|Ha]; [exact Ha | congruence]. }
  unfold select_author, author_policy.
  destruct (Js.keys t) as [|first rest]; [reflexivity|].
  cbn [option_map fst]. f_equal.
  rewrite (Hhas "sujato") by (left; reflexivity).
  rewrite (Hhas "brahmali") by (left; reflexivity).
  destruct req as [r|]; [|reflexivity].
  rewrite (Hhas r) by (apply Hreq; reflexivity).
  destruct (Js.truthy_str r) eqn:Hr; [reflexivity|].
  unfold Js.truthy_str in Hr. apply negb_false_iff, String.eqb_eq in Hr. subst r.
  cbn [andb]. rewrite Hemp. reflexivity.
Qed.

Variable json : Type.
Variable json_truthy : json -> bool.
Variable empty_object : json.
Variable server_dir : list string.
Variable disk : list string -> file_state json.
Variable suttaIndex : index.
Variable authorMeta : Js.obj author_meta.
Variable publicationMeta : Js.obj publication.

Let resolve := resolve json_truthy empty_object server_dir disk suttaIndex
                 authorMeta publicationMeta.
Let assemble := assemble json_truthy empty_object server_dir disk
                  authorMeta publicationMeta.

(** A facet whose file is missing or does not parse is the empty
    object. *)
Lemma read_or_empty_absent : forall p,
  disk p = Missing \/ disk p = Unparsable ->
  read_or_empty json_truthy empty_object disk p = empty_object.
Proof.
  intros p [H|H]; unfold read_or_empty, readJson; rewrite H; reflexivity.
Qed.

(** With no translation in the entry nobody is selected and the facets
    that depend on the translation are empty. *)
Lemma assemble_no_translations : forall u req r,
  exists b,
    snd (assemble u req r []) = Ok b /\
    author_uid b = None /\ available_authors b = [] /\
    translation_text b = empty_object /\ comment_text b = empty_object.
Proof.
  intros u req r. unfold assemble, App.assemble. simpl.
  eexists. split; [reflexivity|]. simpl. repeat split.
Qed.

(** X3: an identifier that has an entry in the index is answered with a
    bundle, unless the request names an inherited member as the author. *)
Lemma resolve_entry : forall u req e,
  Js.own suttaIndex u = Some e ->
  (forall r, req = Some r ->
     Js.is_proto_name r = false \/ Js.own (translations e) r <> None) ->
  exists b, snd (resolve u req) = Ok b.
Proof.
  intros u req e Ho Hreq. unfold resolve, App.resolve.
  rewrite (get_own _ _ Ho). unfold App.assemble.
  destruct (select_author (translations e) req) as [[a [p|k|]]|] eqn:Hsel;
    simpl; try (destruct (Js.truthy_str a && Js.truthy_str p)); simpl;
    try (eexists; reflexivity).
  destruct (Js.truthy_str a); simpl; [|eexists; reflexivity].
  exfalso. unfold select_author in Hsel.
  destruct (Js.keys (translations e)) as [|first rest] eqn:Hk; [discriminate|].
  injection Hsel as Ha Hg. rewrite Ha in Hg.
  assert (Hnp : Js.own (translations e) a = None /\ Js.is_proto_name a = true).
  { unfold Js.get in Hg. destruct (Js.own (translations e) a); [discriminate|].
    destruct (Js.is_proto_name a); [auto | discriminate]. }
  destruct Hnp as [Hn Hp].
  assert (Hfirst : Js.own (translations e) first <> None).
  { apply own_keys. rewrite Hk. left. reflexivity. }
  assert (Hfb : (if has_translation (translations e) "sujato" then "sujato"
                 else if has_translation (translations e) "brahmali" then "brahmali"
                 else first) <> a).
  { destruct (has_translation (translations e) "sujato");
      [intros <-; discriminate|].
    destruct (has_translation (translations e) "brahmali");
      [intros <-; discriminate|].
    intros <-. contradiction. }
  destruct req as [r|]; [|contradiction].
  destruct (Js.truthy_str r && has_translation (translations e) r); [|contradiction].
  subst r. destruct (Hreq a eq_refl); congruence.
Qed.

(** X2: an identifier that is not the name of an inherited member is
    answered with [NotFound] if and only if the index has no entry for
    it. *)
Lemma resolve_not_found : forall u req,
  Js.is_proto_name u = false ->
  (snd (resolve u req) = NotFound json <-> Js.own suttaIndex u = None).
Proof.
  intros u req Hp. unfold resolve, App.resolve, Js.get. rewrite Hp.
  destruct (Js.own suttaIndex u) as [e|]; split; intros H;
    try reflexivity; try discriminate.
  exfalso. unfold App.assemble in H.
  destruct (select_author (translations e) req) as [[a [p|k|]]|];
    simpl in H; try (destruct (Js.truthy_str a && Js.truthy_str p));
    try (destruct (Js.truthy_str a)); simpl in H; discriminate.
Qed.

End PolicyFacts.

Lemma select_author_policy_witness :
  option_map fst
    (App.select_author [("brahmali", "vinaya/pli-tv-kd1_translation-en-brahmali.json");
                        ("other", "vinaya/pli-tv-kd1_translation-en-other.json")]
       (Some "sujato"))
  = author_policy ["brahmali"; "other"] (Some "sujato").
Proof.
  apply (@select_author_policy
           [("brahmali", "vinaya/pli-tv-kd1_translation-en-brahmali.json");
            ("other", "vinaya/pli-tv-kd1_translation-en-other.json")]
           (Some "sujato")).
  - intros a p H. simpl in H.
    destruct (String.eqb a "brahmali"); [injection H as <-; discriminate|].
    destruct (String.eqb a "other"); [injection H as <-; discriminate | discriminate].
  - reflexivity.
  - intros r H. injection H as <-. left. reflexivity.
Defined.

Lemma resolve_not_found_witness :
  snd (App.resolve (fun _ : unit => true) tt ["srv"] (fun _ => App.Missing)
         dn1_index [] [] "dn2" None) = App.NotFound unit
  <-> Js.own dn1_index "dn2" = None.
Proof.
  apply (@resolve_not_found unit (fun _ => true) tt ["srv"] (fun _ => App.Missing)
           dn1_index [] [] "dn2" None).
  reflexivity.
Defined.

Lemma resolve_entry_witness :
  exists b,
    snd (App.resolve (fun _ : unit => true) tt ["srv"] (fun _ => App.Missing)
           dn1_index [] [] "dn1" (Some "bodhi")) = App.Ok b.
Proof.
  apply (@resolve_entry unit (fun _ => true) tt ["srv"] (fun _ => App.Missing)
           dn1_index [] [] "dn1" (Some "bodhi") dn1_entry eq_refl).
  intros r H. injection H as <-. left. reflexivity.
Defined.

(** ** The entries of the index and the files of the corpus *)

Section EntriesFacts.

Import BuildIndex.

(** X4: apart from the names of inherited members, the written index has
    an entry for an identifier if and only if the walks found a root file
    or a translation file of that identifier. *)
Lemma indexed_iff_discovered : forall c idx uid,
  buildIndex c = Some idx ->
  Js.is_proto_name uid = false ->
  (Js.own idx uid <> None <->
   (exists f, In f (root_files c) /\ is_root_file f = true /\ root_uid f = uid)
   \/ (exists a f, In (a, f) (translation_files c) /\
                   is_translation_file f = true /\ translation_uid f = uid)).
Proof.
  intros c idx uid Hb Hp. rewrite (buildIndex_own _ uid Hb), Hp.
  split.
  - intros H.
    destruct (filter (is_translation_of uid) (translation_files c))
      as [|[a f] mr] eqn:Em.
    + left. simpl in H. unfold first_root in H.
      destruct (find _ (root_files c)) as [f|] eqn:Ef; [|contradiction].
      apply find_some in Ef. destruct Ef as [Hin Hf].
      apply andb_true_iff in Hf. destruct Hf as [Hf Hu].
      apply String.eqb_eq in Hu. exists f. auto.
    + right. assert (Hin : In (a, f) (filter (is_translation_of uid) (translation_files c)))
        by (rewrite Em; left; reflexivity).
      apply filter_In in Hin. destruct Hin as [Hin Hof].
      unfold is_translation_of in Hof. simpl in Hof.
      apply andb_true_iff in Hof. destruct Hof as [Hf Hu].
      apply String.eqb_eq in Hu. exists a, f. auto.
  - intros [[f [Hin [Hf Hu]]] | [a [f [Hin [Hf Hu]]]]].
    + destruct (filter (is_translation_of uid) (translation_files c));
        [|discriminate].
      simpl. unfold first_root.
      destruct (find _ (root_files c)) as [g|] eqn:Eg; [discriminate|].
      exfalso. apply (find_none _ _ Eg) in Hin.
      rewrite Hf, Hu, String.eqb_refl in Hin. discriminate.
    + assert (Hm : In (a, f) (filter (is_translation_of uid) (translation_files c))).
      { apply filter_In. split; [exact Hin|].
        unfold is_translation_of. simpl. rewrite Hf, Hu, String.eqb_refl. reflexivity. }
      destruct (filter (is_translation_of uid) (translation_files c));
        [contradiction | discriminate].
Qed.

Lemma add_translation_nonempty : forall t af,
  fst af <> "__proto__" -> add_translation t af <> [].
Proof.
  intros t [a f] Ha Hnil. simpl in Ha.
  assert (H : Js.own (add_translation t (a, f)) a = Some (relative_path f)).
  { unfold add_translation. simpl. rewrite own_set_prim.
    apply String.eqb_neq in Ha. rewrite Ha, String.eqb_refl. reflexivity. }
  rewrite Hnil in H. discriminate.
Qed.

(** X5: unless an author directory is called [__proto__], an entry of the
    written index that has no root has a translation. *)
Lemma rootless_entry_has_translation : forall c idx uid e,
  buildIndex c = Some idx ->
  (forall a f, In (a, f) (translation_files c) -> a <> "__proto__") ->
  Js.own idx uid = Some e ->
  root e = None ->
  translations e <> [].
Proof.
  intros c idx uid e Hb Hnames Ho Hr.
  rewrite (buildIndex_own _ uid Hb) in Ho.
  assert (Hsub : forall af,
            In af (filter (is_translation_of uid) (translation_files c)) ->
            fst af <> "__proto__").
  { intros [a f] Hin. apply filter_In in Hin. apply (Hnames a f), Hin. }
  destruct (filter (is_translation_of uid) (translation_files c)) as [|m0 mr] eqn:Em.
  - simpl in Ho. destruct (Js.is_proto_name uid); [discriminate|].
    destruct (first_root (root_files c) uid); [|discriminate].
    injection Ho as <-. discriminate.
  - rewrite <- Em in *. unfold with_translations in Ho. rewrite Em in Ho at 1.
    injection Ho as <-. cbn [translations].
    destruct (exists_last (l := filter (is_translation_of uid) (translation_files c)))
      as [front [x Hx]]; [rewrite Em; discriminate|].
    rewrite Hx, fold_left_app. simpl.
    apply add_translation_nonempty. apply Hsub. rewrite Hx.
    apply in_or_app. right. left. reflexivity.
Qed.

End EntriesFacts.

Lemma indexed_iff_discovered_witness :
  Js.own dn1_index "dn1" <> None <->
  (exists f, In f (root_files dn1_corpus) /\ BuildIndex.is_root_file f = true /\
             BuildIndex.root_uid f = "dn1")
  \/ (exists a f, In (a, f) (translation_files dn1_corpus) /\
                  BuildIndex.is_translation_file f = true /\
                  BuildIndex.translation_uid f = "dn1").
Proof.
  apply (@indexed_iff_discovered dn1_corpus dn1_index "dn1" eq_refl eq_refl).
Defined.

Lemma rootless_entry_has_translation_witness :
  BuildIndex.translations
    {| BuildIndex.root := None;
       BuildIndex.translations := [("sujato", "kn/thag1.1_translation-en-sujato.json")] |}
  <> [].
Proof.
  apply (@rootless_entry_has_translation rootless_corpus
           [("thag1.1",
             {| BuildIndex.root := None;
                BuildIndex.translations :=
                  [("sujato", "kn/thag1.1_translation-en-sujato.json")] |})]
           "thag1.1" _ eq_refl).
  - intros a f [H|[]]. injection H as <- _. discriminate.
  - reflexivity.
  - reflexivity.
Defined.

(** ** Names inherited from [Object.prototype] *)

(** C1 at [GET /api/suttas/dn1?author=toString]: the entry of [dn1] has the
    one translation [sujato] and none called [toString], so the policy asks
    for [sujato]; the handler reads the inherited [toString] of the
    translations object as a translation, selects [toString], and fails
    with an exception where it joins the paths. *)
Theorem inherited_author_is_selected :
  forall (json : Type) json_truthy (empty_object : json) server_dir disk
         authorMeta publicationMeta,
    Js.own (BuildIndex.translations dn1_entry) "toString" = None /\
    author_policy (Js.keys (BuildIndex.translations dn1_entry)) (Some "toString")
      = Some "sujato" /\
    App.select_author (BuildIndex.translations dn1_entry) (Some "toString")
      = Some ("toString", Js.Inherited "toString") /\
    snd (App.resolve json_truthy empty_object server_dir disk dn1_index
           authorMeta publicationMeta "dn1" (Some "toString"))
      = App.InternalError json.
Proof. intros. repeat split. Qed.

(** C2 at [GET /api/suttas/constructor]: the index has no entry
    [constructor], and the answer is not [NotFound] but a bundle, all of
    whose facets are empty; nothing is read from the disk. *)
Theorem inherited_identifier_is_not_rejected :
  forall (json : Type) json_truthy (empty_object : json) server_dir disk
         authorMeta publicationMeta,
    Js.own dn1_index "constructor" = None /\
    App.resolve json_truthy empty_object server_dir disk dn1_index
      authorMeta publicationMeta "constructor" None
    = ([],
       App.Ok
         {| App.uid := "constructor";
            App.author_uid := None;
            App.author_name := App.getAuthorName authorMeta None;
            App.available_authors := [];
            App.root_text := empty_object;
            App.translation_text := empty_object;
            App.html_text := empty_object;
            App.comment_text := empty_object;
            App.variant_text := empty_object;
            App.reference_text := empty_object;
            App.publication_data := None |}).
Proof. intros. split; reflexivity. Qed.

(** C3 on a corpus with the root file [sutta/constructor_root-pli-ms.json]:
    the walk finds the file, a root file of the identifier [constructor],
    and the index that is written has no entry at all. *)
Theorem inherited_identifier_is_not_indexed :
  root_files constructor_corpus = [["sutta"; "constructor_root-pli-ms.json"]] /\
  BuildIndex.is_root_file ["sutta"; "constructor_root-pli-ms.json"] = true /\
  BuildIndex.root_uid ["sutta"; "constructor_root-pli-ms.json"] = "constructor" /\
  BuildIndex.buildIndex constructor_corpus = Some [].
Proof. repeat split. Qed.

(** The translations of an author directory called [__proto__] are lost,
    and leave an entry with neither root nor translation. *)
Lemma proto_author_is_dropped :
  BuildIndex.buildIndex proto_author_corpus
  = Some [("dn1", {| BuildIndex.root := None; BuildIndex.translations := [] |})].
Proof. reflexivity. Qed.

(** A translation file of an inherited name stops the builder with an
    exception: no index is written. *)
Lemma inherited_translation_identifier_throws :
  BuildIndex.buildIndex constructor_translation_corpus = None.
Proof. reflexivity. Qed.

(** * Further properties of the code *)

(** ** The build state of the server *)

Section ServerFacts.

Import Admin Server.

Lemma appendLog_length : forall t m logs,
  length logs <= 1000 -> length (appendLog t m logs) <= 1000.
Proof.
  intros t m logs H. unfold appendLog.
  destruct (1000 <? length (logs ++ ["[" +++ t +++ "] " +++ m]))%nat eqn:E.
  - rewrite length_app in E. simpl in E.
    destruct logs as [|l0 r]; [discriminate|].
    cbn [app tl]. rewrite length_app. simpl length in *. lia.
  - apply Nat.ltb_ge in E. exact E.
Qed.

Lemma appendLog_shape : forall t m logs,
  length logs <= 1000 ->
  appendLog t m logs =
  (if (length logs =? 1000)%nat then tl logs else logs)
    ++ ["[" +++ t +++ "] " +++ m].
Proof.
  intros t m logs H. unfold appendLog.
  rewrite length_app. cbn [length].
  destruct (length logs =? 1000)%nat eqn:E.
  - apply Nat.eqb_eq in E.
    replace (1000 <? length logs + 1)%nat with true
      by (symmetry; apply Nat.ltb_lt; lia).
    destruct logs as [|l0 r]; [discriminate | reflexivity].
  - apply Nat.eqb_neq in E.
    replace (1000 <? length logs + 1)%nat with false
      by (symmetry; apply Nat.ltb_ge; lia).
    reflexivity.
Qed.

Lemma start_line_length : forall t,
  length (appendLog t "Starting new build process..." []) <= 1000.
Proof. intros t. apply appendLog_length. simpl. lia. Qed.

Lemma step_logs : forall st st',
  step st st' ->
  length (Server.buildLogs st) <= 1000 -> length (Server.buildLogs st') <= 1000.
Proof.
  intros st st' Hs IH.
  inversion Hs as [e t st0 Ht | e t st0 | b t l st0 | t c ct st0 Hc]; subst.
  - unfold bootstrap, Server.triggerOfflineBuild.
    destruct e; cbn [Server.buildLogs]; [apply start_line_length | exact IH].
  - unfold Server.post_build_offline, Server.triggerOfflineBuild.
    destruct (Server.active st); [exact IH|].
    destruct e; cbn [fst snd Server.buildProcess Server.buildLogs].
    + apply start_line_length.
    + destruct (Server.buildProcess st); exact IH.
  - cbn [Server.on_line Server.buildLogs]. apply appendLog_length. exact IH.
  - unfold Server.on_exit. cbn [Server.buildLogs].
    destruct c as [[|n]|]; repeat apply appendLog_length; exact IH.
Qed.

Lemma reachable_logs : forall b st,
  Server.reachable b st -> length (Server.buildLogs st) <= 1000.
Proof.
  induction 1 as [|st st' Hr IH Hs].
  - simpl. lia.
  - apply (step_logs Hs IH).
Qed.

(** The global holds a child only from its fork to the next exit, and no
    child is ever killed. *)
Lemma reachable_slot : forall b st,
  Server.reachable b st ->
  forall p, Server.buildProcess st = Child p ->
            killed p = false /\ exitCode p = None /\ (0 < children st)%nat.
Proof.
  induction 1 as [|st st' Hr IH Hs]; intros p Hp.
  - discriminate.
  - inversion Hs as [e t st0 Ht | e t st0 | bb t l st0 | t c ct st0 Hc]; subst.
    + unfold bootstrap, Server.triggerOfflineBuild in Hp.
      destruct e; cbn in Hp; [|discriminate].
      injection Hp as <-. cbn. repeat split. lia.
    + unfold Server.post_build_offline, Server.triggerOfflineBuild in *.
      destruct (Server.active st); [apply IH; exact Hp|].
      destruct e; cbn [fst snd Server.buildProcess] in *.
      * cbn in Hp. injection Hp as <-. cbn. repeat split. lia.
      * destruct (Server.buildProcess st) eqn:E; cbn [snd] in *;
          rewrite <- E in *; apply IH; exact Hp.
    + cbn in Hp. cbn [Server.on_line children]. apply IH. exact Hp.
    + discriminate.
Qed.

Lemma reachable_active : forall b st,
  Server.reachable b st ->
  Server.active st = match Server.buildProcess st with Child _ => true | _ => false end.
Proof.
  intros b st Hr. unfold Server.active.
  destruct (Server.buildProcess st) as [| |p] eqn:E; try reflexivity.
  destruct (reachable_slot Hr E) as [H1 [H2 _]]. rewrite H1, H2. reflexivity.
Qed.

(** A server that found its index has no timer, never holds [undefined],
    and has a child exactly while the global holds one. *)
Lemma reachable_single : forall st,
  Server.reachable true st ->
  timer st = false /\
  Server.buildProcess st <> Undefined /\
  children st = match Server.buildProcess st with Child _ => 1 | _ => 0 end.
Proof.
  induction 1 as [|st st' Hr IH Hs].
  - cbn. repeat split. discriminate.
  - destruct IH as [Ht [Hu Hc]].
    inversion Hs as [e t st0 Ht' | e t st0 | bb t l st0 | t c ct st0 Hc']; subst.
    + congruence.
    + unfold Server.post_build_offline. rewrite (reachable_active Hr).
      unfold Server.triggerOfflineBuild.
      destruct (Server.buildProcess st) as [| |p] eqn:E.
      * destruct e; cbn; rewrite ?E; cbn; rewrite ?E;
          repeat split; try discriminate; try assumption;
          rewrite Hc; reflexivity.
      * contradiction.
      * cbn. rewrite E. repeat split; try discriminate; assumption.
    + cbn. repeat split; assumption.
    + cbn. repeat split; try discriminate; try assumption.
      destruct (Server.buildProcess st); lia.
Qed.

End ServerFacts.

(** X6: in every state the server can reach, with or without the bootstrap
    timer, the log ring holds at most 1000 lines, and adding a line to it
    puts the line at the end and, when the ring is full, drops the oldest
    line and no other. *)
Theorem log_ring_bounded :
  forall index_exists st,
    Server.reachable index_exists st ->
    length (Server.buildLogs st) <= 1000 /\
    forall timestamp msg,
      Admin.appendLog timestamp msg (Server.buildLogs st) =
      (if (length (Server.buildLogs st) =? 1000)%nat
       then tl (Server.buildLogs st) else Server.buildLogs st)
        ++ ["[" +++ timestamp +++ "] " +++ msg].
Proof.
  intros b st H. pose proof (reachable_logs H) as Hl.
  split; [exact Hl|]. intros. apply appendLog_shape. exact Hl.
Qed.

Lemma log_ring_bounded_witness :
  let st := Server.on_line false "t1" "Building Sutta Index..."
              (Server.bootstrap true "t0" (Server.start false)) in
  length (Server.buildLogs st) <= 1000 /\
  forall timestamp msg,
    Admin.appendLog timestamp msg (Server.buildLogs st) =
    (if (length (Server.buildLogs st) =? 1000)%nat
     then tl (Server.buildLogs st) else Server.buildLogs st)
      ++ ["[" +++ timestamp +++ "] " +++ msg].
Proof.
  intro st. apply (@log_ring_bounded false st).
  eapply Server.reach_step.
  - eapply Server.reach_step; [apply Server.reach_start|].
    apply (Server.step_bootstrap true "t0" (Server.start false)). reflexivity.
  - apply Server.step_line.
Defined.

(** X7: in every state the server can reach, a trigger is answered with
    [AlreadyRunning] exactly when the global holds a child, with
    [Accepted] exactly when it holds none and the build script exists, and
    with [StartFailed] exactly when it holds none and the script is
    missing.  An accepted trigger forks one child and leaves a log ring
    that holds the start line and nothing else; any other answer leaves
    the state as it was. *)
Theorem trigger_outcomes :
  forall index_exists st script_exists timestamp,
    Server.reachable index_exists st ->
    let held := match Server.buildProcess st with
                | Server.Child _ => true
                | _ => false
                end in
    let r := fst (Server.post_build_offline script_exists timestamp st) in
    let st' := snd (Server.post_build_offline script_exists timestamp st) in
    (r = Admin.AlreadyRunning <-> held = true) /\
    (r = Admin.Accepted <-> held = false /\ script_exists = true) /\
    (r = Admin.StartFailed <-> held = false /\ script_exists = false) /\
    (r = Admin.Accepted ->
       Server.buildLogs st' = ["[" +++ timestamp +++ "] Starting new build process..."]
       /\ Server.children st' = S (Server.children st)
       /\ fst (Server.build_status st') = true) /\
    (r <> Admin.Accepted -> st' = st).
Proof.
  intros b st e t Hr held r st'.
  unfold held, r, st', Server.post_build_offline, Server.triggerOfflineBuild.
  rewrite (reachable_active Hr).
  destruct (Server.buildProcess st) as [| |p] eqn:E; destruct e;
    cbn [fst snd Server.buildProcess]; rewrite ?E;
    repeat split; try discriminate; try tauto;
    intros H; try discriminate; try (destruct H; discriminate);
    try (contradiction H; reflexivity).
Qed.

Lemma trigger_outcomes_witness :
  let st := Server.on_exit "t9" (Some 1) "1"
              (snd (Server.post_build_offline true "t0" (Server.start true))) in
  let held := match Server.buildProcess st with
              | Server.Child _ => true
              | _ => false
              end in
  let r := fst (Server.post_build_offline true "t10" st) in
  let st' := snd (Server.post_build_offline true "t10" st) in
  (r = Admin.AlreadyRunning <-> held = true) /\
  (r = Admin.Accepted <-> held = false /\ true = true) /\
  (r = Admin.StartFailed <-> held = false /\ true = false) /\
  (r = Admin.Accepted ->
     Server.buildLogs st' = ["[" +++ "t10" +++ "] Starting new build process..."]
     /\ Server.children st' = S (Server.children st)
     /\ fst (Server.build_status st') = true) /\
  (r <> Admin.Accepted -> st' = st).
Proof.
  intro st. apply (@trigger_outcomes true st true "t10").
  eapply Server.reach_step.
  - eapply Server.reach_step; [apply Server.reach_start|].
    apply (Server.step_post true "t0" (Server.start true)).
  - apply Server.step_exit. cbn. lia.
Defined.

(** X8: a server that found its index at startup runs at most one build at
    a time: in every state it can reach, the number of children that have
    not exited is 0 or 1, and it is 1 exactly when the status route reports
    a run, which is exactly when a trigger is answered with
    [AlreadyRunning]. *)
Theorem one_build_at_a_time :
  forall st,
    Server.reachable true st ->
    Server.children st <= 1 /\
    (Server.children st = 1 <-> fst (Server.build_status st) = true) /\
    (forall script_exists timestamp,
       fst (Server.post_build_offline script_exists timestamp st)
         = Admin.AlreadyRunning
       <-> fst (Server.build_status st) = true).
Proof.
  intros st Hr. destruct (reachable_single Hr) as [_ [Hu Hc]].
  pose proof (reachable_active Hr) as Ha.
  unfold Server.build_status, Server.post_build_offline, Server.triggerOfflineBuild.
  rewrite Ha, Hc.
  destruct (Server.buildProcess st) as [| |p] eqn:E; [|contradiction|];
    cbn [fst]; (split; [lia|]); (split; [split; intros; (lia || discriminate || reflexivity)|]).
  - intros e t. destruct e; cbn; rewrite ?E; split; discriminate.
  - intros e t. split; reflexivity.
Qed.

Lemma one_build_at_a_time_witness :
  let st := snd (Server.post_build_offline true "t0" (Server.start true)) in
  Server.children st <= 1 /\
  (Server.children st = 1 <-> fst (Server.build_status st) = true) /\
  (forall script_exists timestamp,
     fst (Server.post_build_offline script_exists timestamp st)
       = Admin.AlreadyRunning
     <-> fst (Server.build_status st) = true).
Proof.
  intro st. apply (@one_build_at_a_time st).
  eapply Server.reach_step; [apply Server.reach_start|].
  apply (Server.step_post true "t0" (Server.start true)).
Defined.

(** ** The data bundle *)

Section BundleFacts.

Import BuildIndex Bundle.







End BundleFacts.


(** ** The index builder, continued *)

Section TranslationFacts.

Import BuildIndex.

Lemma add_translations_keep : forall mine t a p,
  (forall g, ~ In (a, g) mine) ->
  Js.own t a = Some p ->
  Js.own (fold_left add_translation mine t) a = Some p.
Proof.
  induction mine as [|[a' g] r IH]; intros t a p Hn Ht; [exact Ht|].
  cbn [fold_left]. apply IH.
  - intros g' Hg. apply (Hn g'). right. exact Hg.
  - unfold add_translation. cbn [fst snd]. rewrite own_set_prim.
    destruct (String.eqb a' "__proto__"); [exact Ht|].
    destruct (String.eqb a a') eqn:E; [|exact Ht].
    apply String.eqb_eq in E. subst a'. exfalso. apply (Hn g). left. reflexivity.
Qed.

End TranslationFacts.

(** X9: translations are last-write-wins.  Of the translation files of
    one identifier found under one author directory (other than
    [__proto__]), the one the walk meets last gives the entry its path for
    that author, whenever the builder gets as far as writing the index. *)
Theorem last_translation_file_wins :
  forall c idx pre a f post,
    translation_files c = pre ++ (a, f) :: post ->
    BuildIndex.is_translation_file f = true ->
    a <> "__proto__" ->
    (forall g, In (a, g) post -> BuildIndex.is_translation_file g = true ->
               BuildIndex.translation_uid g <> BuildIndex.translation_uid f) ->
    BuildIndex.buildIndex c = Some idx ->
    exists e, Js.own idx (BuildIndex.translation_uid f) = Some e /\
              Js.own (BuildIndex.translations e) a
                = Some (BuildIndex.relative_path f).
Proof.
  intros c idx pre a f post Hfiles Hf Ha Hlast Hb.
  rewrite (buildIndex_own _ (BuildIndex.translation_uid f) Hb).
  rewrite Hfiles, filter_app. cbn [filter].
  replace (is_translation_of (BuildIndex.translation_uid f) (a, f)) with true
    by (unfold is_translation_of; cbn [fst snd]; rewrite Hf, String.eqb_refl;
        reflexivity).
  set (e0 := if Js.is_proto_name _ then _ else _).
  set (uid := BuildIndex.translation_uid f) in *.
  set (mine1 := filter (is_translation_of uid) pre).
  set (mine2 := filter (is_translation_of uid) post).
  assert (Hne : mine1 ++ (a, f) :: mine2 <> []) by (destruct mine1; discriminate).
  unfold with_translations.
  destruct (mine1 ++ (a, f) :: mine2) as [|x r] eqn:E; [contradiction|].
  rewrite <- E. eexists. split; [reflexivity|]. cbn [BuildIndex.translations].
  rewrite fold_left_app. cbn [fold_left].
  apply add_translations_keep.
  - intros g Hg. unfold mine2 in Hg. apply filter_In in Hg.
    destruct Hg as [Hin Hg]. unfold is_translation_of in Hg. cbn [fst snd] in Hg.
    apply andb_true_iff in Hg. destruct Hg as [Hg1 Hg2].
    apply String.eqb_eq in Hg2. apply (Hlast g Hin Hg1). symmetry. exact Hg2.
  - unfold add_translation at 1. cbn [fst snd]. rewrite own_set_prim.
    destruct (String.eqb a "__proto__") eqn:Ep;
      [apply String.eqb_eq in Ep; contradiction|].
    rewrite String.eqb_refl. reflexivity.
Qed.

Lemma last_translation_file_wins_witness :
  exists e,
    Js.own [("dn1", {| BuildIndex.root := None;
                       BuildIndex.translations :=
                         [("sujato", "draft/dn1_translation-en-sujato.json")] |})]
           "dn1" = Some e /\
    Js.own (BuildIndex.translations e) "sujato"
      = Some "draft/dn1_translation-en-sujato.json".
Proof.
  apply (@last_translation_file_wins duplicate_translations
           [("dn1", {| BuildIndex.root := None;
                       BuildIndex.translations :=
                         [("sujato", "draft/dn1_translation-en-sujato.json")] |})]
           [("sujato", ["sutta"; "dn1_translation-en-sujato.json"])]
           "sujato" ["draft"; "dn1_translation-en-sujato.json"] []
           eq_refl eq_refl).
  - discriminate.
  - intros g F. destruct F.
  - reflexivity.
Defined.

(** ** The layout of the facet files *)

Section ReplaceFacts.

Lemma prefix_before_char : forall c rest t old,
  Str.has_char c old = false ->
  String.prefix old (t +++ String c rest) = String.prefix old t.
Proof.
  intros c rest. induction t as [|e t IH]; intros [|o old] H; try reflexivity.
  - simpl in *. apply orb_false_iff in H. destruct H as [H _].
    destruct (Ascii.eqb_spec o c); [discriminate|].
    destruct (ascii_dec o c); [contradiction | reflexivity].
  - simpl in *. apply orb_false_iff in H. destruct H as [_ H].
    destruct (ascii_dec o e); [apply IH; exact H | reflexivity].
Qed.

(** An occurrence of [old] cannot begin inside [t] and run over a
    character [c] that [old] has at its first place only, if at all. *)
Lemma startsWith_before_char : forall c rest d t old,
  Str.has_char c (Str.drop 1 old) = false ->
  Str.startsWith old (String d t +++ String c rest)
  = Str.startsWith old (String d t).
Proof.
  intros c rest d t [|o old] H; [reflexivity|].
  unfold Str.startsWith. simpl in *.
  destruct (ascii_dec o d); [|reflexivity].
  apply prefix_before_char. exact H.
Qed.

Lemma includes_cons_false : forall old d t,
  Str.includes old (String d t) = false ->
  Str.startsWith old (String d t) = false /\ Str.includes old t = false.
Proof.
  intros old d t H. cbn [Str.includes] in H. apply orb_false_iff in H. exact H.
Qed.

Lemma replace_skips : forall old new c rest u,
  Str.includes old u = false ->
  Str.has_char c (Str.drop 1 old) = false ->
  Str.replace old new (u +++ String c rest)
  = u +++ Str.replace old new (String c rest).
Proof.
  intros old new c rest. induction u as [|d u IH]; intros Hu Hc; [reflexivity|].
  destruct (includes_cons_false _ _ _ Hu) as [H1 H2].
  change ((String d u) +++ String c rest) with (String d (u +++ String c rest)).
  cbn [Str.replace].
  change (String d (u +++ String c rest)) with ((String d u) +++ String c rest).
  rewrite (startsWith_before_char c rest d u old Hc), H1.
  rewrite (IH H2 Hc). reflexivity.
Qed.

Lemma before_skips : forall sep c rest u,
  Str.includes sep u = false ->
  Str.has_char c (Str.drop 1 sep) = false ->
  Str.before sep (u +++ String c rest) = u +++ Str.before sep (String c rest).
Proof.
  intros sep c rest. induction u as [|d u IH]; intros Hu Hc; [reflexivity|].
  destruct (includes_cons_false _ _ _ Hu) as [H1 H2].
  change ((String d u) +++ String c rest) with (String d (u +++ String c rest)).
  cbn [Str.before].
  change (String d (u +++ String c rest)) with ((String d u) +++ String c rest).
  rewrite (startsWith_before_char c rest d u sep Hc), H1.
  rewrite (IH H2 Hc). reflexivity.
Qed.

Lemma prefix_append : forall a b s,
  String.prefix (a +++ b) s = true -> String.prefix a s = true.
Proof.
  induction a as [|x a IH]; intros b [|y s] H; simpl in *;
    try reflexivity; try discriminate.
  destruct (ascii_dec x y); [apply (IH b); exact H | discriminate].
Qed.

Lemma includes_append : forall a b s,
  Str.includes (a +++ b) s = true -> Str.includes a s = true.
Proof.
  intros a b. induction s as [|y s IH]; intros H; cbn [Str.includes] in *;
    apply orb_true_iff in H; apply orb_true_iff; destruct H as [H|H].
  - left. apply (prefix_append _ _ _ H).
  - discriminate.
  - left. apply (prefix_append _ _ _ H).
  - right. apply IH. exact H.
Qed.

Lemma prefix_tail : forall c a y s,
  String.prefix (String c a) (String y s) = true -> String.prefix a s = true.
Proof.
  intros c a y s H. simpl in H. destruct (ascii_dec c y); [exact H | discriminate].
Qed.

Lemma includes_tail : forall c a s,
  Str.includes (String c a) s = true -> Str.includes a s = true.
Proof.
  intros c a. induction s as [|y s IH]; intros H.
  - cbn [Str.includes] in H. rewrite orb_false_r in H. discriminate.
  - cbn [Str.includes] in H. apply orb_true_iff in H. destruct H as [H|H].
    + apply prefix_tail in H. cbn [Str.includes]. apply orb_true_iff. right.
      destruct s as [|z s]; cbn [Str.includes]; unfold Str.startsWith;
        rewrite H; reflexivity.
    + cbn [Str.includes]. apply orb_true_iff. right. apply IH. exact H.
Qed.

Lemma endsWith_append : forall suffix u,
  Str.endsWith suffix (u +++ suffix) = true.
Proof.
  intros suffix. induction u as [|d u IH].
  - destruct suffix; cbn [String.append Str.endsWith]; rewrite String.eqb_refl;
      reflexivity.
  - change ((String d u) +++ suffix) with (String d (u +++ suffix)).
    cbn [Str.endsWith]. rewrite IH. apply orb_true_r.
Qed.

Lemma includes_mark : forall mark rest u,
  Str.includes mark (u +++ mark +++ rest) = true.
Proof.
  intros mark rest. assert (Hp : forall m s, String.prefix m (m +++ s) = true).
  { induction m as [|x m IHm]; intros s; [destruct s; reflexivity|].
    simpl. destruct (ascii_dec x x); [apply IHm | contradiction]. }
  induction u as [|d u IH].
  - cbn [String.append]. destruct (mark +++ rest) eqn:E; cbn [Str.includes];
      unfold Str.startsWith; rewrite <- E, Hp; reflexivity.
  - change ((String d u) +++ mark +++ rest) with (String d (u +++ mark +++ rest)).
    cbn [Str.includes]. rewrite IH. apply orb_true_r.
Qed.

End ReplaceFacts.

Section FacetPaths.

Import BuildIndex App.

Lemma name_ok_long : forall s,
  Str.has_char "/" s = false -> 3 <= String.length s -> Path.name_ok s = true.
Proof.
  intros s Hs Hl. destruct (long_name s Hl) as [H1 H2].
  unfold kept in H2. apply negb_true_iff, orb_false_iff in H2.
  destruct H2 as [H2 H3]. apply String.eqb_neq in H1.
  unfold Path.name_ok, Path.nonempty. rewrite H1, H2, H3, Hs. reflexivity.
Qed.

Lemma dirname_segments : forall dir f,
  Forall (fun s => Path.name_ok s = true) (dir ++ [f]) ->
  let d := Path.segments (Path.dirname (relative_path (dir ++ [f]))) in
  filter kept d = dir /\ Forall (fun s => s <> "..") d.
Proof.
  intros dir f Hall d.
  assert (Hs : clean_path (dir ++ [f])) by (split; [destruct dir; discriminate | exact Hall]).
  assert (Hd : Forall (fun s => Path.name_ok s = true) dir)
    by (apply Forall_app in Hall; apply Hall).
  unfold d, Path.dirname.
  rewrite (segments_relative_path Hs), (clean_nonempty Hall), removelast_last.
  destruct dir as [|d0 dr].
  - split; [reflexivity | repeat constructor; discriminate].
  - unfold Path.segments. rewrite split_join;
      [| discriminate | apply clean_no_slash; exact Hd].
    split; [apply clean_kept; exact Hd | apply clean_no_dotdot; exact Hd].
Qed.

Lemma basename_relative_path : forall dir f,
  Forall (fun s => Path.name_ok s = true) (dir ++ [f]) ->
  Path.basename (relative_path (dir ++ [f])) = f.
Proof.
  intros dir f Hall.
  assert (Hs : clean_path (dir ++ [f])) by (split; [destruct dir; discriminate | exact Hall]).
  unfold Path.basename.
  rewrite (segments_relative_path Hs), (clean_nonempty Hall). apply last_last.
Qed.

(** Where a file of a facet is looked for: under the directory of the
    facet, at the place of the indexed file, by the name [n]. *)
Lemma facet_join : forall base heads pre dir f n,
  flat_map Path.segments heads = pre ->
  Forall (fun s => Path.name_ok s = true) pre ->
  Forall (fun s => Path.name_ok s = true) (dir ++ [f]) ->
  Path.name_ok n = true ->
  Path.join base (heads ++ [Path.dirname (relative_path (dir ++ [f])); n])
  = base ++ pre ++ dir ++ [n].
Proof.
  intros base heads pre dir f n Hh Hp Hall Hn.
  destruct (dirname_segments dir f Hall) as [Hd1 Hd2].
  assert (Hsn : Path.segments n = [n]) by (apply segments_name; apply (name_ok_spec n Hn)).
  assert (Hflat : flat_map Path.segments
                    (heads ++ [Path.dirname (relative_path (dir ++ [f])); n])
                  = pre ++ Path.segments (Path.dirname (relative_path (dir ++ [f]))) ++ [n]).
  { rewrite flat_map_app, Hh. cbn [flat_map]. rewrite Hsn, app_nil_r. reflexivity. }
  rewrite join_no_dotdot; rewrite Hflat.
  - rewrite !filter_app, Hd1, (clean_kept Hp).
    rewrite (clean_kept (segs := [n])) by (repeat constructor; exact Hn).
    reflexivity.
  - repeat (apply Forall_app; split).
    + apply clean_no_dotdot. exact Hp.
    + exact Hd2.
    + constructor; [apply (name_ok_spec n Hn) | constructor].
Qed.

Lemma facet_join_whole : forall base heads pre segs,
  flat_map Path.segments heads = pre ->
  Forall (fun s => Path.name_ok s = true) pre ->
  clean_path segs ->
  Path.join base (heads ++ [relative_path segs]) = base ++ pre ++ segs.
Proof.
  intros base heads pre segs Hh Hp Hs.
  assert (Hflat : flat_map Path.segments (heads ++ [relative_path segs]) = pre ++ segs).
  { rewrite flat_map_app, Hh. cbn [flat_map].
    rewrite (segments_relative_path Hs), app_nil_r. reflexivity. }
  assert (Hc : Forall (fun s => Path.name_ok s = true) (pre ++ segs))
    by (apply Forall_app; split; [exact Hp | apply Hs]).
  rewrite join_no_dotdot; rewrite Hflat.
  - rewrite (clean_kept Hc). reflexivity.
  - apply clean_no_dotdot. exact Hc.
Qed.

Lemma no_slash_append : forall s t,
  Str.has_char "/" s = false -> Str.has_char "/" t = false ->
  Str.has_char "/" (s +++ t) = false.
Proof. intros s t Hs Ht. rewrite has_char_append, Hs, Ht. reflexivity. Qed.

Lemma name_ok_suffixed : forall u t,
  Str.has_char "/" u = false -> Str.has_char "/" t = false ->
  3 <= String.length t -> Path.name_ok (u +++ t) = true.
Proof.
  intros u t Hu Ht Hl. apply name_ok_long.
  - apply no_slash_append; assumption.
  - rewrite length_append. lia.
Qed.

End FacetPaths.

(** X10: the files of the root facets.  For a root file
    [<u>_root-pli-ms.json] found in the directory [dir] of the root tree,
    [u] holding no [root-], the builder takes [u] as the identifier, and
    the resolver reads the root text at the place of the file and the
    markup, the variants and the references in the same directory of their
    trees, under the names [<u>_html.json], [<u>_variant-pli-ms.json] and
    [<u>_reference.json]. *)
Theorem root_facet_layout :
  forall server_dir dir u,
    Forall (fun s => Path.name_ok s = true) dir ->
    Str.has_char "/" u = false ->
    Str.includes "root-" u = false ->
    let segs := dir ++ [u +++ "_root-pli-ms.json"] in
    let rel := BuildIndex.relative_path segs in
    let base := App.BILARA_BASE server_dir in
    BuildIndex.is_root_file segs = true /\
    BuildIndex.root_uid segs = u /\
    App.root_path server_dir rel = base ++ ["root"; "pli"; "ms"] ++ segs /\
    App.html_path server_dir rel
      = base ++ ["html"; "pli"; "ms"] ++ dir ++ [u +++ "_html.json"] /\
    App.variant_path server_dir rel
      = base ++ ["variant"; "pli"; "ms"] ++ dir ++ [u +++ "_variant-pli-ms.json"] /\
    App.reference_path server_dir rel
      = base ++ ["reference"; "pli"; "ms"] ++ dir ++ [u +++ "_reference.json"].
Proof.
  intros server_dir dir u Hdir Hu Hroot segs rel base.
  assert (Hf : Path.name_ok (u +++ "_root-pli-ms.json") = true)
    by (apply name_ok_suffixed; [exact Hu | reflexivity | simpl; lia]).
  assert (Hall : Forall (fun s => Path.name_ok s = true) segs)
    by (apply Forall_app; split; [exact Hdir | repeat constructor; exact Hf]).
  assert (Hs : clean_path segs) by (split; [destruct dir; discriminate | exact Hall]).
  assert (Hsuffix : Str.includes "_root-pli-ms.json" u = false).
  { destruct (Str.includes "_root-pli-ms.json" u) eqn:E; [|reflexivity].
    apply includes_tail in E.
    apply (includes_append "root-" "pli-ms.json") in E. congruence. }
  assert (Hbase : Path.basename rel = u +++ "_root-pli-ms.json")
    by (apply basename_relative_path; exact Hall).
  assert (Hname : BuildIndex.file_name segs = u +++ "_root-pli-ms.json")
    by (apply last_last).
  split; [|split; [|split; [|split; [|split]]]].
  - unfold BuildIndex.is_root_file. rewrite Hname. apply endsWith_append.
  - unfold BuildIndex.root_uid, BuildIndex.ROOT_SUFFIX. rewrite Hname.
    rewrite replace_skips by (exact Hsuffix || reflexivity).
    apply append_nil_r.
  - unfold App.root_path.
    apply (@facet_join_whole base ["root/pli/ms"] ["root"; "pli"; "ms"] segs);
      [reflexivity | repeat constructor | exact Hs].
  - unfold App.html_path. rewrite Hbase.
    rewrite replace_skips by (exact Hsuffix || reflexivity).
    apply (@facet_join base ["html/pli/ms"] ["html"; "pli"; "ms"]);
      [reflexivity | repeat constructor | exact Hall |].
    apply name_ok_suffixed; [exact Hu | reflexivity | simpl; lia].
  - unfold App.variant_path. rewrite Hbase.
    rewrite replace_skips by (exact Hroot || reflexivity).
    apply (@facet_join base ["variant/pli/ms"] ["variant"; "pli"; "ms"]);
      [reflexivity | repeat constructor | exact Hall |].
    apply name_ok_suffixed; [exact Hu | reflexivity | simpl; lia].
  - unfold App.reference_path. rewrite Hbase.
    rewrite replace_skips by (exact Hsuffix || reflexivity).
    apply (@facet_join base ["reference/pli/ms"] ["reference"; "pli"; "ms"]);
      [reflexivity | repeat constructor | exact Hall |].
    apply name_ok_suffixed; [exact Hu | reflexivity | simpl; lia].
Qed.

Lemma root_facet_layout_witness :
  let segs := ["sutta"; "dn"] ++ ["dn1" +++ "_root-pli-ms.json"] in
  let rel := BuildIndex.relative_path segs in
  let base := App.BILARA_BASE ["srv"] in
  BuildIndex.is_root_file segs = true /\
  BuildIndex.root_uid segs = "dn1" /\
  App.root_path ["srv"] rel = base ++ ["root"; "pli"; "ms"] ++ segs /\
  App.html_path ["srv"] rel
    = base ++ ["html"; "pli"; "ms"] ++ ["sutta"; "dn"] ++ ["dn1" +++ "_html.json"] /\
  App.variant_path ["srv"] rel
    = base ++ ["variant"; "pli"; "ms"] ++ ["sutta"; "dn"]
      ++ ["dn1" +++ "_variant-pli-ms.json"] /\
  App.reference_path ["srv"] rel
    = base ++ ["reference"; "pli"; "ms"] ++ ["sutta"; "dn"]
      ++ ["dn1" +++ "_reference.json"].
Proof.
  apply (@root_facet_layout ["srv"] ["sutta"; "dn"] "dn1");
    [repeat constructor | reflexivity | reflexivity].
Defined.

(** X11: the files of the translation facets.  For a translation file
    [<u>_translation-en-<rest>] found in the directory [dir] below the
    directory of the author [a], [u] holding no [translation-], the builder
    takes [u] as the identifier, and the resolver reads the translation at
    the place of the file and the comments in the same directory below the
    author's directory of the comment tree, under the name
    [<u>_comment-en-<rest>]. *)
Theorem translation_facet_layout :
  forall server_dir a dir u rest,
    Path.name_ok a = true ->
    Forall (fun s => Path.name_ok s = true) dir ->
    Str.has_char "/" u = false ->
    Str.has_char "/" rest = false ->
    Str.includes "translation-" u = false ->
    let segs := dir ++ [u +++ "_translation-en-" +++ rest] in
    let rel := BuildIndex.relative_path segs in
    let base := App.BILARA_BASE server_dir in
    BuildIndex.is_translation_file segs = true /\
    BuildIndex.translation_uid segs = u /\
    App.translation_path server_dir a rel
      = base ++ ["translation"; "en"; a] ++ segs /\
    App.comment_path server_dir a rel
      = base ++ ["comment"; "en"; a] ++ dir ++ [u +++ "_comment-en-" +++ rest].
Proof.
  intros server_dir a dir u rest Ha Hdir Hu Hrest Htr segs rel base.
  assert (Hsa : Path.segments a = [a]) by (apply segments_name; apply (name_ok_spec a Ha)).
  assert (Hf : Path.name_ok (u +++ "_translation-en-" +++ rest) = true).
  { apply name_ok_suffixed; [exact Hu | | simpl; lia].
    apply (no_slash_append "_translation-en-" rest); [reflexivity | exact Hrest]. }
  assert (Hall : Forall (fun s => Path.name_ok s = true) segs)
    by (apply Forall_app; split; [exact Hdir | repeat constructor; exact Hf]).
  assert (Hs : clean_path segs) by (split; [destruct dir; discriminate | exact Hall]).
  assert (Hmark : Str.includes "_translation-en-" u = false).
  { destruct (Str.includes "_translation-en-" u) eqn:E; [|reflexivity].
    apply includes_tail in E.
    apply (includes_append "translation-" "en-") in E. congruence. }
  assert (Hbase : Path.basename rel = u +++ "_translation-en-" +++ rest)
    by (apply basename_relative_path; exact Hall).
  assert (Hname : BuildIndex.file_name segs = u +++ "_translation-en-" +++ rest)
    by (apply last_last).
  split; [|split; [|split]].
  - unfold BuildIndex.is_translation_file, BuildIndex.TRANSLATION_MARK.
    rewrite Hname. apply includes_mark.
  - unfold BuildIndex.translation_uid, BuildIndex.TRANSLATION_MARK. rewrite Hname.
    change ("_translation-en-" +++ rest)
      with (String "_" ("translation-en-" +++ rest)).
    rewrite before_skips by (exact Hmark || reflexivity).
    replace (Str.before "_translation-en-" (String "_" ("translation-en-" +++ rest)))
      with "" by (destruct rest; reflexivity).
    apply append_nil_r.
  - apply translation_path_eq; assumption.
  - unfold App.comment_path. rewrite Hbase.
    change ("_translation-en-" +++ rest)
      with (String "_" ("translation-en-" +++ rest)).
    rewrite replace_skips by (exact Htr || reflexivity).
    change (Str.replace "translation-" "comment-"
              (String "_" ("translation-en-" +++ rest)))
      with ("_comment-en-" +++ rest).
    apply (@facet_join base ["comment/en"; a] ["comment"; "en"; a]).
    + cbn [flat_map]. rewrite Hsa. reflexivity.
    + repeat constructor. exact Ha.
    + exact Hall.
    + apply name_ok_suffixed; [exact Hu | | simpl; lia].
      apply (no_slash_append "_comment-en-" rest); [reflexivity | exact Hrest].
Qed.

Lemma translation_facet_layout_witness :
  let segs := ["sutta"; "dn"] ++ ["dn1" +++ "_translation-en-" +++ "sujato.json"] in
  let rel := BuildIndex.relative_path segs in
  let base := App.BILARA_BASE ["srv"] in
  BuildIndex.is_translation_file segs = true /\
  BuildIndex.translation_uid segs = "dn1" /\
  App.translation_path ["srv"] "sujato" rel
    = base ++ ["translation"; "en"; "sujato"] ++ segs /\
  App.comment_path ["srv"] "sujato" rel
    = base ++ ["comment"; "en"; "sujato"] ++ ["sutta"; "dn"]
      ++ ["dn1" +++ "_comment-en-" +++ "sujato.json"].
Proof.
  apply (@translation_facet_layout ["srv"] "sujato" ["sutta"; "dn"] "dn1" "sujato.json");
    [reflexivity | repeat constructor | reflexivity | reflexivity | reflexivity].
Defined.

(** ** The collection of an identifier *)



(** ** The menu routes *)

Section MenuFacts.

Import App Routes.

Lemma MENUS_BASE_eq : forall server_dir,
  MENUS_BASE server_dir = server_dir ++ ["data"; "menus"].
Proof.
  intros. unfold MENUS_BASE.
  assert (Hs : flat_map Path.segments ["data/menus"] = ["data"; "menus"])
    by (vm_compute; reflexivity).
  rewrite join_no_dotdot; rewrite Hs.
  - reflexivity.
  - repeat constructor; discriminate.
Qed.

Lemma menu_path_plain : forall server_dir uid,
  Str.has_char "/" uid = false ->
  menu_path server_dir uid = server_dir ++ ["data"; "menus"; uid +++ ".json"].
Proof.
  intros sd uid Hu. unfold menu_path. rewrite MENUS_BASE_eq.
  assert (Hn : Path.name_ok (uid +++ ".json") = true)
    by (apply name_ok_suffixed; [exact Hu | reflexivity | simpl; lia]).
  destruct (name_ok_spec _ Hn) as [_ [_ [H3 H4]]].
  rewrite join_no_dotdot; cbn [flat_map]; rewrite (segments_name _ H4), app_nil_r.
  - rewrite (clean_kept (segs := [uid +++ ".json"])) by (repeat constructor; exact Hn).
    rewrite <- app_assoc. reflexivity.
  - repeat constructor. exact H3.
Qed.

Lemma join_snoc_append : forall l f t,
  Str.join "/" (l ++ [f]) +++ t = Str.join "/" (l ++ [f +++ t]).
Proof.
  unfold Str.join. induction l as [|x r IH]; intros f t.
  - reflexivity.
  - destruct r as [|y r'].
    + cbn. rewrite append_assoc. reflexivity.
    + change (String.concat "/" ((x :: y :: r') ++ [f]))
        with (x +++ String "/" (String.concat "/" ((y :: r') ++ [f]))).
      change (String.concat "/" ((x :: y :: r') ++ [f +++ t]))
        with (x +++ String "/" (String.concat "/" ((y :: r') ++ [f +++ t]))).
      rewrite append_assoc. cbn [String.append]. rewrite IH. reflexivity.
Qed.

End MenuFacts.

(** X12: the menu route, for an identifier without a separator, answers
    from the one file [data/menus/<uid>.json] below the server directory:
    404 when the file is missing, 500 when it cannot be read as JSON or
    holds a falsy document, and the document otherwise. *)
Theorem menu_route_reads_one_file :
  forall (json : Type) (json_truthy : json -> bool) server_dir
         (disk : list string -> App.file_state json) uid,
    Str.has_char "/" uid = false ->
    Routes.menu_path server_dir uid
      = server_dir ++ ["data"; "menus"; uid +++ ".json"] /\
    Routes.get_menu_uid json_truthy server_dir disk uid =
      match disk (server_dir ++ ["data"; "menus"; uid +++ ".json"]) with
      | App.Missing => Routes.MenuNotFound
      | App.Unparsable => Routes.MenuError
      | App.Parsed j => if json_truthy j then Routes.MenuOk j else Routes.MenuError
      end.
Proof.
  intros json json_truthy sd disk uid Hu.
  pose proof (menu_path_plain sd uid Hu) as Hp.
  split; [exact Hp|].
  unfold Routes.get_menu_uid, App.readJson. rewrite Hp.
  destruct (disk (sd ++ ["data"; "menus"; uid +++ ".json"])); reflexivity.
Qed.

Lemma menu_route_reads_one_file_witness :
  let disk := fun p : list string =>
    if list_eq_dec string_dec p ["srv"; "data"; "menus"; "dn.json"]
    then App.Parsed true else App.Missing in
  Routes.menu_path ["srv"] "dn" = ["srv"] ++ ["data"; "menus"; "dn" +++ ".json"] /\
  Routes.get_menu_uid (fun b : bool => b) ["srv"] disk "dn" =
    match disk (["srv"] ++ ["data"; "menus"; "dn" +++ ".json"]) with
    | App.Missing => Routes.MenuNotFound
    | App.Unparsable => Routes.MenuError
    | App.Parsed j => if j then Routes.MenuOk j else Routes.MenuError
    end.
Proof.
  intro disk.
  apply (@menu_route_reads_one_file bool (fun b : bool => b) ["srv"] disk "dn").
  reflexivity.
Defined.

(** X13: the menu route joins the decoded identifier to the menus
    directory without checking where the result lies: for the identifier
    [../../<path>] it answers from the file [<path>.json] below the server
    directory. *)
Theorem menu_route_follows_parent_segments :
  forall (json : Type) (json_truthy : json -> bool) server_dir
         (disk : list string -> App.file_state json) dir f,
    Forall (fun s => Path.name_ok s = true) dir ->
    Str.has_char "/" f = false ->
    let uid := "../../" +++ Str.join "/" (dir ++ [f]) in
    let file := server_dir ++ dir ++ [f +++ ".json"] in
    Routes.menu_path server_dir uid = file /\
    Routes.get_menu_uid json_truthy server_dir disk uid =
      match disk file with
      | App.Missing => Routes.MenuNotFound
      | App.Unparsable => Routes.MenuError
      | App.Parsed j => if json_truthy j then Routes.MenuOk j else Routes.MenuError
      end.
Proof.
  intros json json_truthy sd disk dir f Hdir Hf uid file.
  assert (Hn : Path.name_ok (f +++ ".json") = true)
    by (apply name_ok_suffixed; [exact Hf | reflexivity | simpl; lia]).
  assert (Hall : Forall (fun s => Path.name_ok s = true) (dir ++ [f +++ ".json"]))
    by (apply Forall_app; split; [exact Hdir | repeat constructor; exact Hn]).
  assert (Hp : Routes.menu_path sd uid = file).
  { unfold Routes.menu_path, uid, file. rewrite MENUS_BASE_eq.
    rewrite append_assoc, join_snoc_append.
    assert (Hseg : Path.segments ("../../" +++ Str.join "/" (dir ++ [f +++ ".json"]))
                   = ".." :: ".." :: dir ++ [f +++ ".json"]).
    { replace ("../../" +++ Str.join "/" (dir ++ [f +++ ".json"]))
        with (Str.join "/" (".." :: ".." :: dir ++ [f +++ ".json"])).
      - apply split_join; [discriminate|].
        repeat constructor. apply clean_no_slash. exact Hall.
      - destruct (dir ++ [f +++ ".json"]) as [|x r] eqn:E;
          [destruct dir; discriminate | reflexivity]. }
    unfold Path.join. cbn [flat_map]. rewrite Hseg, app_nil_r.
    rewrite rev_app_distr. cbn [rev app]. cbn [Path.norm String.eqb Ascii.eqb
      Bool.eqb orb andb tl].
    rewrite norm_no_dotdot by (apply clean_no_dotdot; exact Hall).
    rewrite rev_involutive, (clean_kept Hall). reflexivity. }
  split; [exact Hp|].
  unfold Routes.get_menu_uid, App.readJson. rewrite Hp.
  destruct (disk file); reflexivity.
Qed.

Lemma menu_route_follows_parent_segments_witness :
  let disk := fun p : list string =>
    if list_eq_dec string_dec p ["srv"; "package.json"]
    then App.Parsed true else App.Missing in
  let uid := "../../" +++ Str.join "/" ([] ++ ["package"]) in
  let file := ["srv"] ++ [] ++ ["package" +++ ".json"] in
  Routes.menu_path ["srv"] uid = file /\
  Routes.get_menu_uid (fun b : bool => b) ["srv"] disk uid =
    match disk file with
    | App.Missing => Routes.MenuNotFound
    | App.Unparsable => Routes.MenuError
    | App.Parsed j => if j then Routes.MenuOk j else Routes.MenuError
    end.
Proof.
  intro disk.
  apply (@menu_route_follows_parent_segments bool (fun b : bool => b) ["srv"] disk
           [] "package"); [constructor | reflexivity].
Defined.

(** ** The suttaplex route *)

Section SuttaplexFacts.

Import BuildIndex App Routes.

Lemma prefix_split : forall p s,
  String.prefix p s = true -> exists rest, s = p +++ rest.
Proof.
  induction p as [|x p IH]; intros s H.
  - exists s. reflexivity.
  - destruct s as [|y s]; simpl in H; [discriminate|].
    destruct (ascii_dec x y) as [->|]; [|discriminate].
    destruct (IH s H) as [rest ->]. exists rest. reflexivity.
Qed.

(** A string that includes [sep] is what [split(sep)[0]] gives, then
    [sep], then something. *)
Lemma before_split : forall sep s,
  Str.includes sep s = true -> exists rest, s = Str.before sep s +++ sep +++ rest.
Proof.
  intros sep. induction s as [|c s IH]; intros H; cbn [Str.includes Str.before] in *.
  - rewrite orb_false_r in H. rewrite H. apply prefix_split. exact H.
  - destruct (Str.startsWith sep (String c s)) eqn:E.
    + apply prefix_split. exact E.
    + cbn [orb] in H. destruct (IH H) as [rest Hr]. exists rest.
      cbn [String.append]. rewrite <- Hr. reflexivity.
Qed.

Lemma match_lang_en : forall rest u,
  Str.includes "translation-" u = false ->
  match_lang (u +++ "_translation-en-" +++ rest) = Some "en".
Proof.
  intros rest. induction u as [|d u IH]; intros Hu.
  - destruct rest; reflexivity.
  - destruct (includes_cons_false _ _ _ Hu) as [H1 H2].
    change ((String d u) +++ "_translation-en-" +++ rest)
      with (String d (u +++ "_translation-en-" +++ rest)).
    cbn [match_lang].
    change (String d (u +++ "_translation-en-" +++ rest))
      with ((String d u) +++ String "_" ("translation-en-" +++ rest)).
    rewrite (startsWith_before_char "_" ("translation-en-" +++ rest) d u
               "translation-" eq_refl), H1.
    apply IH. exact H2.
Qed.

Lemma basename_clean : forall segs,
  clean_path segs -> Path.basename (relative_path segs) = file_name segs.
Proof.
  intros segs Hs. unfold Path.basename, file_name.
  rewrite (segments_relative_path Hs), (clean_nonempty (proj2 Hs)). reflexivity.
Qed.

Variable authorMeta : Js.obj author_meta.

Lemma translation_items_spec : forall t authors,
  (forall a, In a authors -> Js.own t a <> None) ->
  exists l,
    translation_items authorMeta t authors = Some l /\
    map item_author_uid l = authors /\
    Forall (fun i =>
              is_root i = false /\
              exists p, Js.own t (item_author_uid i) = Some p /\
                        translation_item_of authorMeta t (item_author_uid i) = Some i) l.
Proof.
  intros t. induction authors as [|a r IH]; intros H.
  - exists []. repeat split. constructor.
  - destruct IH as [l [Hl [Hm Hf]]]; [intros b Hb; apply H; right; exact Hb|].
    destruct (Js.own t a) as [p|] eqn:Ho; [|exfalso; apply (H a); [left; reflexivity | exact Ho]].
    cbn [translation_items]. unfold translation_item_of at 1.
    rewrite (get_own _ _ Ho), Hl.
    eexists. split; [reflexivity|]. split; [cbn; rewrite Hm; reflexivity|].
    constructor; [|exact Hf]. cbn. split; [reflexivity|].
    exists p. split; [exact Ho|]. unfold translation_item_of.
    rewrite (get_own _ _ Ho). reflexivity.
Qed.

End SuttaplexFacts.

(** X14: the suttaplex of an indexed identifier lists the root text first,
    under the author [ms], when the entry has a root path, and then one
    translation for each author of the entry, in the order of the keys of
    its translations map; the route does not fail.  An identifier that is
    neither indexed nor the name of a member inherited from
    [Object.prototype] is answered with 404. *)
Theorem suttaplex_listing :
  forall suttaIndex authorMeta uid,
    Js.is_proto_name uid = false ->
    match Js.own suttaIndex uid with
    | None =>
        Routes.get_suttaplex suttaIndex authorMeta uid = Routes.SuttaplexNotFound
    | Some e =>
        exists l,
          Routes.get_suttaplex suttaIndex authorMeta uid
            = Routes.SuttaplexOk uid
                (match App.truthy_root (BuildIndex.root e) with
                 | Some _ => [Routes.root_item authorMeta uid]
                 | None => []
                 end ++ l) /\
          map Routes.item_author_uid l = Js.keys (BuildIndex.translations e) /\
          Forall (fun i => Routes.is_root i = false) l
    end.
Proof.
  intros idx am uid Hp. unfold Routes.get_suttaplex.
  destruct (Js.own idx uid) as [e|] eqn:Ho.
  - rewrite (get_own _ _ Ho).
    destruct (translation_items_spec am (BuildIndex.translations e)
                (Js.keys (BuildIndex.translations e))) as [l [Hl [Hm Hf]]].
    { intros a Ha. apply own_keys. exact Ha. }
    rewrite Hl. exists l. split; [reflexivity|]. split; [exact Hm|].
    eapply Forall_impl; [|exact Hf]. intros i Hi. apply Hi.
  - rewrite (get_absent _ _ Ho Hp). reflexivity.
Qed.

Lemma suttaplex_listing_witness :
  exists l,
    Routes.get_suttaplex dn1_index [] "dn1"
      = Routes.SuttaplexOk "dn1"
          (match App.truthy_root (BuildIndex.root dn1_entry) with
           | Some _ => [Routes.root_item [] "dn1"]
           | None => []
           end ++ l) /\
    map Routes.item_author_uid l = Js.keys (BuildIndex.translations dn1_entry) /\
    Forall (fun i => Routes.is_root i = false) l.
Proof.
  apply (@suttaplex_listing dn1_index [] "dn1"). reflexivity.
Defined.

(** X15: over an index the builder wrote, for an identifier that holds no
    [translation-], the suttaplex gives every translation the language
    [en]: the language read out of the file name is the one of the tree the
    builder walked.  The root text has the language [pli]. *)
Theorem suttaplex_languages :
  forall c idx authorMeta uid l,
    corpus_ok c = true ->
    BuildIndex.buildIndex c = Some idx ->
    Str.includes "translation-" uid = false ->
    Routes.get_suttaplex idx authorMeta uid = Routes.SuttaplexOk uid l ->
    Forall (fun i => Routes.lang i = if Routes.is_root i then "pli" else "en") l.
Proof.
  intros c idx am uid l Hok Hb Hu Hget. unfold Routes.get_suttaplex in Hget.
  destruct (Js.get idx uid) as [e|k|] eqn:Hg; [| |discriminate].
  - apply get_Own in Hg.
    destruct (translation_items_spec am (BuildIndex.translations e)
                (Js.keys (BuildIndex.translations e))) as [l' [Hl [_ Hf]]].
    { intros a Ha. apply own_keys. exact Ha. }
    rewrite Hl in Hget. injection Hget as <-.
    apply Forall_app. split.
    + destruct (App.truthy_root (BuildIndex.root e)); repeat constructor.
    + eapply Forall_impl; [|exact Hf]. intros i [Hr [p [Hp Hi]]].
      rewrite Hr.
      destruct (indexed_translation_source c _ _ Hb Hg Hp) as [segs [Hin [Hm [Hid Hrel]]]].
      destruct (translation_files_ok c _ _ Hok Hin) as [_ Hclean].
      unfold Routes.translation_item_of in Hi. rewrite (get_own _ _ Hp) in Hi.
      injection Hi as Hi. rewrite <- Hi. cbn [Routes.lang].
      rewrite Hrel, (basename_clean Hclean).
      destruct (before_split _ _ Hm) as [rest Hfile].
      change (Str.before "_translation-en-" (BuildIndex.file_name segs))
        with (BuildIndex.translation_uid segs) in Hfile.
      rewrite Hid in Hfile.
      rewrite Hfile, (match_lang_en rest uid Hu). reflexivity.
  - injection Hget as <-. constructor.
Qed.

Lemma suttaplex_languages_witness :
  Forall (fun i => Routes.lang i = if Routes.is_root i then "pli" else "en")
    [Routes.root_item [] "dn1";
     {| Routes.lang := "en";
        Routes.lang_name := None;
        Routes.is_root := false;
        Routes.item_author_uid := "sujato";
        Routes.item_author_name := App.JsStr "sujato";
        Routes.id := "dn1_translation-en-sujato";
        Routes.segmented := true |}].
Proof.
  apply (@suttaplex_languages dn1_corpus dn1_index [] "dn1");
    reflexivity.
Defined.

(** ** The pipeline, continued *)

(** Case analysis along the control flow of the script. *)
Local Ltac branch_in e L :=
  match L with
  | context [if negb ?b then _ else _] =>
      let E := fresh "E" in destruct b eqn:E; cbn
  | context [if ?b then _ else _] =>
      let E := fresh "E" in destruct b eqn:E; cbn
  | context [match Pipeline.exec e ?c with _ => _ end] =>
      let E := fresh "E" in destruct (Pipeline.exec e c) eqn:E; cbn
  | context [match Pipeline.bundle e with _ => _ end] =>
      let E := fresh "E" in destruct (Pipeline.bundle e) eqn:E; cbn
  end.

Local Ltac branch e :=
  match goal with
  | |- ?L = _ => branch_in e L
  end.

Local Ltac branch_trace e :=
  match goal with
  | |- In _ (fst ?X) -> _ => branch_in e X
  end.

Local Ltac unfold_script :=
  unfold Pipeline.main, Pipeline.buildPipeline, Pipeline.sync,
    Pipeline.commit_info, Pipeline.stages, Pipeline.bundle_and_stamp,
    Pipeline.generateBundle, Pipeline.write_version, Pipeline.runCommand,
    Pipeline.mkdir, succeeds, prepared, up_to_date, synced, staged, stamped,
    expected_version, STAGES, Pipeline.PULL, Pipeline.CLONE.

(** The commands are told apart by the proofs that need it only. *)
Local Ltac name_commands :=
  set (c_clone := "git clone --branch published --depth 1 https://github.com/suttacentral/bilara-data.git bilara-data-published") in *;
  set (c_pull := "git pull origin published") in *;
  set (c_rev := "git rev-parse HEAD") in *;
  set (c_show := "git show -s --format=%cI HEAD") in *;
  set (c_fetch := "node scripts/master_fetch.js") in *;
  set (c_clean := "node scripts/cleanup_bilara.js") in *;
  set (c_index := "node scripts/build_index.js") in *;
  set (c_legacy := "node scripts/fetch_legacy.js") in *.

Local Ltac forget_bodies :=
  repeat match goal with x := _ : string |- _ => clearbody x end.

Local Ltac forget_commands := name_commands; forget_bodies.

Local Ltac leaf :=
  cbn; intros H;
  repeat match goal with
         | H : _ \/ _ |- _ => destruct H
         | H : False |- _ => destruct H
         | H : _ = _ |- _ => discriminate H
         | H : Pipeline.WriteVersion _ = Pipeline.WriteVersion _ |- _ => injection H as <-
         | H : Pipeline.Bundle _ = Pipeline.Bundle _ |- _ => injection H as <-
         end;
  try (repeat split; congruence).

(** X16: the exit code of the pipeline.  A run ends with code 0 exactly
    when the public directory is there or can be created and either the
    pull reports nothing new while the index exists, or a checkout is there
    or the clone succeeds, the four stage scripts succeed, the bundling
    succeeds and the version file can be written; every other run ends
    with code 1.  A failed pull and a failed query of the commit do not
    change the code. *)
Theorem pipeline_exit_code :
  forall e, snd (Pipeline.main e) = if succeeds e then 0 else 1.
Proof.
  intros e. unfold_script. forget_commands. cbn.
  repeat branch e; reflexivity.
Qed.

(** X17: the version file.  Whenever a run writes the version file, the
    commit in it is the output of [git rev-parse HEAD], or [unknown] when
    that command failed; the date is the output of [git show], or the
    time of the run when either command failed; and [updated_at] is the
    time of the run. *)
Theorem pipeline_version_stamp :
  forall e v,
    In (Pipeline.WriteVersion v) (fst (Pipeline.main e)) ->
    v = expected_version e.
Proof.
  intros e v. unfold_script. forget_commands. cbn.
  repeat branch_trace e; leaf.
Qed.

Lemma pipeline_version_stamp_witness :
  {| Pipeline.commit := "0a1b2c3";
     Pipeline.date := "2025-12-31T10:00:00+00:00";
     Pipeline.updated_at := "2026-01-01T00:00:01.000Z" |}
  = expected_version fresh_clone_env.
Proof.
  apply (@pipeline_version_stamp fresh_clone_env).
  cbn. repeat (try (left; reflexivity); right).
Defined.

(** X18: the stages run in order and each one only after the ones before
    it succeeded: a stage script is started only when every stage script
    before it in the list returned without an error. *)
Theorem pipeline_stages_in_order :
  forall e pre c post,
    STAGES = pre ++ c :: post ->
    In (Pipeline.Exec c Pipeline.ServerDir) (fst (Pipeline.main e)) ->
    forallb (fun c' => ok (Pipeline.exec e c')) pre = true.
Proof.
  intros e pre c post HS. unfold_script. unfold STAGES in HS.
  name_commands.
  assert (D : c_fetch <> c_clean /\ c_fetch <> c_index /\ c_fetch <> c_legacy
              /\ c_clean <> c_index /\ c_clean <> c_legacy /\ c_index <> c_legacy)
    by (repeat split; discriminate).
  destruct D as [D1 [D2 [D3 [D4 [D5 D6]]]]].
  forget_bodies.
  assert (Hc : (pre = [] /\ c = c_fetch) \/ (pre = [c_fetch] /\ c = c_clean)
               \/ (pre = [c_fetch; c_clean] /\ c = c_index)
               \/ (pre = [c_fetch; c_clean; c_index] /\ c = c_legacy)).
  { destruct pre as [|p1 [|p2 [|p3 [|p4 pre]]]]; cbn in HS; inversion HS; subst;
      [tauto | tauto | tauto | tauto | destruct pre; discriminate]. }
  clear HS. cbn.
  destruct Hc as [[-> ->]|[[-> ->]|[[-> ->]|[-> ->]]]];
    repeat branch_trace e; cbn; intros H;
    repeat match goal with
           | H : _ \/ _ |- _ => destruct H
           | H : False |- _ => destruct H
           | H : Pipeline.Exec _ _ = Pipeline.Exec _ _ |- _ =>
               injection H as H; try discriminate; try congruence
           | H : _ = _ |- _ => discriminate H
           end;
    cbn; rewrite ?E, ?E0, ?E1, ?E2, ?E3, ?E4, ?E5, ?E6, ?E7, ?E8; reflexivity.
Qed.

Lemma pipeline_stages_in_order_witness :
  forallb (fun c' => ok (Pipeline.exec fresh_clone_env c'))
    ["node scripts/master_fetch.js"; "node scripts/cleanup_bilara.js"] = true.
Proof.
  apply (@pipeline_stages_in_order fresh_clone_env
           ["node scripts/master_fetch.js"; "node scripts/cleanup_bilara.js"]
           "node scripts/build_index.js" ["node scripts/fetch_legacy.js"]
           eq_refl).
  cbn. repeat (try (left; reflexivity); right).
Defined.

(** X19: the bundle is made only by a run whose earlier steps all
    succeeded: the public directory is there, the checkout is there, and
    the four stage scripts returned without an error. *)
Theorem pipeline_bundle_after_stages :
  forall e r,
    In (Pipeline.Bundle r) (fst (Pipeline.main e)) ->
    prepared e = true /\ synced e = true /\ staged e = true
    /\ r = Pipeline.bundle e.
Proof.
  intros e r. unfold_script. forget_commands. cbn.
  repeat branch_trace e; leaf.
Qed.

Lemma pipeline_bundle_after_stages_witness :
  prepared fresh_clone_env = true /\ synced fresh_clone_env = true
  /\ staged fresh_clone_env = true
  /\ Some "pwa/public/data.zip" = Pipeline.bundle fresh_clone_env.
Proof.
  apply (@pipeline_bundle_after_stages fresh_clone_env).
  cbn. repeat (try (left; reflexivity); right).
Defined.

(** ** The legacy backfill, continued *)

Section BackfillMore.

Import FetchLegacy.

Variable script_dir : list string.

Lemma process_spec : forall w st u,
  let st' := process script_dir w st u in
  (legacyMap st' = legacyMap st /\
   exists evs, trace st' = trace st ++ evs /\ added evs = [])
  \/
  (exists a content,
     legacy_source w u a content /\
     legacyMap st' =
       Js.set (legacyMap st) u
         {| author_uid := a; path := legacy_path script_dir u a |} /\
     exists evs,
       trace st' = trace st ++ evs /\ added evs = [u] /\
       In (WriteHtml u a (target_file script_dir u a) content) evs).
Proof.
  intros w st u. unfold process.
  destruct (Js.truthy Js.truthy_obj (Js.get (legacyMap st) u)).
  - left. split; [reflexivity|]. exists []. rewrite app_nil_r. split; reflexivity.
  - destruct (suttaplex w u) as [ts|] eqn:Ets.
    + destruct (filter (fun t => String.eqb (lang t) "en") ts) as [|t rest] eqn:Ef.
      * left. split; [reflexivity|]. exists [FetchSuttaplex u]. split; reflexivity.
      * destruct (sutta w u (t_author_uid t)) as [content|] eqn:Es.
        -- destruct (Js.truthy_str content) eqn:Ec.
           ++ right. exists (t_author_uid t), content. split.
              { exists ts, t, rest. repeat split; assumption. }
              split; [reflexivity|].
              eexists. cbn [trace]. rewrite <- !app_assoc.
              split; [reflexivity|]. split.
              ** cbn [app]. destruct (S (count st) mod 10 =? 0)%nat; reflexivity.
              ** cbn [app]. right. right. left. reflexivity.
           ++ left. split; [reflexivity|]. cbn [trace].
              exists [FetchSuttaplex u; FetchSutta u (t_author_uid t)].
              rewrite <- app_assoc. split; reflexivity.
        -- left. split; [reflexivity|]. cbn [trace].
           exists [FetchSuttaplex u; FetchSutta u (t_author_uid t)].
           rewrite <- app_assoc. split; reflexivity.
    + left. split; [reflexivity|]. exists [FetchSuttaplex u]. split; reflexivity.
Qed.

Lemma loop_cons : forall w u r st,
  loop script_dir w (u :: r) st = loop script_dir w r (process script_dir w st u).
Proof. reflexivity. Qed.

Lemma loop_spec : forall w l st u,
  In u (added (trace (loop script_dir w l st))) ->
  In u (added (trace st)) \/
  (In u l /\
   exists a content,
     legacy_source w u a content /\
     In (WriteHtml u a (target_file script_dir u a) content)
        (trace (loop script_dir w l st)) /\
     Js.own (legacyMap (loop script_dir w l st)) u
       = Some {| author_uid := a; path := legacy_path script_dir u a |}).
Proof.
  intros w. induction l as [|x r IH]; intros st u Hin.
  - left. exact Hin.
  - rewrite loop_cons in *.
    destruct (IH _ _ Hin) as [Hmid|[Hr [a [c [Hs [Hw Ho]]]]]].
    + destruct (process_spec w st x) as [[_ [evs [Ht Ha]]]|[a [c [Hs [Hm [evs [Ht [Ha Hw]]]]]]]].
      * left. rewrite Ht, added_app, Ha, app_nil_r in Hmid. exact Hmid.
      * rewrite Ht, added_app, Ha in Hmid. apply in_app_or in Hmid.
        destruct Hmid as [Hmid|[<-|[]]]; [left; exact Hmid|].
        right. split; [left; reflexivity|]. exists a, c. split; [exact Hs|]. split.
        -- destruct (loop_trace_extends script_dir w r (process script_dir w st x))
             as [evs' Hext].
           rewrite Hext, Ht. apply in_or_app. left. apply in_or_app. right. exact Hw.
        -- apply loop_keeps. rewrite Hm. apply own_set_same.
    + right. split; [right; exact Hr|]. exists a, c. auto.
Qed.

Lemma loop_keys : forall w l st k,
  Js.own (legacyMap (loop script_dir w l st)) k <> None ->
  Js.own (legacyMap st) k <> None \/
  In k (added (trace (loop script_dir w l st))).
Proof.
  intros w. induction l as [|x r IH]; intros st k Hk.
  - left. exact Hk.
  - rewrite loop_cons in *.
    destruct (IH _ _ Hk) as [Hmid|Hadd]; [|right; exact Hadd].
    destruct (process_spec w st x) as [[Hm _]|[a [c [_ [Hm [evs [Ht [Ha _]]]]]]]].
    + left. rewrite Hm in Hmid. exact Hmid.
    + rewrite Hm, own_set in Hmid.
      destruct (String.eqb k x) eqn:E; [|left; exact Hmid].
      apply String.eqb_eq in E. subst k. right.
      destruct (loop_trace_extends script_dir w r (process script_dir w st x))
        as [evs' Hext].
      rewrite Hext, Ht, !added_app, Ha. apply in_or_app. left.
      apply in_or_app. right. left. reflexivity.
Qed.

Lemma added_run : forall w legacy_file idx,
  index_file w = Some idx ->
  added (fst (run script_dir w legacy_file))
  = added (trace (loop script_dir w (missingLeaves idx (allLeaves w))
                    (start legacy_file))).
Proof.
  intros w lf idx Hi. unfold run. rewrite Hi. cbn [fst].
  rewrite added_app. cbn. apply app_nil_r.
Qed.

End BackfillMore.

(** X22: what the backfill stores.  Every identifier a run adds to the
    legacy map is a leaf of a menu document that is missing from the
    index; the author of its entry is the author of the first English
    translation the suttaplex of the identifier lists, the file written
    for it holds the text the service gave for that author, and the map
    the run leaves on disk has the entry, with the path of that file. *)
Theorem backfill_entries :
  forall script_dir w legacy_file idx u,
    FetchLegacy.index_file w = Some idx ->
    In u (FetchLegacy.added (fst (FetchLegacy.run script_dir w legacy_file))) ->
    In u (FetchLegacy.allLeaves w) /\
    BuildIndex.missing idx u = true /\
    exists a content m,
      legacy_source w u a content /\
      In (FetchLegacy.WriteHtml u a (FetchLegacy.target_file script_dir u a) content)
         (fst (FetchLegacy.run script_dir w legacy_file)) /\
      FetchLegacy.persisted legacy_file
        (fst (FetchLegacy.run script_dir w legacy_file)) = Some m /\
      Js.own m u
        = Some {| FetchLegacy.author_uid := a;
                  FetchLegacy.path := FetchLegacy.legacy_path script_dir u a |}.
Proof.
  intros sd w lf idx u Hi Hin.
  rewrite (added_run sd w lf Hi) in Hin.
  destruct (loop_spec sd w _ _ u Hin) as [H0|[Hl [a [c [Hs [Hw Ho]]]]]];
    [contradiction|].
  unfold FetchLegacy.missingLeaves in Hl. apply filter_In in Hl.
  destruct Hl as [Hleaf Hmiss]. split; [exact Hleaf|]. split; [exact Hmiss|].
  exists a, c. eexists. split; [exact Hs|].
  unfold FetchLegacy.run. rewrite Hi. cbn [fst]. split; [|split].
  - apply in_or_app. left. exact Hw.
  - apply persisted_last.
  - exact Ho.
Qed.

Lemma backfill_entries_witness :
  In "kn3" (FetchLegacy.allLeaves twelve_leaves) /\
  BuildIndex.missing [] "kn3" = true /\
  exists a content m,
    legacy_source twelve_leaves "kn3" a content /\
    In (FetchLegacy.WriteHtml "kn3" a
          (FetchLegacy.target_file ["srv"; "scripts"] "kn3" a) content)
       (fst (FetchLegacy.run ["srv"; "scripts"] twelve_leaves None)) /\
    FetchLegacy.persisted None
      (fst (FetchLegacy.run ["srv"; "scripts"] twelve_leaves None)) = Some m /\
    Js.own m "kn3"
      = Some {| FetchLegacy.author_uid := a;
                FetchLegacy.path :=
                  FetchLegacy.legacy_path ["srv"; "scripts"] "kn3" a |}.
Proof.
  apply (@backfill_entries ["srv"; "scripts"] twelve_leaves None [] "kn3" eq_refl).
  vm_compute. right. right. left. reflexivity.
Defined.

(** X23: the keys of the legacy map.  The map a run leaves on disk has
    exactly the keys of the map it started from and the identifiers it
    added, and the entries it started from are unchanged. *)
Theorem backfill_map_keys :
  forall script_dir w legacy_file idx,
    FetchLegacy.index_file w = Some idx ->
    exists m,
      FetchLegacy.persisted legacy_file
        (fst (FetchLegacy.run script_dir w legacy_file)) = Some m /\
      (forall k,
         Js.own m k <> None <->
         Js.own (FetchLegacy.legacyMap (FetchLegacy.start legacy_file)) k <> None
         \/ In k (FetchLegacy.added (fst (FetchLegacy.run script_dir w legacy_file))))
      /\
      (forall k x,
         Js.own (FetchLegacy.legacyMap (FetchLegacy.start legacy_file)) k = Some x ->
         Js.own m k = Some x).
Proof.
  intros sd w lf idx Hi.
  pose proof (added_run sd w lf Hi) as Ha.
  set (st := FetchLegacy.loop sd w
               (FetchLegacy.missingLeaves idx (FetchLegacy.allLeaves w))
               (FetchLegacy.start lf)) in *.
  exists (FetchLegacy.legacyMap st). split; [|split].
  - unfold FetchLegacy.run. rewrite Hi. cbn [fst]. apply persisted_last.
  - intros k. rewrite Ha. split.
    + apply loop_keys.
    + intros [H0|Hin].
      * destruct (Js.own (FetchLegacy.legacyMap (FetchLegacy.start lf)) k) as [x|] eqn:E;
          [|contradiction].
        unfold st. rewrite (loop_keeps sd w _ _ _ E). discriminate.
      * unfold st in *.
        eapply inv_in_map; [apply flush_inv_loop; apply flush_inv_start | exact Hin].
  - intros k x E. apply loop_keeps. exact E.
Qed.

Lemma backfill_map_keys_witness :
  exists m,
    FetchLegacy.persisted None
      (fst (FetchLegacy.run ["srv"; "scripts"] twelve_leaves None)) = Some m /\
    (forall k,
       Js.own m k <> None <->
       Js.own (FetchLegacy.legacyMap (FetchLegacy.start None)) k <> None
       \/ In k (FetchLegacy.added
                  (fst (FetchLegacy.run ["srv"; "scripts"] twelve_leaves None))))
    /\
    (forall k x,
       Js.own (FetchLegacy.legacyMap (FetchLegacy.start None)) k = Some x ->
       Js.own m k = Some x).
Proof.
  apply (@backfill_map_keys ["srv"; "scripts"] twelve_leaves None [] eq_refl).
Defined.

Section LegacyPaths.

Import FetchLegacy.

Lemma relative_segments_below : forall base rest,
  Path.relative_segments base (base ++ rest) = rest.
Proof.
  induction base as [|b base IH]; intros rest.
  - destruct rest; reflexivity.
  - cbn [app Path.relative_segments]. rewrite String.eqb_refl. apply IH.
Qed.

Lemma join_below : forall base names,
  Forall (fun s => Path.name_ok s = true) names ->
  Path.join base names = base ++ names.
Proof.
  intros base names H.
  assert (Hseg : flat_map Path.segments names = names).
  { induction H as [|n r Hn Hr IH]; [reflexivity|].
    cbn [flat_map]. rewrite IH, (segments_name n) by apply (name_ok_spec n Hn).
    reflexivity. }
  rewrite join_no_dotdot; rewrite Hseg.
  - rewrite (clean_kept H). reflexivity.
  - apply clean_no_dotdot. exact H.
Qed.

End LegacyPaths.

(** X24: where a legacy document is put.  For an author that is a plain
    directory name and an identifier without a separator, the text is
    written to [bilara-data-published/legacy/en/<author>/<uid>.html] below
    the data directory, and the path recorded in the map is
    [legacy/en/<author>/<uid>.html], with every backslash turned into a
    slash. *)
Theorem legacy_document_place :
  forall script_dir u a,
    Path.name_ok a = true ->
    Str.has_char "/" u = false ->
    FetchLegacy.target_file script_dir u a
      = FetchLegacy.DATA_DIR script_dir
        ++ ["bilara-data-published"; "legacy"; "en"; a; u +++ ".html"] /\
    FetchLegacy.legacy_path script_dir u a
      = FetchLegacy.slashes ("legacy/en/" +++ a +++ "/" +++ u +++ ".html").
Proof.
  intros sd u a Ha Hu.
  assert (Hn : Path.name_ok (u +++ ".html") = true)
    by (apply name_ok_suffixed; [exact Hu | reflexivity | simpl; lia]).
  assert (Hl : FetchLegacy.LEGACY_DIR sd
               = FetchLegacy.DATA_DIR sd ++ ["bilara-data-published"; "legacy"]).
  { unfold FetchLegacy.LEGACY_DIR.
    assert (Hs : flat_map Path.segments ["bilara-data-published/legacy"]
                 = ["bilara-data-published"; "legacy"]) by (vm_compute; reflexivity).
    rewrite join_no_dotdot; rewrite Hs; [reflexivity|].
    repeat constructor; discriminate. }
  assert (Ht : FetchLegacy.target_file sd u a
               = FetchLegacy.DATA_DIR sd
                 ++ ["bilara-data-published"; "legacy"; "en"; a; u +++ ".html"]).
  { unfold FetchLegacy.target_file. rewrite Hl.
    rewrite (join_below _ (names := ["en"; a])) by (repeat constructor; exact Ha).
    rewrite (join_below _ (names := [u +++ ".html"])) by (repeat constructor; exact Hn).
    rewrite <- !app_assoc. reflexivity. }
  split; [exact Ht|].
  unfold FetchLegacy.legacy_path. rewrite Ht.
  rewrite (join_below _ (names := ["bilara-data-published"])) by (repeat constructor).
  change (FetchLegacy.DATA_DIR sd
          ++ ["bilara-data-published"; "legacy"; "en"; a; u +++ ".html"])
    with (FetchLegacy.DATA_DIR sd
          ++ ["bilara-data-published"] ++ ["legacy"; "en"; a; u +++ ".html"]).
  rewrite app_assoc. unfold Path.relative. rewrite relative_segments_below.
  reflexivity.
Qed.

Lemma legacy_document_place_witness :
  FetchLegacy.target_file ["srv"; "scripts"] "kn3" "bodhi"
    = FetchLegacy.DATA_DIR ["srv"; "scripts"]
      ++ ["bilara-data-published"; "legacy"; "en"; "bodhi"; "kn3" +++ ".html"] /\
  FetchLegacy.legacy_path ["srv"; "scripts"] "kn3" "bodhi"
    = FetchLegacy.slashes ("legacy/en/" +++ "bodhi" +++ "/" +++ "kn3" +++ ".html").
Proof.
  apply (@legacy_document_place ["srv"; "scripts"] "kn3" "bodhi"); reflexivity.
Defined.

Section LeafFacts.

Import FetchLegacy.

Section MenuInduction.
Variable P : menu_node -> Prop.
Hypothesis HN : forall ty u cs, Forall P cs -> P (MenuNode ty u cs).

Fixpoint menu_induction (n : menu_node) : P n :=
  match n with
  | MenuNode ty u cs =>
      HN ty u
        ((fix all (l : list menu_node) : Forall P l :=
            match l with
            | [] => Forall_nil P
            | x :: r => Forall_cons x (menu_induction x) (all r)
            end) cs)
  end.
End MenuInduction.

Lemma set_add_in : forall s x u, In u (set_add s x) <-> In u s \/ u = x.
Proof.
  intros s x u. unfold set_add.
  destruct (existsb (String.eqb x) s) eqn:E.
  - split; [auto|]. intros [H| ->]; [exact H|].
    apply existsb_exists in E. destruct E as [y [Hy Exy]].
    apply String.eqb_eq in Exy. subst y. exact Hy.
  - rewrite in_app_iff. cbn. split.
    + intros [H|[<-|[]]]; auto.
    + intros [H| ->]; auto.
Qed.

Lemma set_add_nodup : forall s x, NoDup s -> NoDup (set_add s x).
Proof.
  intros s x H. unfold set_add.
  destruct (existsb (String.eqb x) s) eqn:E; [exact H|].
  apply NoDup_app; [exact H | repeat constructor; intros [] |].
  intros y Hy [Heq|[]]. subst y.
  assert (Ht : existsb (String.eqb x) s = true)
    by (apply existsb_exists; exists x; split; [exact Hy | apply String.eqb_refl]).
  congruence.
Qed.

Lemma fold_leaves : forall cs,
  Forall (fun n => forall acc,
            (NoDup acc -> NoDup (extractLeaves acc n)) /\
            forall u, In u (extractLeaves acc n) <-> In u acc \/ In u (leaf_uids n)) cs ->
  forall acc,
    (NoDup acc -> NoDup (fold_left extractLeaves cs acc)) /\
    forall u, In u (fold_left extractLeaves cs acc)
              <-> In u acc \/ In u (flat_map leaf_uids cs).
Proof.
  induction 1 as [|n r Hn Hr IH]; intros acc.
  - cbn. split; [auto|]. intros u. tauto.
  - cbn [fold_left flat_map]. destruct (Hn acc) as [Hd Hi].
    destruct (IH (extractLeaves acc n)) as [Hd' Hi']. split.
    + intros H. apply Hd', Hd, H.
    + intros u. rewrite Hi', Hi, in_app_iff. tauto.
Qed.

Lemma extractLeaves_spec : forall n acc,
  (NoDup acc -> NoDup (extractLeaves acc n)) /\
  forall u, In u (extractLeaves acc n) <-> In u acc \/ In u (leaf_uids n).
Proof.
  induction n as [ty x cs IH] using menu_induction. intros acc.
  cbn [extractLeaves leaf_uids].
  destruct (fold_leaves IH (if String.eqb ty "leaf" then set_add acc x else acc))
    as [Hd Hi].
  split.
  - intros H. apply Hd. destruct (String.eqb ty "leaf"); [apply set_add_nodup|]; exact H.
  - intros u. rewrite Hi, in_app_iff.
    destruct (String.eqb ty "leaf"); [rewrite set_add_in; cbn|]; cbn; intuition.
Qed.

Lemma fold_nodes : forall nodes acc,
  (NoDup acc -> NoDup (fold_left extractLeaves nodes acc)) /\
  forall u, In u (fold_left extractLeaves nodes acc)
            <-> In u acc \/ In u (flat_map leaf_uids nodes).
Proof.
  intros nodes. apply fold_leaves. apply Forall_forall.
  intros n _. apply extractLeaves_spec.
Qed.

Lemma fold_files : forall files acc,
  (NoDup acc ->
   NoDup (fold_left
            (fun leaves (f : string * option (list menu_node)) =>
               match snd f with
               | Some nodes => fold_left extractLeaves nodes leaves
               | None => leaves
               end) files acc)) /\
  forall u,
    In u (fold_left
            (fun leaves (f : string * option (list menu_node)) =>
               match snd f with
               | Some nodes => fold_left extractLeaves nodes leaves
               | None => leaves
               end) files acc) <->
    In u acc \/
    exists f nodes n, In (f, Some nodes) files /\ In n nodes /\ In u (leaf_uids n).
Proof.
  induction files as [|[f d] r IH]; intros acc.
  - cbn. split; [auto|]. intros u. split; [auto|].
    intros [H|[f [nodes [n [[] _]]]]]. exact H.
  - cbn [fold_left snd]. destruct d as [nodes|].
    + destruct (IH (fold_left extractLeaves nodes acc)) as [Hd Hi].
      destruct (fold_nodes nodes acc) as [Hd0 Hi0]. split.
      * intros Hacc. apply Hd, Hd0, Hacc.
      * intros u. rewrite Hi, Hi0. split.
        -- intros [[Hu|Hu]|[f' [nodes' [n [Hin Hrest]]]]].
           ++ left. exact Hu.
           ++ right. apply in_flat_map in Hu. destruct Hu as [n [Hn Hu]].
              exists f, nodes, n. split; [left; reflexivity | split; assumption].
           ++ right. exists f', nodes', n. split; [right; exact Hin | exact Hrest].
        -- intros [Hu|[f' [nodes' [n [[Heq|Hin] [Hn Hu]]]]]].
           ++ left. left. exact Hu.
           ++ injection Heq as <- <-. left. right. apply in_flat_map.
              exists n. split; assumption.
           ++ right. exists f', nodes', n. split; [exact Hin | split; assumption].
    + destruct (IH acc) as [Hd Hi]. split; [exact Hd|]. intros u. rewrite Hi. split.
      * intros [Hu|[f' [nodes' [n [Hin Hrest]]]]]; [left; exact Hu|].
        right. exists f', nodes', n. split; [right; exact Hin | exact Hrest].
      * intros [Hu|[f' [nodes' [n [[Heq|Hin] Hrest]]]]]; [left; exact Hu | discriminate |].
        right. exists f', nodes', n. split; [exact Hin | exact Hrest].
Qed.

End LeafFacts.

(** X25: the leaves of the menus.  The identifiers the backfill considers
    are, without repetition, the identifiers of the nodes of type [leaf],
    at any depth, of the menu documents whose file name ends in [.json];
    a document that cannot be read is passed over. *)
Theorem all_leaves_of_menus :
  forall w,
    NoDup (FetchLegacy.allLeaves w) /\
    forall u,
      In u (FetchLegacy.allLeaves w) <->
      exists f nodes n,
        In (f, Some nodes) (FetchLegacy.menus w) /\
        Str.endsWith ".json" f = true /\
        In n nodes /\ In u (leaf_uids n).
Proof.
  intros w. unfold FetchLegacy.allLeaves.
  destruct (fold_files
              (filter (fun f => Str.endsWith ".json" (fst f)) (FetchLegacy.menus w)) [])
    as [Hd Hi].
  split; [apply Hd; constructor|].
  intros u. rewrite Hi. split.
  - intros [[]|[f [nodes [n [Hin [Hn Hu]]]]]].
    apply filter_In in Hin. destruct Hin as [Hin He].
    exists f, nodes, n. repeat split; assumption.
  - intros [f [nodes [n [Hin [He [Hn Hu]]]]]]. right.
    exists f, nodes, n. split; [|split; assumption].
    apply filter_In. split; assumption.
Qed.
